(** * Tetris playfield core: a shallow embedding of the Python sources

    The development follows [block.py], [src/tetromino.py],
    [src/playfield.py], [src/level_panel.py], [lines_panel.py],
    [src/score_panel.py] and [src/game_interface_model.py].

    Conventions.
    - Python integers are [Z].
    - A Python exception is a value [Raise e] of the [result] monad; a method
      that returns normally yields [Ok v].
    - A Python list subscript [l[i]] accepts negative indices (it counts from
      the end) and raises [IndexError] outside [-len, len).
    - Object identity of a [Block] is its [block_id]; the playfield keeps an
      allocation counter from which [setup_blocks] draws identities of the
      objects it creates.  A block is never mutated while it is stored in
      the matrix (every mover removes the blocks first), so a matrix cell
      may hold the record by value.
    - The rows of the matrix are distinct list objects throughout (no code
      path stores one row object at two indices), so the matrix is a list
      of lists by value. *)

From Stdlib Require Import ZArith QArith Qround Lia.
From stdpp Require Import base tactics option list sorting.

Local Open Scope Z_scope.

(** ** Python exceptions and subscripts *)

Inductive PyError : Type :=
| IndexError
| ValueError
| AttributeError
| TypeError.

Inductive result (A : Type) : Type :=
| Ok (a : A)
| Raise (e : PyError).
Arguments Ok {A} a.
Arguments Raise {A} e.

#[global] Instance result_ret : MRet result := fun A a => Ok a.
#[global] Instance result_bind : MBind result := fun A B f r =>
  match r with
  | Ok a => f a
  | Raise e => Raise e
  end.

(** [range(a, b)] *)
Definition py_range (a b : Z) : list Z :=
  (fun i : nat => a + Z.of_nat i) <$> seq 0 (Z.to_nat (b - a)).

(** Resolution of a subscript against a list of length [n]. *)
Definition py_index (n : nat) (i : Z) : option nat :=
  if bool_decide (0 ≤ i < Z.of_nat n) then Some (Z.to_nat i)
  else if bool_decide (- Z.of_nat n ≤ i < 0) then Some (Z.to_nat (Z.of_nat n + i))
  else None.

(** [l[i]] *)
Definition getitem {A} (l : list A) (i : Z) : result A :=
  match py_index (length l) i with
  | Some k =>
      match l !! k with
      | Some a => Ok a
      | None => Raise IndexError
      end
  | None => Raise IndexError
  end.

(** [l[i] = v] *)
Definition setitem {A} (l : list A) (i : Z) (v : A) : result (list A) :=
  match py_index (length l) i with
  | Some k => Ok (<[k:=v]> l)
  | None => Raise IndexError
  end.

(** ** block.py *)

Definition Colour : Type := Z * Z * Z.

Record Block : Type := mkBlock {
  block_id : nat;
  colour : Colour;
  bx : Z;   (* x_coord *)
  by_ : Z   (* y_coord *)
}.

(** [a is b] on blocks. *)
Definition block_is (a b : Block) : bool := Nat.eqb (block_id a) (block_id b).

Definition set_coords (b : Block) (x y : Z) : Block :=
  mkBlock (block_id b) (colour b) x y.

Definition translate (b : Block) (dx dy : Z) : Block :=
  mkBlock (block_id b) (colour b) (bx b + dx) (by_ b + dy).

Definition block_shift_left (b : Block) : Block := translate b (-1) 0.
Definition block_shift_right (b : Block) : Block := translate b 1 0.
Definition block_shift_down (b : Block) : Block := translate b 0 1.

(** [b in l] for a list of blocks: the class defines no [__eq__], so the
    comparison is identity. *)
Definition block_in (b : Block) (l : list Block) : bool :=
  existsb (block_is b) l.

(** ** playfield.py: the matrix and its queries *)

Definition grid_width : Z := 10.
Definition grid_height : Z := 22.
Definition hidden_rows : Z := 2.

Abbreviation Cell := (option Block).
Abbreviation Row := (list (option Block)).
Abbreviation Matrix := (list (list (option Block))).

Definition cell_is_none (c : Cell) : bool :=
  match c with None => true | Some _ => false end.

(** [[None] * self.grid_width] *)
Definition empty_row : Row := replicate (Z.to_nat grid_width) None.

(** [[[None] * self.grid_width for _ in range(self.grid_height)]] *)
Definition empty_matrix : Matrix := replicate (Z.to_nat grid_height) empty_row.

(** [self.matrix[y][x]] *)
Definition matrix_get (m : Matrix) (x y : Z) : result Cell :=
  row ← getitem m y; getitem row x.

(** [self.matrix[y][x] = v] *)
Definition matrix_set (m : Matrix) (x y : Z) (v : Cell) : result Matrix :=
  row ← getitem m y;
  row' ← setitem row x v;
  setitem m y row'.

Definition get_block (m : Matrix) (x y : Z) : result Block :=
  block ← matrix_get m x y;
  match block with
  | None => Raise ValueError
  | Some b => Ok b
  end.

Definition check_cell_empty (m : Matrix) (x y : Z) : result bool :=
  block ← matrix_get m x y;
  Ok (cell_is_none block).

Definition add_block (m : Matrix) (block : Block) : result Matrix :=
  let x := bx block in
  let y := by_ block in
  e ← check_cell_empty m x y;
  if negb e then Raise ValueError
  else matrix_set m x y (Some block).

Definition check_block_position (m : Matrix) (block : Block) : result bool :=
  let x := bx block in
  let y := by_ block in
  block_found ← matrix_get m x y;
  Ok (match block_found with
      | Some b' => block_is block b'
      | None => false
      end).

Definition remove_block (m : Matrix) (block : Block) : result Matrix :=
  ok ← check_block_position m block;
  if negb ok then Raise ValueError
  else
    let x := bx block in
    let y := by_ block in
    matrix_set m x y None.

Definition is_in_bounds (x y : Z) : bool :=
  if (x <? 0) || (x >? grid_width - 1) then false
  else if (y <? 0) || (y >? grid_height - 1) then false
  else true.

Definition check_row_empty (m : Matrix) (row : Z) : result bool :=
  block_row ← getitem m row;
  Ok (forallb cell_is_none block_row).

Definition check_row_full (m : Matrix) (row : Z) : result bool :=
  block_row ← getitem m row;
  Ok (forallb (fun c => negb (cell_is_none c)) block_row).

(** The [for row in ...: if not self.check_row_empty(row): return row] loop
    of [get_top_block_row], over the rows still to visit. *)
Fixpoint first_nonempty_row (m : Matrix) (rows : list Z) : result Z :=
  match rows with
  | [] => Ok (-1)
  | row :: rest =>
      e ← check_row_empty m row;
      if negb e then Ok row else first_nonempty_row m rest
  end.

Definition get_top_block_row (m : Matrix) : result Z :=
  first_nonempty_row m (py_range 0 (grid_height - 1)).

(** The loop of [check_grid_empty]. *)
Fixpoint all_rows_empty (m : Matrix) (rows : list Z) : result bool :=
  match rows with
  | [] => Ok true
  | row :: rest =>
      e ← check_row_empty m row;
      if negb e then Ok false else all_rows_empty m rest
  end.

Definition check_grid_empty (m : Matrix) : result bool :=
  all_rows_empty m (py_range 0 grid_height).

Definition clear_row (m : Matrix) (row_index : Z) : result Matrix :=
  setitem m row_index empty_row.

(** The matrix has [grid_height] rows of [grid_width] cells each, as built
    by the constructor and kept by every update. *)
Definition wf_matrix (m : Matrix) : bool :=
  bool_decide (length m = Z.to_nat grid_height)
  && forallb (fun row : Row => bool_decide (length row = Z.to_nat grid_width)) m.

(** ** tetromino.py *)

Inductive Shape : Type :=
| ShapeI | ShapeJ | ShapeL | ShapeO | ShapeS | ShapeT | ShapeZ.

#[global] Instance Shape_eq_dec : EqDecision Shape.
Proof. solve_decision. Defined.

(** constants.py colours, as used by each class's [SURFACE_COLOUR]. *)
Definition RED : Colour := (255, 0, 0).
Definition GREEN : Colour := (0, 255, 0).
Definition BLUE : Colour := (0, 0, 255).
Definition YELLOW : Colour := (255, 255, 0).
Definition CYAN : Colour := (0, 255, 255).
Definition ORANGE : Colour := (255, 128, 0).
Definition PURPLE : Colour := (128, 0, 128).
Definition FRAME_RATE : Z := 60.

Definition SURFACE_COLOUR (s : Shape) : Colour :=
  match s with
  | ShapeI => CYAN
  | ShapeJ => BLUE
  | ShapeL => ORANGE
  | ShapeO => YELLOW
  | ShapeS => GREEN
  | ShapeT => PURPLE
  | ShapeZ => RED
  end.

(** [self.block_positions] as set by each subclass constructor. *)
Definition block_positions (s : Shape) : list (list (Z * Z)) :=
  match s with
  | ShapeI => [[(0, 0); (1, 0); (2, 0); (3, 0)];
               [(2, -1); (2, 0); (2, 1); (2, 2)]]
  | ShapeJ => [[(0, 0); (0, 1); (1, 1); (2, 1)];
               [(2, -1); (1, -1); (1, 0); (1, 1)];
               [(2, 1); (2, 0); (1, 0); (0, 0)];
               [(0, 1); (1, 1); (1, 0); (1, -1)]]
  | ShapeL => [[(0, 1); (1, 1); (2, 1); (2, 0)];
               [(1, -1); (1, 0); (1, 1); (2, 1)];
               [(2, 0); (1, 0); (0, 0); (0, 1)];
               [(1, 1); (1, 0); (1, -1); (0, -1)]]
  | ShapeO => [[(1, 0); (1, 1); (2, 1); (2, 0)]]
  | ShapeS => [[(0, 1); (1, 1); (1, 0); (2, 0)];
               [(0, -1); (0, 0); (1, 0); (1, 1)]]
  | ShapeT => [[(1, 0); (0, 1); (1, 1); (2, 1)];
               [(2, 0); (1, -1); (1, 0); (1, 1)];
               [(1, 1); (2, 0); (1, 0); (0, 0)];
               [(0, 0); (1, 1); (1, 0); (1, -1)]]
  | ShapeZ => [[(0, 0); (1, 0); (1, 1); (2, 1)];
               [(2, -1); (2, 0); (1, 0); (1, 1)]]
  end.

(** [Tetromino.get_tetromino_set()] *)
Definition get_tetromino_set : list Shape :=
  [ShapeI; ShapeJ; ShapeL; ShapeO; ShapeS; ShapeT; ShapeZ].

(** A tetromino object.  The subclass is [shape]; [colour] and
    [block_positions] are functions of it.  The constructor's placeholder
    [[None] * 4] for [square_units] is rendered as [[]]: [setup_blocks]
    overwrites all four entries before anything reads them. *)
Record Tetromino : Type := mkTetromino {
  shape : Shape;
  x_coord : Z;
  y_coord : Z;
  rotation_index : Z;
  square_units : list Block
}.

(** [ShapeX(playfield)] *)
Definition new_tetromino (s : Shape) : Tetromino :=
  mkTetromino s 0 0 0 [].

(** The loop of [would_collide] over the blocks still to visit; [units] is
    [self.square_units]. *)
Fixpoint would_collide_loop (m : Matrix) (units rest : list Block) (dx dy : Z)
  : result bool :=
  match rest with
  | [] => Ok false
  | block :: rest' =>
      let x := bx block + dx in
      let y := by_ block + dy in
      if negb (is_in_bounds x y) then Ok true
      else
        e ← check_cell_empty m x y;
        if negb e then
          block_found ← get_block m x y;
          if negb (block_in block_found units) then Ok true
          else would_collide_loop m units rest' dx dy
        else would_collide_loop m units rest' dx dy
  end.

Definition would_collide (m : Matrix) (t : Tetromino) (dx dy : Z) : result bool :=
  would_collide_loop m (square_units t) (square_units t) dx dy.

Definition is_on_ground (m : Matrix) (t : Tetromino) : result bool :=
  would_collide m t 0 1.

(** [setup_blocks]: the four [Block(...)] objects it creates take the
    identities [alloc], [alloc + 1], ...; the new allocation counter is
    returned with the tetromino. *)
Definition setup_blocks (alloc : nat) (t : Tetromino) (pos_x pos_y : Z)
  : result (nat * Tetromino) :=
  block_vectors ← getitem (block_positions (shape t)) (rotation_index t);
  let units :=
    imap (fun i (vector : Z * Z) =>
            mkBlock (alloc + i)%nat (SURFACE_COLOUR (shape t))
                    (pos_x + vector.1) (pos_y + vector.2))
         block_vectors in
  Ok ((alloc + length block_vectors)%nat,
      mkTetromino (shape t) pos_x pos_y (rotation_index t) units).

(** [for block in blocks: self.grid.remove_block(block)] *)
Fixpoint remove_blocks_loop (m : Matrix) (blocks : list Block) : result Matrix :=
  match blocks with
  | [] => Ok m
  | block :: rest => m' ← remove_block m block; remove_blocks_loop m' rest
  end.

Definition remove_blocks (m : Matrix) (t : Tetromino) : result Matrix :=
  remove_blocks_loop m (square_units t).

(** [for block in blocks: self.grid.add_block(block)] *)
Fixpoint add_blocks_loop (m : Matrix) (blocks : list Block) : result Matrix :=
  match blocks with
  | [] => Ok m
  | block :: rest => m' ← add_block m block; add_blocks_loop m' rest
  end.

Definition add_to_grid (m : Matrix) (t : Tetromino) : result Matrix :=
  add_blocks_loop m (square_units t).

Definition shift_left (m : Matrix) (t : Tetromino) : result (Matrix * Tetromino) :=
  c ← would_collide m t (-1) 0;
  if negb c then
    m1 ← remove_blocks m t;
    let t' := mkTetromino (shape t) (x_coord t - 1) (y_coord t)
                          (rotation_index t)
                          (block_shift_left <$> square_units t) in
    m2 ← add_to_grid m1 t';
    Ok (m2, t')
  else Ok (m, t).

Definition shift_right (m : Matrix) (t : Tetromino) : result (Matrix * Tetromino) :=
  c ← would_collide m t 1 0;
  if negb c then
    m1 ← remove_blocks m t;
    let t' := mkTetromino (shape t) (x_coord t + 1) (y_coord t)
                          (rotation_index t)
                          (block_shift_right <$> square_units t) in
    m2 ← add_to_grid m1 t';
    Ok (m2, t')
  else Ok (m, t).

Definition shift_down (m : Matrix) (t : Tetromino) : result (Matrix * Tetromino) :=
  m1 ← remove_blocks m t;
  let t' := mkTetromino (shape t) (x_coord t) (y_coord t + 1)
                        (rotation_index t)
                        (block_shift_down <$> square_units t) in
  m2 ← add_to_grid m1 t';
  Ok (m2, t').

(** The circular index computed identically by [rotate] and [can_rotate]. *)
Definition wrap_index (index n : Z) : Z :=
  if index =? n then 0
  else if index =? -1 then n - 1
  else index.

(** The loop of [can_rotate] over the vectors still to visit. *)
Fixpoint can_rotate_loop (m : Matrix) (t : Tetromino) (vectors : list (Z * Z))
  : result bool :=
  match vectors with
  | [] => Ok true
  | vector :: rest =>
      let x := x_coord t + vector.1 in
      let y := y_coord t + vector.2 in
      if negb (is_in_bounds x y) then Ok false
      else
        e ← check_cell_empty m x y;
        if negb e then
          block_found ← get_block m x y;
          if negb (block_in block_found (square_units t)) then Ok false
          else can_rotate_loop m t rest
        else can_rotate_loop m t rest
  end.

Definition can_rotate (m : Matrix) (t : Tetromino) (dr : Z) : result bool :=
  let temp_index := rotation_index t + dr in
  let n := Z.of_nat (length (block_positions (shape t))) in
  let temp_index := wrap_index temp_index n in
  block_vectors ← getitem (block_positions (shape t)) temp_index;
  can_rotate_loop m t block_vectors.

(** The final loop of [rotate] over the indices still to visit: block [i]
    is moved to origin + vector [i] and added to the grid. *)
Fixpoint rotate_loop (m : Matrix) (x0 y0 : Z) (units : list Block)
    (block_vectors : list (Z * Z)) (indices : list Z)
  : result (Matrix * list Block) :=
  match indices with
  | [] => Ok (m, units)
  | i :: rest =>
      block ← getitem units i;
      vector ← getitem block_vectors i;
      let x := x0 + vector.1 in
      let y := y0 + vector.2 in
      let block' := set_coords block x y in
      units' ← setitem units i block';
      m' ← add_block m block';
      rotate_loop m' x0 y0 units' block_vectors rest
  end.

(** [Tetromino.rotate], the method of the base class. *)
Definition Tetromino_rotate (m : Matrix) (t : Tetromino) (dr : Z)
  : result (Matrix * Tetromino) :=
  ok ← can_rotate m t dr;
  if negb ok then Ok (m, t)
  else
    let n := Z.of_nat (length (block_positions (shape t))) in
    let index := wrap_index (rotation_index t + dr) n in
    block_vectors ← getitem (block_positions (shape t)) index;
    m1 ← remove_blocks m t;
    '(m2, units) ← rotate_loop m1 (x_coord t) (y_coord t) (square_units t)
                     block_vectors
                     (py_range 0 (Z.of_nat (length (square_units t))));
    Ok (m2, mkTetromino (shape t) (x_coord t) (y_coord t) index units).

(** [rotate] with the override of [ShapeO], which returns at once. *)
Definition rotate (m : Matrix) (t : Tetromino) (dr : Z)
  : result (Matrix * Tetromino) :=
  match shape t with
  | ShapeO => Ok (m, t)
  | _ => Tetromino_rotate m t dr
  end.

Definition rotate_clockwise (m : Matrix) (t : Tetromino) := rotate m t 1.
Definition rotate_anticlockwise (m : Matrix) (t : Tetromino) := rotate m t (-1).

(** [get_rows]: the distinct row indices in order of first occurrence,
    then [rows.sort()]. *)
Definition get_rows_loop (units : list Block) : list Z :=
  fold_left (fun rows block =>
               let y := by_ block in
               if existsb (Z.eqb y) rows then rows else rows ++ [y])
            units [].

Definition get_rows (t : Tetromino) : list Z :=
  merge_sort Z.le (get_rows_loop (square_units t)).

Definition get_blocks (t : Tetromino) : list Block := square_units t.

(** ** level_panel.py, lines_panel.py, score_panel.py,
       game_interface_model.py: the collaborators the playfield calls *)

Record GameInterfaceModel : Type := mkModel {
  level : Z;        (* level_panel.level *)
  lines_left : Z;   (* level_panel.lines_left *)
  lines : Z;        (* lines_panel.lines *)
  score : Z         (* score_panel.score *)
}.

Definition lines_to_level : Z := 10.

Definition initial_model : GameInterfaceModel := mkModel 1 lines_to_level 0 0.

(** One pass of the body of the loop of [LevelPanel.update_level]. *)
Definition update_level_step (mo : GameInterfaceModel) : GameInterfaceModel :=
  let left := lines_left mo - 1 in
  if left =? 0
  then mkModel (level mo + 1) lines_to_level (lines mo) (score mo)
  else mkModel (level mo) left (lines mo) (score mo).

Definition update_level (mo : GameInterfaceModel) (n : Z) : GameInterfaceModel :=
  fold_left (fun acc _ => update_level_step acc) (py_range 0 n) mo.

(** [points_dict.get(str(lines), 0) * level] *)
Definition line_points (n : Z) : Z :=
  if n =? 1 then 40
  else if n =? 2 then 100
  else if n =? 3 then 300
  else if n =? 4 then 1200
  else 0.

Definition score_lines (mo : GameInterfaceModel) (n lvl : Z) : GameInterfaceModel :=
  mkModel (level mo) (lines_left mo) (lines mo) (score mo + line_points n * lvl).

Definition add_lines_cleared (mo : GameInterfaceModel) (n : Z) : GameInterfaceModel :=
  mkModel (level mo) (lines_left mo) (lines mo + n) (score mo).

Definition increase_lines (mo : GameInterfaceModel) (n : Z) : GameInterfaceModel :=
  let mo1 := add_lines_cleared mo n in
  let lvl := level mo1 in
  let mo2 := score_lines mo1 n lvl in
  update_level mo2 n.

(** The formula of [calculate_gravity] at a given level, over exact
    rationals: the literals 0.8 and 0.007 are 4/5 and 7/1000.  Python
    evaluates it in binary64; the two agree wherever the exact value is not
    within rounding distance of an integer. *)
Definition gravity_value (lvl : Z) : Q :=
  (((8 # 10) - inject_Z (lvl - 1) * (7 # 1000)) ^ (lvl - 1) * inject_Z FRAME_RATE)%Q.

Definition gravity_at_level (lvl : Z) : Z := Qceiling (gravity_value lvl).

Definition calculate_gravity (mo : GameInterfaceModel) : Z :=
  gravity_at_level (level mo).

(** ** playfield.py: the state machine *)

Definition clear_delay : Z := 40.

(** Where a [line_clear_generator] object is suspended. *)
Inductive ClearPoint : Type :=
| AtStart                 (* created, not yet run *)
| AtSweepYield (x : Z)    (* the first [yield] of column [x] *)
| AtFrameYield (x : Z)    (* the [yield] of the frame-interval loop of column [x] *)
| AtDelayYield            (* the [yield] of the delay loop *)
| AtEnd.                  (* the [yield] of the final endless loop *)

Record LineClearGenerator : Type := mkClearGen {
  full_rows : list Z;
  delay_counter : Z;
  point : ClearPoint
}.

(** The attributes of [Playfield] that the methods below read or write; the
    drawing attributes and the counters of the drop and spawn phases are
    left out. *)
Record Playfield : Type := mkPlayfield {
  matrix : Matrix;
  active_tetromino : option Tetromino;
  model : GameInterfaceModel;
  gravity : Z;
  lock_counter : Z;
  in_lock_phase : bool;
  tetromino_isactive : bool;
  in_clear_phase : bool;
  game_over : bool;
  clear_generator : option LineClearGenerator;
  soft_drop_isactive : bool;
  alloc : nat   (* identities handed out to Block objects so far *)
}.

(** [self.active_tetromino.<method>]: [None] has no methods. *)
Definition the_active_tetromino (p : Playfield) : result Tetromino :=
  match active_tetromino p with
  | Some t => Ok t
  | None => Raise AttributeError
  end.

(** [for block in blocks: self.matrix[y][x] = block] *)
Fixpoint force_write (m : Matrix) (blocks : list Block) : result Matrix :=
  match blocks with
  | [] => Ok m
  | block :: rest =>
      m' ← matrix_set m (bx block) (by_ block) (Some block);
      force_write m' rest
  end.

Definition set_tetromino (p : Playfield) (next_piece : Tetromino) : result Playfield :=
  let top_left_x := 3 in
  let top_left_y := 2 in
  '(a1, t1) ← setup_blocks (alloc p) next_piece top_left_x top_left_y;
  c1 ← would_collide (matrix p) t1 0 0;
  if (c1 : bool) then
    let top_left_y := top_left_y - 1 in
    '(a2, t2) ← setup_blocks a1 t1 top_left_x top_left_y;
    c2 ← would_collide (matrix p) t2 0 0;
    if (c2 : bool) then
      m' ← force_write (matrix p) (get_blocks t2);
      Ok (mkPlayfield m' (Some t2) (model p) (gravity p) (lock_counter p)
            (in_lock_phase p) false (in_clear_phase p) true
            (clear_generator p) (soft_drop_isactive p) a2)
    else
      m' ← add_to_grid (matrix p) t2;
      Ok (mkPlayfield m' (Some t2) (model p) (gravity p) (lock_counter p)
            (in_lock_phase p) true (in_clear_phase p) (game_over p)
            (clear_generator p) (soft_drop_isactive p) a2)
  else
    m' ← add_to_grid (matrix p) t1;
    Ok (mkPlayfield m' (Some t1) (model p) (gravity p) (lock_counter p)
          (in_lock_phase p) true (in_clear_phase p) (game_over p)
          (clear_generator p) (soft_drop_isactive p) a1).

(** The loop of [check_lock_out] over the row indices still to visit. *)
Fixpoint check_lock_out_loop (row_list : list Z) : bool :=
  match row_list with
  | [] => true
  | row :: rest =>
      if row >? hidden_rows - 1 then false else check_lock_out_loop rest
  end.

Definition check_lock_out (p : Playfield) : result bool :=
  t ← the_active_tetromino p;
  Ok (check_lock_out_loop (get_rows t)).

(** The loop of [pattern_phase]; [acc] is [full_rows] so far. *)
Fixpoint full_rows_loop (m : Matrix) (block_rows acc : list Z) : result (list Z) :=
  match block_rows with
  | [] => Ok acc
  | row_index :: rest =>
      f ← check_row_full m row_index;
      full_rows_loop m rest (if (f : bool) then acc ++ [row_index] else acc)
  end.

Definition pattern_phase (p : Playfield) : result Playfield :=
  t ← the_active_tetromino p;
  rows ← full_rows_loop (matrix p) (get_rows t) [];
  if (0 <? Z.of_nat (length rows)) then
    Ok (mkPlayfield (matrix p) (active_tetromino p) (model p) (gravity p)
          (lock_counter p) (in_lock_phase p) (tetromino_isactive p) true
          (game_over p) (Some (mkClearGen rows 0 AtStart))
          (soft_drop_isactive p) (alloc p))
  else Ok p.

(** The first three assignments of [lock_tetromino]: the lock counter is
    reset, the tetromino is no longer active, the lock phase is over. *)
Definition lock_flags_reset (p : Playfield) : Playfield :=
  mkPlayfield (matrix p) (active_tetromino p) (model p) (gravity p)
    0 false false (in_clear_phase p) (game_over p)
    (clear_generator p) (soft_drop_isactive p) (alloc p).

Definition lock_tetromino (p : Playfield) : result Playfield :=
  let p1 := lock_flags_reset p in
  out ← check_lock_out p1;
  if (out : bool) then
    Ok (mkPlayfield (matrix p1) (active_tetromino p1) (model p1) (gravity p1)
          (lock_counter p1) (in_lock_phase p1) (tetromino_isactive p1)
          (in_clear_phase p1) true (clear_generator p1)
          (soft_drop_isactive p1) (alloc p1))
  else pattern_phase p1.

(** The inner loop of [shift_rows_down] over the values of [y] still to
    visit. *)
Fixpoint shift_rows_inner (m : Matrix) (temp_blocks : Row) (ys : list Z)
  : result Matrix :=
  match ys with
  | [] => Ok m
  | y :: rest =>
      blocks ← getitem m (y + 1);
      m' ← setitem m (y + 1) temp_blocks;
      shift_rows_inner m' blocks rest
  end.

(** The outer loop of [shift_rows_down] over the indices [i] still to
    visit. *)
Fixpoint shift_rows_outer (m : Matrix) (rows : list Z) (indices : list Z)
  : result Matrix :=
  match indices with
  | [] => Ok m
  | i :: rest =>
      start_row ← get_top_block_row m;
      end_row ← getitem rows i;
      temp_blocks ← getitem m start_row;
      m1 ← clear_row m start_row;
      m2 ← shift_rows_inner m1 temp_blocks (py_range start_row end_row);
      shift_rows_outer m2 rows rest
  end.

Definition shift_rows_down (m : Matrix) (rows : list Z) : result Matrix :=
  e ← check_grid_empty m;
  if (e : bool) then Ok m
  else shift_rows_outer m rows (py_range 0 (Z.of_nat (length rows))).

(** [for row_index in full_rows: self.matrix[row_index][x] = None] *)
Fixpoint sweep_column (m : Matrix) (rows : list Z) (x : Z) : result Matrix :=
  match rows with
  | [] => Ok m
  | row_index :: rest =>
      m' ← matrix_set m x row_index None;
      sweep_column m' rest x
  end.

Definition with_generator (p : Playfield) (m : Matrix) (g : LineClearGenerator)
  : Playfield :=
  mkPlayfield m (active_tetromino p) (model p) (gravity p) (lock_counter p)
    (in_lock_phase p) (tetromino_isactive p) (in_clear_phase p) (game_over p)
    (Some g) (soft_drop_isactive p) (alloc p).

(** The code of the generator after its delay loop, up to the [yield] of the
    endless loop. *)
Definition clear_finish (p : Playfield) (g : LineClearGenerator) : result Playfield :=
  let num_of_lines := Z.of_nat (length (full_rows g)) in
  m' ← shift_rows_down (matrix p) (full_rows g);
  let model' := increase_lines (model p) num_of_lines in
  let gravity' :=
    if negb (soft_drop_isactive p) then calculate_gravity model' else gravity p in
  Ok (mkPlayfield m' (active_tetromino p) model' gravity' (lock_counter p)
        (in_lock_phase p) (tetromino_isactive p) false (game_over p)
        (Some (mkClearGen (full_rows g) (delay_counter g) AtEnd))
        (soft_drop_isactive p) (alloc p)).

(** The test of [while delay_counter <= self.clear_delay] and what follows. *)
Definition clear_wait (p : Playfield) (g : LineClearGenerator) : result Playfield :=
  if delay_counter g <=? clear_delay then
    Ok (with_generator p (matrix p)
          (mkClearGen (full_rows g) (delay_counter g + 1) AtDelayYield))
  else clear_finish p g.

(** The column loop entered with [x] the next value of
    [range(0, self.grid_width)]. *)
Definition clear_columns_from (p : Playfield) (g : LineClearGenerator) (x : Z)
  : result Playfield :=
  if x <? grid_width then
    m' ← sweep_column (matrix p) (full_rows g) x;
    Ok (with_generator p m'
          (mkClearGen (full_rows g) (delay_counter g + 1) (AtSweepYield x)))
  else clear_wait p g.

(** [next(self.clear_generator)]: run from the suspension point to the next
    [yield].  The frame-interval loop is [range(0, 1)]: one pass. *)
Definition clear_generator_next (p : Playfield) : result Playfield :=
  match clear_generator p with
  | None => Raise TypeError
  | Some g =>
      match point g with
      | AtStart => clear_columns_from p g 0
      | AtSweepYield x =>
          Ok (with_generator p (matrix p)
                (mkClearGen (full_rows g) (delay_counter g + 1) (AtFrameYield x)))
      | AtFrameYield x => clear_columns_from p g (x + 1)
      | AtDelayYield => clear_wait p g
      | AtEnd => Ok p
      end
  end.


(** ** tetromino.py: the bag randomizer *)

(** A suspended [random_generator]: the part of the current bag not yet
    yielded, and how many times [random.shuffle] has been called. *)
Record RandomGenerator : Type := mkRandom {
  bag : list Shape;
  shuffles : nat
}.

Definition new_random_generator : RandomGenerator := mkRandom [] 0.

(** [next(generator)].  [shuffle k l] is what the [k]-th call of
    [random.shuffle] makes of the list [l].  A bag that came out empty would
    send the [while True] loop round again without a [yield]; [fuel] bounds
    the number of such rounds. *)
Fixpoint random_generator_next (shuffle : nat → list Shape → list Shape)
    (fuel : nat) (g : RandomGenerator) : option (Shape * RandomGenerator) :=
  match bag g with
  | tetromino :: rest => Some (tetromino, mkRandom rest (shuffles g))
  | [] =>
      match fuel with
      | O => None
      | S fuel' =>
          random_generator_next shuffle fuel'
            (mkRandom (shuffle (shuffles g) get_tetromino_set) (S (shuffles g)))
      end
  end.

(** The first [n] values of the generator. *)
Fixpoint random_generator_take (shuffle : nat → list Shape → list Shape)
    (fuel n : nat) (g : RandomGenerator) : option (list Shape) :=
  match n with
  | O => Some []
  | S n' =>
      match random_generator_next shuffle fuel g with
      | None => None
      | Some (s, g') =>
          match random_generator_take shuffle fuel n' g' with
          | None => None
          | Some l => Some (s :: l)
          end
      end
  end.

(** The window of [len] consecutive outputs starting at position [start]. *)
Definition output_window (shuffle : nat → list Shape → list Shape)
    (start len : nat) : option (list Shape) :=
  match random_generator_take shuffle 1 (start + len) new_random_generator with
  | None => None
  | Some l => Some (drop start l)
  end.

(** The [k] bags drawn by the shuffles numbered [j], [j + 1], ... *)
Definition bags (shuffle : nat → list Shape → list Shape) (j k : nat) : list Shape :=
  concat ((fun i => shuffle i get_tetromino_set) <$> seq j k).

Definition count_shape (s : Shape) (l : list Shape) : nat :=
  length (filter (fun s' => s' = s) l).

(** ** Pure views of the matrix, for stating results *)

(** The content of the cell in column [x] of row [y], for coordinates inside
    the grid. *)
Definition cell_at (m : Matrix) (x y : Z) : Cell :=
  match m !! Z.to_nat y with
  | Some row =>
      match row !! Z.to_nat x with
      | Some c => c
      | None => None
      end
  | None => None
  end.

(** The matrix with the cell in column [x] of row [y] replaced. *)
Definition matrix_put (m : Matrix) (x y : Z) (v : Cell) : Matrix :=
  match m !! Z.to_nat y with
  | Some row => <[Z.to_nat y := <[Z.to_nat x := v]> row]> m
  | None => m
  end.

(** A position a piece with blocks [units] cannot take: outside the grid, or
    holding a block that is not one of [units]. *)
Definition blocked (m : Matrix) (units : list Block) (x y : Z) : bool :=
  negb (is_in_bounds x y)
  || match matrix_get m x y with
     | Ok (Some b') => negb (block_in b' units)
     | _ => false
     end.

(** Whether row [y] of the grid has a block in every cell. *)
Definition row_is_full (m : Matrix) (y : Z) : bool :=
  match m !! Z.to_nat y with
  | Some row => forallb (fun c => negb (cell_is_none c)) row
  | None => false
  end.

(** Whether row [y] of the grid has no block. *)
Definition row_is_empty (m : Matrix) (y : Z) : bool :=
  match m !! Z.to_nat y with
  | Some row => forallb cell_is_none row
  | None => true
  end.

(** Every block stored in the matrix was created before the allocation
    counter reached [a]: objects created from now on are distinct from all of
    them. *)
Definition ids_below (a : nat) (m : Matrix) : bool :=
  forallb (fun row : Row =>
             forallb (fun c : Cell =>
                        match c with
                        | Some b => (block_id b <? a)%nat
                        | None => true
                        end) row) m.

(** Every cell named by [blocks] replaced by its block, in order. *)
Definition put_blocks (m : Matrix) (blocks : list Block) : Matrix :=
  foldl (fun acc b => matrix_put acc (bx b) (by_ b) (Some b)) m blocks.

(** Every cell named by [blocks] emptied, in order. *)
Definition take_blocks (m : Matrix) (blocks : list Block) : Matrix :=
  foldl (fun acc b => matrix_put acc (bx b) (by_ b) None) m blocks.

Definition position (b : Block) : Z * Z := (bx b, by_ b).

(** The active piece as the movers keep it on the grid:
    - its rotation index is an index of its table of states;
    - its blocks sit at origin + vector, for the vectors of its current state;
    - each block is inside the grid and stored in its own cell;
    - no other cell of the grid holds one of its blocks. *)
Definition piece_on_grid (m : Matrix) (t : Tetromino) : bool :=
  bool_decide (0 ≤ rotation_index t
               < Z.of_nat (length (block_positions (shape t))))
  && bool_decide (position <$> square_units t
                  = (fun v : Z * Z => (x_coord t + v.1, y_coord t + v.2))
                      <$> (block_positions (shape t)
                             !!! Z.to_nat (rotation_index t)))
  && forallb (fun b =>
                is_in_bounds (bx b) (by_ b)
                && match cell_at m (bx b) (by_ b) with
                   | Some b' => block_is b b'
                   | None => false
                   end)
             (square_units t)
  && forallb (fun y =>
                forallb (fun x =>
                           match cell_at m x y with
                           | Some b' =>
                               implb (block_in b' (square_units t))
                                     (bool_decide
                                        ((x, y) ∈ position <$> square_units t))
                           | None => true
                           end)
                        (py_range 0 grid_width))
             (py_range 0 grid_height).

(** What [rotate] makes of the blocks: block [i] goes to origin + vector
    [i]. *)
Definition rotated_units (x0 y0 : Z) (units : list Block)
    (vectors : list (Z * Z)) : list Block :=
  zip_with (fun b (v : Z * Z) => set_coords b (x0 + v.1) (y0 + v.2))
           units vectors.


(** Row [y] of the grid, for [y] inside the grid. *)
Definition row_at (m : Matrix) (y : Z) : option Row := m !! Z.to_nat y.

(** ** Concrete inputs used by the examples *)

(** A matrix whose only block sits in the bottom-right cell. *)
Definition corner_block : Block := mkBlock 0 RED 9 21.

Definition corner_matrix : Matrix :=
  <[21%nat := <[9%nat := Some corner_block]> empty_row]> empty_matrix.

(** A shuffle that leaves the first bag as it is and reverses every later
    one. *)
Definition reversing_shuffle (k : nat) (l : list Shape) : list Shape :=
  if Nat.eqb k 0 then l else reverse l.

Definition identity_shuffle (k : nat) (l : list Shape) : list Shape := l.

(** An I piece standing upright against the left wall, with a foreign block
    to its right. *)
Definition wall_piece : Tetromino :=
  mkTetromino ShapeI (-2) 5 1
    [mkBlock 1 CYAN 0 4; mkBlock 2 CYAN 0 5; mkBlock 3 CYAN 0 6; mkBlock 4 CYAN 0 7].

Definition wall_matrix : Matrix :=
  put_blocks empty_matrix (square_units wall_piece ++ [mkBlock 9 RED 1 5]).

(** The wall piece as the active piece of a playfield, nothing else set. *)
Definition wall_playfield : Playfield :=
  mkPlayfield wall_matrix (Some wall_piece) initial_model 60 7 true true false
    false None false 10.

(** An O piece lying in the two hidden rows. *)
Definition hidden_piece : Tetromino :=
  mkTetromino ShapeO 3 0 0
    [mkBlock 1 YELLOW 4 0; mkBlock 2 YELLOW 4 1; mkBlock 3 YELLOW 5 1;
     mkBlock 4 YELLOW 5 0].

Definition hidden_playfield : Playfield :=
  mkPlayfield (put_blocks empty_matrix (square_units hidden_piece))
    (Some hidden_piece) initial_model 60 7 true true false false None false 10.

(** A playfield whose spawn area is free, one where only the first spawn
    position is taken, and one where both are. *)
Definition free_playfield : Playfield :=
  mkPlayfield empty_matrix None initial_model 60 0 false false false false
    None false 0.

Definition crowded_playfield : Playfield :=
  mkPlayfield (put_blocks empty_matrix [mkBlock 0 RED 4 3]) None initial_model
    60 0 false false false false None false 1.

Definition topped_out_playfield : Playfield :=
  mkPlayfield (put_blocks empty_matrix [mkBlock 0 RED 4 2; mkBlock 1 RED 4 3])
    None initial_model 60 0 false false false false None false 2.

(** A T piece in the open, with a foreign block in the bottom-left corner. *)
Definition free_piece : Tetromino :=
  mkTetromino ShapeT 3 5 0
    [mkBlock 1 PURPLE 4 5; mkBlock 2 PURPLE 3 6; mkBlock 3 PURPLE 4 6;
     mkBlock 4 PURPLE 5 6].

Definition free_matrix : Matrix :=
  put_blocks empty_matrix (square_units free_piece ++ [mkBlock 9 RED 0 21]).








(** ** score_panel.py: the list of high scores *)

(** [min(l)] and [max(l)] for a list of integers: ValueError on the empty
    list. *)
Definition py_min (l : list Z) : result Z :=
  match l with
  | [] => Raise ValueError
  | x :: rest => Ok (foldl Z.min x rest)
  end.

Definition py_max (l : list Z) : result Z :=
  match l with
  | [] => Raise ValueError
  | x :: rest => Ok (foldl Z.max x rest)
  end.

(** [l.sort(reverse=True)] *)
Definition sort_reverse (l : list Z) : list Z := merge_sort (flip Z.le) l.

(** [update_scores]: [scores_list] is the list stored under the key
    "high scores" of the data file, [score] the attribute of the panel; the
    result is the list the file holds after the call.  The file is written
    only on the path that reaches the end. *)
Definition update_scores (score : Z) (scores_list : list Z) : result (list Z) :=
  lowest ← py_min scores_list;
  if negb (score >? lowest) then Ok scores_list
  else
    let scores_list := sort_reverse scores_list in
    let end_index := Z.of_nat (length scores_list) - 1 in
    scores_list ← setitem scores_list end_index score;
    Ok (sort_reverse scores_list).

(** [set_high_score]: the value given to [self.high_score]. *)
Definition set_high_score (scores_list : list Z) : result Z :=
  py_max scores_list.

(** Two blocks with an empty row between them, and two blocks in the two
    bottom rows with nothing above them. *)
Definition split_matrix : Matrix :=
  put_blocks empty_matrix [mkBlock 0 RED 3 18; mkBlock 1 RED 5 20].

Definition low_matrix : Matrix :=
  put_blocks empty_matrix [mkBlock 0 RED 3 20; mkBlock 1 RED 5 21].

(** ** playfield.py: the frame update *)

Definition lock_delay : Z := 30.
Definition entry_delay : Z := 25.
Definition SOFT_DROP_GRAVITY : Z := 1.

(** Where a [game_over_generator] object is suspended. *)
Inductive EndPoint : Type :=
| EndAtStart                                (* created, not yet run *)
| EndAtDelayYield                           (* the [yield] of the delay loop *)
| EndAtRowYield (row_index : Z)             (* the [yield] after [clear_row] *)
| EndAtFrameYield (row_index clear_frames : Z)
                                            (* the [yield] of the [clear_frames] loop *)
| EndAtEnd.                                 (* the [yield] of the final endless loop *)

Record GameOverGenerator : Type := mkEndGen {
  end_delay_counter : Z;
  end_point : EndPoint
}.

Definition new_end_generator : GameOverGenerator := mkEndGen 0 EndAtStart.

(** pause_button.py: the three flags of the button. *)
Record PauseButton : Type := mkPauseButton {
  is_hovered : bool;
  clicked_down : bool;
  is_paused : bool
}.

Definition new_pause_button : PauseButton := mkPauseButton false false true.

(** The whole game: the playfield with the attributes that record
    [Playfield] leaves out, the next panel, the bag randomizer, the pause
    button, and the high scores (the attribute of the score panel, and the
    list stored under "high scores" in the data file). *)
Record Game : Type := mkGame {
  grid : Playfield;
  gravity_counter : Z;               (* grid.gravity_counter *)
  entry_counter : Z;                 (* grid.entry_counter *)
  end_generator : GameOverGenerator; (* grid.end_generator *)
  grid_visible : bool;               (* grid.grid_visible *)
  next_tetromino : option Tetromino; (* next_panel.next_tetromino *)
  show_next_piece : bool;            (* next_panel.show_next_piece *)
  random_generator : RandomGenerator;
  pause_button : PauseButton;
  high_score : Z;                    (* score_panel.high_score *)
  scores_file : list Z
}.

(** Assignments to one attribute. *)
Definition set_matrix (p : Playfield) (m : Matrix) : Playfield :=
  mkPlayfield m (active_tetromino p) (model p) (gravity p) (lock_counter p)
    (in_lock_phase p) (tetromino_isactive p) (in_clear_phase p) (game_over p)
    (clear_generator p) (soft_drop_isactive p) (alloc p).

Definition set_active (p : Playfield) (m : Matrix) (t : Tetromino) : Playfield :=
  mkPlayfield m (Some t) (model p) (gravity p) (lock_counter p)
    (in_lock_phase p) (tetromino_isactive p) (in_clear_phase p) (game_over p)
    (clear_generator p) (soft_drop_isactive p) (alloc p).

Definition set_model (p : Playfield) (mo : GameInterfaceModel) : Playfield :=
  mkPlayfield (matrix p) (active_tetromino p) mo (gravity p) (lock_counter p)
    (in_lock_phase p) (tetromino_isactive p) (in_clear_phase p) (game_over p)
    (clear_generator p) (soft_drop_isactive p) (alloc p).

Definition set_gravity (p : Playfield) (v : Z) (soft : bool) : Playfield :=
  mkPlayfield (matrix p) (active_tetromino p) (model p) v (lock_counter p)
    (in_lock_phase p) (tetromino_isactive p) (in_clear_phase p) (game_over p)
    (clear_generator p) soft (alloc p).

Definition set_lock_counter (p : Playfield) (v : Z) : Playfield :=
  mkPlayfield (matrix p) (active_tetromino p) (model p) (gravity p) v
    (in_lock_phase p) (tetromino_isactive p) (in_clear_phase p) (game_over p)
    (clear_generator p) (soft_drop_isactive p) (alloc p).

Definition set_in_lock_phase (p : Playfield) (v : bool) : Playfield :=
  mkPlayfield (matrix p) (active_tetromino p) (model p) (gravity p)
    (lock_counter p) v (tetromino_isactive p) (in_clear_phase p) (game_over p)
    (clear_generator p) (soft_drop_isactive p) (alloc p).

Definition set_grid (g : Game) (p : Playfield) : Game :=
  mkGame p (gravity_counter g) (entry_counter g) (end_generator g)
    (grid_visible g) (next_tetromino g) (show_next_piece g)
    (random_generator g) (pause_button g) (high_score g) (scores_file g).

Definition set_gravity_counter (g : Game) (v : Z) : Game :=
  mkGame (grid g) v (entry_counter g) (end_generator g)
    (grid_visible g) (next_tetromino g) (show_next_piece g)
    (random_generator g) (pause_button g) (high_score g) (scores_file g).

Definition set_entry_counter (g : Game) (v : Z) : Game :=
  mkGame (grid g) (gravity_counter g) v (end_generator g)
    (grid_visible g) (next_tetromino g) (show_next_piece g)
    (random_generator g) (pause_button g) (high_score g) (scores_file g).

Definition set_end_generator (g : Game) (gen : GameOverGenerator) : Game :=
  mkGame (grid g) (gravity_counter g) (entry_counter g) gen
    (grid_visible g) (next_tetromino g) (show_next_piece g)
    (random_generator g) (pause_button g) (high_score g) (scores_file g).

Definition set_pause_button (g : Game) (b : PauseButton) : Game :=
  mkGame (grid g) (gravity_counter g) (entry_counter g) (end_generator g)
    (grid_visible g) (next_tetromino g) (show_next_piece g)
    (random_generator g) b (high_score g) (scores_file g).

(** [grid.set_visible(v)] followed by [next_panel.set_visible(v)] *)
Definition set_visible (g : Game) (is_visible : bool) : Game :=
  mkGame (grid g) (gravity_counter g) (entry_counter g) (end_generator g)
    is_visible (next_tetromino g) is_visible
    (random_generator g) (pause_button g) (high_score g) (scores_file g).

(** [score_panel.add_points(1)] *)
Definition add_soft_drop_point (mo : GameInterfaceModel) : GameInterfaceModel :=
  mkModel (level mo) (lines_left mo) (lines mo) (score mo + 1).

(** [drop_phase]: the piece falls one row when the gravity counter has
    passed the gravity interval, and the lock phase is entered or left. *)
Definition drop_phase (g : Game) : result Game :=
  let p := grid g in
  t ← the_active_tetromino p;
  if gravity_counter g >? gravity p then
    ground ← is_on_ground (matrix p) t;
    if (ground : bool) then
      Ok (set_gravity_counter (set_grid g (set_in_lock_phase p true)) 0)
    else
      '(m', t') ← shift_down (matrix p) t;
      let p1 := set_lock_counter (set_active (set_in_lock_phase p false) m' t') 0 in
      let p2 := if soft_drop_isactive p1
                then set_model p1 (add_soft_drop_point (model p1)) else p1 in
      Ok (set_gravity_counter (set_grid g p2) 0)
  else
    ground ← is_on_ground (matrix p) t;
    if negb ground then
      Ok (set_gravity_counter (set_grid g (set_in_lock_phase p false))
            (gravity_counter g + 1))
    else if in_lock_phase p then Ok (set_gravity_counter g 0)
    else Ok (set_gravity_counter g (gravity_counter g + 1)).

Definition lock_phase (g : Game) : result Game :=
  let p := grid g in
  if in_lock_phase p then
    let p1 := set_lock_counter p (lock_counter p + 1) in
    if lock_counter p1 >? lock_delay then
      p2 ← lock_tetromino p1;
      Ok (set_grid g p2)
    else Ok (set_grid g p1)
  else Ok g.

(** [shift_tetromino_left], [shift_tetromino_right], [rotate_clockwise] and
    [rotate_anticlockwise] of the playfield: the move of the active piece,
    when there is an active piece. *)
Definition move_active (p : Playfield)
    (move : Matrix → Tetromino → result (Matrix * Tetromino)) : result Playfield :=
  if tetromino_isactive p then
    t ← the_active_tetromino p;
    '(m', t') ← move (matrix p) t;
    Ok (set_active p m' t')
  else Ok p.

Definition shift_tetromino_left (p : Playfield) : result Playfield :=
  move_active p shift_left.

Definition shift_tetromino_right (p : Playfield) : result Playfield :=
  move_active p shift_right.

Definition Playfield_rotate_clockwise (p : Playfield) : result Playfield :=
  move_active p rotate_clockwise.

Definition Playfield_rotate_anticlockwise (p : Playfield) : result Playfield :=
  move_active p rotate_anticlockwise.

Definition activate_soft_drop (p : Playfield) : result Playfield :=
  let p1 := set_gravity p SOFT_DROP_GRAVITY true in
  if in_lock_phase p1 then
    t ← the_active_tetromino p1;
    ground ← is_on_ground (matrix p1) t;
    if (ground : bool) then lock_tetromino p1 else Ok p1
  else Ok p1.

Definition deactivate_soft_drop (p : Playfield) : Playfield :=
  set_gravity p (calculate_gravity (model p)) false.

(** ** game_interface_model.py and the rest of playfield.py *)

(** A computation that draws from the bag randomizer can also run out of
    the fuel given to it. *)
Inductive fueled (A : Type) : Type :=
| Done (r : result A)
| OutOfFuel.
Arguments Done {A} r.
Arguments OutOfFuel {A}.

#[global] Instance fueled_ret : MRet fueled := fun A a => Done (Ok a).
#[global] Instance fueled_bind : MBind fueled := fun A B f c =>
  match c with
  | Done (Ok a) => f a
  | Done (Raise e) => Done (Raise e)
  | OutOfFuel => OutOfFuel
  end.

(** [Playfield(model)]: the constructor.  The panels it reads the level from
    are new; [a] is the allocation counter of block identities, which goes
    on counting. *)
Definition new_playfield (a : nat) : Playfield :=
  mkPlayfield empty_matrix None initial_model (calculate_gravity initial_model)
    0 false false false false None false a.

Section Frames.
Variable shuffle : nat → list Shape → list Shape.

(** [next(self.random_generator)]: the class that comes out of the bag is
    instantiated. *)
Definition generate_random_tetromino (g : Game) : fueled (Tetromino * Game) :=
  match random_generator_next shuffle 1 (random_generator g) with
  | Some (tetromino, rg) =>
      Done (Ok (new_tetromino tetromino,
                mkGame (grid g) (gravity_counter g) (entry_counter g)
                  (end_generator g) (grid_visible g) (next_tetromino g)
                  (show_next_piece g) rg (pause_button g) (high_score g)
                  (scores_file g)))
  | None => OutOfFuel
  end.

Definition set_next_tetromino (g : Game) : fueled Game :=
  '(next_piece, g1) ← generate_random_tetromino g;
  mret (mkGame (grid g1) (gravity_counter g1) (entry_counter g1)
          (end_generator g1) (grid_visible g1) (Some next_piece)
          (show_next_piece g1) (random_generator g1) (pause_button g1)
          (high_score g1) (scores_file g1)).

(** [set_active_tetromino]: [set_tetromino(None)] fails at its first method
    call on [None]. *)
Definition set_active_tetromino (g : Game) : fueled Game :=
  match next_tetromino g with
  | None => Done (Raise AttributeError)
  | Some next_piece =>
      p ← Done (set_tetromino (grid g) next_piece);
      set_next_tetromino (set_grid g p)
  end.

(** [reset]: new panels, a new playfield, a new pause button and a new
    generator; the score panel reads the high score from the data file.
    The shuffles of the new generator go on from those of the old one. *)
Definition reset (g : Game) : fueled Game :=
  hs ← Done (set_high_score (scores_file g));
  let g0 := mkGame (new_playfield (alloc (grid g))) 0 0 new_end_generator true
              None true (mkRandom [] (shuffles (random_generator g)))
              new_pause_button hs (scores_file g) in
  g1 ← set_next_tetromino g0;
  g2 ← set_active_tetromino g1;
  mret (set_visible g2 false).

(** [GameInterfaceModel.game_over] *)
Definition Model_game_over (g : Game) : fueled Game :=
  scores ← Done (update_scores (score (model (grid g))) (scores_file g));
  reset (mkGame (grid g) (gravity_counter g) (entry_counter g)
           (end_generator g) (grid_visible g) (next_tetromino g)
           (show_next_piece g) (random_generator g) (pause_button g)
           (high_score g) scores).

(** The row loop of [game_over_generator] entered with [row_index] the next
    value of [range(0, self.grid_height)].  When the range is exhausted the
    model is told; the playfield the generator belongs to is then no longer
    the playfield of the game. *)
Definition end_rows_from (g : Game) (gen : GameOverGenerator) (row_index : Z)
  : fueled Game :=
  if row_index <? grid_height then
    m ← Done (clear_row (matrix (grid g)) row_index);
    mret (set_end_generator (set_grid g (set_matrix (grid g) m))
            (mkEndGen (end_delay_counter gen) (EndAtRowYield row_index)))
  else Model_game_over g.

(** The test of [while delay_counter <= delay] and what follows. *)
Definition end_wait (g : Game) (gen : GameOverGenerator) : fueled Game :=
  if end_delay_counter gen <=? 60 then
    mret (set_end_generator g
            (mkEndGen (end_delay_counter gen + 1) EndAtDelayYield))
  else end_rows_from g gen 0.

(** The test of [while clear_frames > 0] and what follows. *)
Definition end_frames (g : Game) (gen : GameOverGenerator)
    (row_index clear_frames : Z) : fueled Game :=
  if clear_frames >? 0 then
    mret (set_end_generator g
            (mkEndGen (end_delay_counter gen)
               (EndAtFrameYield row_index (clear_frames - 1))))
  else end_rows_from g gen (row_index + 1).

(** [next(self.end_generator)] *)
Definition game_over_generator_next (g : Game) : fueled Game :=
  let gen := end_generator g in
  match end_point gen with
  | EndAtStart => end_wait g gen
  | EndAtDelayYield => end_wait g gen
  | EndAtRowYield row_index => end_frames g gen row_index 3
  | EndAtFrameYield row_index clear_frames =>
      end_frames g gen row_index clear_frames
  | EndAtEnd => mret g
  end.

Definition spawn_phase (g : Game) : fueled Game :=
  if entry_counter g >? entry_delay then
    g1 ← set_active_tetromino g;
    mret (set_entry_counter g1 0)
  else mret (set_entry_counter g (entry_counter g + 1)).

(** [Playfield.update] *)
Definition Playfield_update (g : Game) : fueled Game :=
  if game_over (grid g) then game_over_generator_next g
  else if in_clear_phase (grid g) then
    p ← Done (clear_generator_next (grid g));
    mret (set_grid g p)
  else if tetromino_isactive (grid g) then
    g1 ← Done (drop_phase g);
    Done (lock_phase g1)
  else spawn_phase g.

(** [PauseButton.update_status]; [hovering] is whether the mouse pointer is
    inside the rectangle of the button. *)
Definition update_status (b : PauseButton) (hovering : bool) : PauseButton :=
  if hovering then mkPauseButton true (clicked_down b) (is_paused b)
  else mkPauseButton false false (is_paused b).

(** [GameInterfaceModel.update] *)
Definition Model_update (g : Game) (hovering : bool) : fueled Game :=
  let g1 := set_pause_button g (update_status (pause_button g) hovering) in
  if is_paused (pause_button g1) then mret (set_visible g1 false)
  else Playfield_update (set_visible g1 true).

(** [GameInterfaceModel()]: the constructor; [scores] is the list stored in
    the data file. *)
Definition new_game (scores : list Z) : fueled Game :=
  hs ← Done (set_high_score scores);
  let g0 := mkGame (new_playfield 0) 0 0 new_end_generator true None true
              new_random_generator new_pause_button hs scores in
  g1 ← set_next_tetromino g0;
  set_active_tetromino g1.

End Frames.

(** The methods of the model that pass a key press on, unless the game is
    paused. *)
Definition unless_paused (g : Game) (f : Playfield → result Playfield)
  : result Game :=
  if is_paused (pause_button g) then Ok g
  else p ← f (grid g); Ok (set_grid g p).

Definition Model_shift_tetromino_left (g : Game) : result Game :=
  unless_paused g shift_tetromino_left.

Definition Model_shift_tetromino_right (g : Game) : result Game :=
  unless_paused g shift_tetromino_right.

Definition Model_activate_soft_drop (g : Game) : result Game :=
  unless_paused g activate_soft_drop.

Definition Model_deactivate_soft_drop (g : Game) : Game :=
  set_grid g (deactivate_soft_drop (grid g)).

Definition Model_rotate_clockwise (g : Game) : result Game :=
  unless_paused g Playfield_rotate_clockwise.

Definition Model_rotate_anticlockwise (g : Game) : result Game :=
  unless_paused g Playfield_rotate_anticlockwise.

Definition switch_pause (g : Game) : Game :=
  let b := pause_button g in
  set_pause_button g (mkPauseButton (is_hovered b) (clicked_down b)
                        (negb (is_paused b))).

Definition mouse_down (g : Game) : Game :=
  let b := pause_button g in
  if is_hovered b then
    set_pause_button g (mkPauseButton (is_hovered b) true (is_paused b))
  else g.

Definition mouse_up (g : Game) : Game :=
  let b := pause_button g in
  if is_hovered b && clicked_down b then
    let g1 := switch_pause g in
    let b1 := pause_button g1 in
    set_pause_button g1 (mkPauseButton (is_hovered b1) false (is_paused b1))
  else g.

(** ** game_controller.py *)

Definition AUTOREPEAT_FRAMES : Z := 15.

(** The keys and the events the controller looks at. *)
Inductive Key : Type :=
| K_LEFT | K_RIGHT | K_DOWN | K_x | K_z | K_ESCAPE | K_other.

Inductive Event : Type :=
| QUIT
| KEYDOWN (key : Key)
| KEYUP (key : Key)
| MOUSEBUTTONDOWN (button : Z)
| MOUSEBUTTONUP (button : Z)
| other_event.

Record GameController : Type := mkController {
  controller_model : Game;   (* self.model *)
  autorepeat_counter : Z;
  left_key_held : bool;
  right_key_held : bool;
  is_running : bool
}.

Definition set_controller_model (c : GameController) (g : Game) : GameController :=
  mkController g (autorepeat_counter c) (left_key_held c) (right_key_held c)
    (is_running c).

(** The body of the loop of [evaluate_input], for one event. *)
Definition evaluate_event (c : GameController) (event : Event)
  : result GameController :=
  match event with
  | QUIT =>
      Ok (mkController (controller_model c) (autorepeat_counter c)
            (left_key_held c) (right_key_held c) false)
  | KEYDOWN K_LEFT =>
      g ← Model_shift_tetromino_left (controller_model c);
      Ok (mkController g 0 true false (is_running c))
  | KEYDOWN K_RIGHT =>
      g ← Model_shift_tetromino_right (controller_model c);
      Ok (mkController g 0 false true (is_running c))
  | KEYDOWN K_DOWN =>
      g ← Model_activate_soft_drop (controller_model c);
      Ok (set_controller_model c g)
  | KEYDOWN K_x =>
      g ← Model_rotate_clockwise (controller_model c);
      Ok (set_controller_model c g)
  | KEYDOWN K_z =>
      g ← Model_rotate_anticlockwise (controller_model c);
      Ok (set_controller_model c g)
  | KEYDOWN K_ESCAPE =>
      Ok (set_controller_model c (switch_pause (controller_model c)))
  | KEYDOWN K_other => Ok c
  | KEYUP K_LEFT =>
      Ok (mkController (controller_model c) 0 false (right_key_held c)
            (is_running c))
  | KEYUP K_RIGHT =>
      Ok (mkController (controller_model c) 0 (left_key_held c) false
            (is_running c))
  | KEYUP K_DOWN =>
      Ok (set_controller_model c
            (Model_deactivate_soft_drop (controller_model c)))
  | KEYUP _ => Ok c
  | MOUSEBUTTONDOWN button =>
      if button =? 1
      then Ok (set_controller_model c (mouse_down (controller_model c)))
      else Ok c
  | MOUSEBUTTONUP button =>
      if button =? 1
      then Ok (set_controller_model c (mouse_up (controller_model c)))
      else Ok c
  | other_event => Ok c
  end.

Fixpoint evaluate_input (c : GameController) (input_events : list Event)
  : result GameController :=
  match input_events with
  | [] => Ok c
  | event :: rest => c' ← evaluate_event c event; evaluate_input c' rest
  end.

Definition autorepeat (c : GameController) : result GameController :=
  if is_paused (pause_button (controller_model c)) then
    Ok (mkController (controller_model c) 0 false false (is_running c))
  else
    let counter :=
      if left_key_held c || right_key_held c
      then autorepeat_counter c + 1 else autorepeat_counter c in
    if counter >? AUTOREPEAT_FRAMES then
      '(g1, counter1) ←
        (if left_key_held c then
           g ← Model_shift_tetromino_left (controller_model c);
           Ok (g, counter - 3)
         else Ok (controller_model c, counter));
      '(g2, counter2) ←
        (if right_key_held c then
           g ← Model_shift_tetromino_right g1;
           Ok (g, counter1 - 3)
         else Ok (g1, counter1));
      Ok (mkController g2 counter2 (left_key_held c) (right_key_held c)
            (is_running c))
    else
      Ok (mkController (controller_model c) counter (left_key_held c)
            (right_key_held c) (is_running c)).

(** What pygame reports during one pass of the main loop: whether the
    window has the keyboard focus, the events, and whether the mouse pointer
    is over the pause button. *)
Record FrameInput : Type := mkFrameInput {
  focused : bool;
  events : list Event;
  hovering : bool
}.

Section MainLoop.
Variable shuffle : nat → list Shape → list Shape.


(** One pass of the body of [while self.is_running]; drawing is left out. *)
Definition main_loop_body (c : GameController) (f : FrameInput)
  : fueled GameController :=
  let paused := is_paused (pause_button (controller_model c)) in
  let c1 :=
    if negb (focused f) then
      if negb paused
      then set_controller_model c (switch_pause (controller_model c))
      else c
    else c in
  c2 ← Done (evaluate_input c1 (events f));
  c3 ← Done (autorepeat c2);
  g ← Model_update shuffle (controller_model c3) (hovering f);
  mret (set_controller_model c3 g).


End MainLoop.

Section Runs.
Variable shuffle : nat → list Shape → list Shape.

(** [n] successive calls of [Playfield.update]. *)
Fixpoint Playfield_update_run (n : nat) (g : Game) : fueled Game :=
  match n with
  | O => mret g
  | S n' => g' ← Playfield_update shuffle g; Playfield_update_run n' g'
  end.

End Runs.

(** [n] successive calls of [autorepeat]. *)
Fixpoint autorepeat_run (n : nat) (c : GameController) : result GameController :=
  match n with
  | O => Ok c
  | S n' => c' ← autorepeat c; autorepeat_run n' c'
  end.

(** The events that, while the game is paused, neither end the pause nor
    reach the playfield: all but the escape key going down, the down key
    going up and the left mouse button going up. *)
Definition keeps_pause (event : Event) : bool :=
  match event with
  | KEYDOWN K_ESCAPE => false
  | KEYUP K_DOWN => false
  | MOUSEBUTTONUP button => negb (button =? 1)
  | _ => true
  end.

(** Two states of the game that differ at most in what is drawn and in the
    hover and click flags of the pause button. *)
Definition same_play (g g' : Game) : Prop :=
  grid g' = grid g
  ∧ gravity_counter g' = gravity_counter g
  ∧ entry_counter g' = entry_counter g
  ∧ end_generator g' = end_generator g
  ∧ next_tetromino g' = next_tetromino g
  ∧ random_generator g' = random_generator g
  ∧ high_score g' = high_score g
  ∧ scores_file g' = scores_file g
  ∧ is_paused (pause_button g') = is_paused (pause_button g).

(** Concrete games: the game at the start of its constructor when the data
    file holds the single score 100; with the next piece set, the shuffles
    leaving every bag as it is; as the constructor returns it; the latter
    [n] frames later with nothing pressed; with the down key pressed first;
    and a game in which both places of the entering piece are taken, one
    frame after the entry delay has run out. *)
Definition empty_game : Game :=
  mkGame (new_playfield 0) 0 0 new_end_generator true None true
    new_random_generator new_pause_button 100 [100].

Definition run_or (d : Game) (r : fueled Game) : Game :=
  match r with Done (Ok g) => g | _ => d end.

Definition waiting_game : Game :=
  run_or empty_game (set_next_tetromino identity_shuffle empty_game).

Definition first_game : Game :=
  run_or empty_game (new_game identity_shuffle [100]).

Definition soft_drop_game_after (n : nat) : Game :=
  run_or first_game
    (g ← Done (Model_activate_soft_drop (switch_pause first_game));
     Playfield_update_run identity_shuffle n g).

Definition over_game : Game :=
  run_or empty_game
    (Playfield_update identity_shuffle
       (set_entry_counter
          (set_grid waiting_game
             (set_matrix (new_playfield 2)
                (put_blocks empty_matrix [mkBlock 0 RED 4 1; mkBlock 1 RED 4 2])))
          26)).

Definition the_piece (g : Game) : Tetromino :=
  default wall_piece (active_tetromino (grid g)).

(** ** What every frame keeps *)

Definition rows_in_grid (rows : list Z) : bool :=
  forallb (fun r => (0 <=? r) && (r <? grid_height)) rows.

(** A line-clear generator whose rows are rows of the grid and whose column
    is a column of the grid. *)
Definition clear_generator_ok (gen : LineClearGenerator) : bool :=
  rows_in_grid (full_rows gen)
  && match point gen with
     | AtSweepYield x | AtFrameYield x => (0 <=? x) && (x <? grid_width)
     | _ => true
     end.

(** The playfield between two calls:
    - the matrix has its shape, and its blocks are older than the allocation
      counter;
    - while a tetromino is active, the game is neither over nor clearing
      lines, and the piece is on the grid;
    - the lock phase is a phase of an active tetromino;
    - while lines are being cleared there is a generator for it. *)
Definition playfield_ok (p : Playfield) : bool :=
  wf_matrix (matrix p)
  && ids_below (alloc p) (matrix p)
  && (if tetromino_isactive p
      then negb (in_clear_phase p) && negb (game_over p)
           && match active_tetromino p with
              | Some t => piece_on_grid (matrix p) t
              | None => false
              end
      else negb (in_lock_phase p))
  && (if in_clear_phase p
      then match clear_generator p with
           | Some gen => clear_generator_ok gen
           | None => false
           end
      else true).

Definition end_generator_ok (gen : GameOverGenerator) : bool :=
  match end_point gen with
  | EndAtRowYield r | EndAtFrameYield r _ => (0 <=? r) && (r <? grid_height)
  | _ => true
  end.

(** The game between two frames: the playfield is as above, the next panel
    holds a piece in its first state, and the data file holds at least one
    score. *)
Definition game_ok (g : Game) : bool :=
  playfield_ok (grid g)
  && end_generator_ok (end_generator g)
  && match next_tetromino g with
     | Some t => rotation_index t =? 0
     | None => false
     end
  && negb (Nat.eqb (length (scores_file g)) 0).

(** A move that, for a piece on the grid, returns with the piece on the grid
    again and with no new block on the grid. *)
Definition keeps_piece_on_grid
    (move : Matrix → Tetromino → result (Matrix * Tetromino)) : Prop :=
  ∀ (a : nat) (m : Matrix) (t : Tetromino),
    wf_matrix m = true → ids_below a m = true → piece_on_grid m t = true →
    ∃ m' t', move m t = Ok (m', t')
             ∧ wf_matrix m' = true ∧ ids_below a m' = true
             ∧ piece_on_grid m' t' = true.


(** The matrix after the game-over animation has emptied its first [k]
    rows. *)
Definition top_cleared (m : Matrix) (k : nat) : Matrix :=
  replicate k empty_row ++ drop k m.

(** The pause button over frames in which no mouse button changes:
    [update_status] once per frame, with the pointer over the button or
    not. *)
Definition hover_frames (g : Game) (hovering : list bool) : Game :=
  foldl (fun g' h => set_pause_button g' (update_status (pause_button g') h))
    g hovering.

(** * Theorems *)

Lemma py_range_nil a : py_range a a = [].
Proof. unfold py_range. by rewrite Z.sub_diag. Qed.

(** ** The [result] monad *)

Lemma bind_Ok {A B} (f : A → result B) (a : A) : (Ok a ≫= f) = f a.
Proof. reflexivity. Qed.

Lemma bind_Raise {A B} (f : A → result B) (e : PyError) : (Raise e ≫= f) = Raise e.
Proof. reflexivity. Qed.

(** ** Subscripts *)

Lemma py_index_nonneg (n : nat) (i : Z) :
  0 ≤ i < Z.of_nat n → py_index n i = Some (Z.to_nat i).
Proof. intros H. unfold py_index. by rewrite bool_decide_eq_true_2. Qed.

Lemma py_index_negative (n : nat) (i : Z) :
  - Z.of_nat n ≤ i < 0 → py_index n i = Some (Z.to_nat (Z.of_nat n + i)).
Proof.
  intros H. unfold py_index.
  rewrite bool_decide_eq_false_2 by lia. by rewrite bool_decide_eq_true_2.
Qed.

Lemma py_index_outside (n : nat) (i : Z) :
  Z.of_nat n ≤ i ∨ i < - Z.of_nat n → py_index n i = None.
Proof.
  intros H. unfold py_index.
  rewrite bool_decide_eq_false_2 by lia. by rewrite bool_decide_eq_false_2 by lia.
Qed.

Lemma py_index_lt (n : nat) (i : Z) (k : nat) :
  py_index n i = Some k → (k < n)%nat.
Proof.
  unfold py_index. repeat case_bool_decide; intros; simplify_eq; lia.
Qed.

Lemma getitem_nonneg {A} (l : list A) (i : Z) :
  0 ≤ i < Z.of_nat (length l) →
  ∃ a, l !! Z.to_nat i = Some a ∧ getitem l i = Ok a.
Proof.
  intros H. unfold getitem. rewrite py_index_nonneg by done.
  destruct (lookup_lt_is_Some_2 l (Z.to_nat i)) as [a Ha]; [lia|].
  exists a. by rewrite Ha.
Qed.

Lemma getitem_lookup {A} (l : list A) (i : Z) (a : A) :
  0 ≤ i → l !! Z.to_nat i = Some a → getitem l i = Ok a.
Proof.
  intros Hi Ha. unfold getitem.
  apply lookup_lt_Some in Ha as Hlt.
  rewrite py_index_nonneg by lia. by rewrite Ha.
Qed.

Lemma getitem_outside {A} (l : list A) (i : Z) :
  Z.of_nat (length l) ≤ i ∨ i < - Z.of_nat (length l) →
  getitem l i = Raise IndexError.
Proof. intros H. unfold getitem. by rewrite py_index_outside. Qed.

Lemma getitem_negative {A} (l : list A) (i : Z) :
  - Z.of_nat (length l) ≤ i < 0 →
  getitem l i = getitem l (Z.of_nat (length l) + i).
Proof.
  intros H. unfold getitem.
  rewrite py_index_negative by done. rewrite py_index_nonneg by lia. done.
Qed.

Lemma setitem_nonneg {A} (l : list A) (i : Z) (v : A) :
  0 ≤ i < Z.of_nat (length l) → setitem l i v = Ok (<[Z.to_nat i := v]> l).
Proof. intros H. unfold setitem. by rewrite py_index_nonneg. Qed.

Lemma py_range_cons (a b : Z) : a < b → py_range a b = a :: py_range (a + 1) b.
Proof.
  intros H. unfold py_range.
  replace (Z.to_nat (b - a)) with (S (Z.to_nat (b - (a + 1)))) by lia.
  cbn [seq fmap list_fmap]. f_equal; [lia|].
  rewrite <- seq_shift, <- list_fmap_compose.
  apply list_fmap_ext. intros _ i _. simpl. lia.
Qed.

Lemma py_range_empty (a b : Z) : b ≤ a → py_range a b = [].
Proof. intros H. unfold py_range. by replace (Z.to_nat (b - a)) with O by lia. Qed.

Lemma elem_of_py_range (a b i : Z) : i ∈ py_range a b ↔ a ≤ i < b.
Proof.
  unfold py_range. rewrite list_elem_of_fmap. split.
  - intros (k & -> & Hk). apply elem_of_seq in Hk. lia.
  - intros H. exists (Z.to_nat (i - a)). split; [lia|].
    apply elem_of_seq. lia.
Qed.


(** ** The matrix *)

Lemma wf_matrix_length (m : Matrix) :
  wf_matrix m = true → length m = Z.to_nat grid_height.
Proof.
  unfold wf_matrix. intros [H _]%andb_prop. by apply bool_decide_eq_true_1 in H.
Qed.

Lemma wf_matrix_row (m : Matrix) (k : nat) (row : Row) :
  wf_matrix m = true → m !! k = Some row → length row = Z.to_nat grid_width.
Proof.
  unfold wf_matrix. intros [_ H]%andb_prop Hk.
  rewrite forallb_forall in H.
  specialize (H row). rewrite bool_decide_eq_true in H. apply H.
  apply list_elem_of_In. by eapply list_elem_of_lookup_2.
Qed.

Lemma wf_matrix_intro (m : Matrix) :
  length m = Z.to_nat grid_height →
  (∀ k row, m !! k = Some row → length row = Z.to_nat grid_width) →
  wf_matrix m = true.
Proof.
  intros Hl Hr. unfold wf_matrix. apply andb_true_intro. split.
  - by apply bool_decide_eq_true_2.
  - apply forallb_forall. intros row Hin.
    apply list_elem_of_In, list_elem_of_lookup in Hin as [k Hk].
    apply bool_decide_eq_true_2. eauto.
Qed.

Lemma getitem_Ok_lookup {A} (l : list A) (i : Z) (a : A) :
  getitem l i = Ok a → ∃ k, l !! k = Some a.
Proof.
  unfold getitem. destruct (py_index (length l) i) as [k|]; [|done].
  destruct (l !! k) eqn:E; [|done]. intros [= ->]. eauto.
Qed.

Lemma getitem_wf_row (m : Matrix) (y : Z) (row : Row) :
  wf_matrix m = true → getitem m y = Ok row → length row = Z.to_nat grid_width.
Proof.
  intros Hwf H. apply getitem_Ok_lookup in H as [k Hk]. by eapply wf_matrix_row.
Qed.

Lemma matrix_get_outside (m : Matrix) (x y : Z) :
  wf_matrix m = true →
  grid_width ≤ x ∨ x < - grid_width ∨ grid_height ≤ y ∨ y < - grid_height →
  matrix_get m x y = Raise IndexError.
Proof.
  intros Hwf H. unfold matrix_get.
  destruct (getitem m y) as [row|e] eqn:Ey.
  - rewrite bind_Ok.
    pose proof (getitem_wf_row _ _ _ Hwf Ey) as Hrow.
    destruct (decide (grid_width ≤ x ∨ x < - grid_width)) as [Hx|Hx].
    + apply getitem_outside. rewrite Hrow. unfold grid_width in *. lia.
    + pose proof (wf_matrix_length _ Hwf) as Hlen.
      rewrite getitem_outside in Ey; [done|].
      rewrite Hlen. unfold grid_width, grid_height in *. lia.
  - rewrite bind_Raise. f_equal.
    unfold getitem in Ey.
    destruct (py_index (length m) y); [destruct (m !! n)|]; congruence.
Qed.

Lemma matrix_get_wrap_x (m : Matrix) (x y : Z) :
  wf_matrix m = true → - grid_width ≤ x < 0 →
  matrix_get m x y = matrix_get m (x + grid_width) y.
Proof.
  intros Hwf Hx. unfold matrix_get.
  destruct (getitem m y) as [row|e] eqn:Ey; [|done].
  rewrite !bind_Ok.
  pose proof (getitem_wf_row _ _ _ Hwf Ey) as Hrow.
  rewrite getitem_negative by (rewrite Hrow; unfold grid_width in *; lia).
  f_equal. rewrite Hrow. unfold grid_width. lia.
Qed.

Lemma matrix_get_wrap_y (m : Matrix) (x y : Z) :
  wf_matrix m = true → - grid_height ≤ y < 0 →
  matrix_get m x y = matrix_get m x (y + grid_height).
Proof.
  intros Hwf Hy. unfold matrix_get.
  pose proof (wf_matrix_length _ Hwf) as Hlen.
  rewrite getitem_negative by (rewrite Hlen; unfold grid_height in *; lia).
  do 2 f_equal. rewrite Hlen. unfold grid_height. lia.
Qed.

(** ** C9: reads outside the grid *)

(** C9, as stated, fails: the cell (-1, -1) lies outside
    [0, width) x [0, height), yet both readers return normally there, with
    the content of the bottom-right cell. *)
Lemma C9_negative_index_counterexample :
  ¬ (∀ (m : Matrix) (x y : Z),
        wf_matrix m = true →
        ¬ (0 ≤ x < grid_width ∧ 0 ≤ y < grid_height) →
        (∃ e, check_cell_empty m x y = Raise e) ∧ (∃ e, get_block m x y = Raise e)).
Proof.
  intros H.
  destruct (H corner_matrix (-1) (-1)) as [[e He] _].
  - reflexivity.
  - lia.
  - vm_compute in He. discriminate.
Qed.

(** C9, amended: on a well-formed matrix, a read at a coordinate beyond the
    far edge (x >= width or y >= height) or below minus the dimension raises
    [IndexError]; a read at a negative coordinate within minus the dimension
    returns exactly what the read at that coordinate plus the dimension
    returns (Python's negative subscripts), so it does not fail by itself. *)
Theorem C9_reads_outside_the_grid (m : Matrix) (x y : Z) :
  wf_matrix m = true →
  (grid_width ≤ x ∨ x < - grid_width ∨ grid_height ≤ y ∨ y < - grid_height →
     check_cell_empty m x y = Raise IndexError
     ∧ get_block m x y = Raise IndexError)
  ∧ (- grid_width ≤ x < 0 →
     check_cell_empty m x y = check_cell_empty m (x + grid_width) y
     ∧ get_block m x y = get_block m (x + grid_width) y)
  ∧ (- grid_height ≤ y < 0 →
     check_cell_empty m x y = check_cell_empty m x (y + grid_height)
     ∧ get_block m x y = get_block m x (y + grid_height)).
Proof.
  intros Hwf. unfold check_cell_empty, get_block. repeat split.
  - by rewrite matrix_get_outside.
  - by rewrite matrix_get_outside.
  - by rewrite matrix_get_wrap_x.
  - by rewrite matrix_get_wrap_x.
  - by rewrite matrix_get_wrap_y.
  - by rewrite matrix_get_wrap_y.
Qed.

Lemma C9_reads_outside_the_grid_witness :
  (check_cell_empty corner_matrix 10 0 = Raise IndexError
   ∧ get_block corner_matrix 10 0 = Raise IndexError)
  ∧ (check_cell_empty corner_matrix (-1) 21 = check_cell_empty corner_matrix 9 21
     ∧ get_block corner_matrix (-1) 21 = get_block corner_matrix 9 21).
Proof.
  split.
  - apply (proj1 (C9_reads_outside_the_grid corner_matrix 10 0 eq_refl)).
    unfold grid_width, grid_height. lia.
  - apply (proj1 (proj2 (C9_reads_outside_the_grid corner_matrix (-1) 21 eq_refl))).
    unfold grid_width. lia.
Defined.

(** ** C10: the top block row *)

(** C10 at the failing input: a block in the bottom row only.  The grid is
    not empty and its bottom row is not empty, yet [get_top_block_row]
    answers -1; [shift_rows_down] then starts from row -1, which Python
    reads as the bottom row, and carries that row to the top of the grid. *)
Theorem C10_bottom_row_not_visited :
  check_grid_empty corner_matrix = Ok false
  ∧ check_row_empty corner_matrix (grid_height - 1) = Ok false
  ∧ get_top_block_row corner_matrix = Ok (-1)
  ∧ shift_rows_down corner_matrix [20]
    = Ok (<[0%nat := <[9%nat := Some corner_block]> empty_row]> empty_matrix).
Proof. repeat split; vm_compute; reflexivity. Qed.

(** ** C8: the gravity interval *)








(** ** C7: the bag randomizer *)

Section Randomizer.
Variable shuffle : nat → list Shape → list Shape.
Hypothesis shuffle_perm : ∀ k l, shuffle k l ≡ₚ l.

Lemma shuffle_length (k : nat) : length (shuffle k get_tetromino_set) = 7%nat.
Proof. by rewrite shuffle_perm. Qed.

(** The values still in the bag come out first. *)
Lemma take_bag (rest : list Shape) (j n : nat) :
  random_generator_take shuffle 1 (length rest + n) (mkRandom rest j)
  = (rest ++.) <$> random_generator_take shuffle 1 n (mkRandom [] j).
Proof.
  induction rest as [|s rest IH]; simpl.
  - destruct (random_generator_take _ _ _ _); reflexivity.
  - rewrite IH.
    destruct (random_generator_take shuffle 1 n (mkRandom [] j)); reflexivity.
Qed.

(** An exhausted bag is refilled by the next shuffle. *)
Lemma take_refill (j n : nat) :
  random_generator_take shuffle 1 n (mkRandom [] j)
  = random_generator_take shuffle 1 n
      (mkRandom (shuffle j get_tetromino_set) (S j)).
Proof.
  destruct n as [|n]; [done|]. simpl.
  pose proof (shuffle_length j) as Hlen.
  destruct (shuffle j get_tetromino_set) as [|s rest]; [done|]. done.
Qed.

Lemma take_one_bag (j n : nat) :
  random_generator_take shuffle 1 (7 + n) (mkRandom [] j)
  = (shuffle j get_tetromino_set ++.)
      <$> random_generator_take shuffle 1 n (mkRandom [] (S j)).
Proof.
  rewrite take_refill. rewrite <- (shuffle_length j). apply take_bag.
Qed.

Lemma bags_length (j k : nat) : length (bags shuffle j k) = (7 * k)%nat.
Proof.
  unfold bags. revert j. induction k as [|k IH]; intros j; [done|].
  cbn [seq fmap list_fmap concat]. rewrite length_app, shuffle_length.
  unfold fmap in IH. rewrite IH. lia.
Qed.

Lemma take_bags (k j n : nat) :
  random_generator_take shuffle 1 (7 * k + n) (mkRandom [] j)
  = (bags shuffle j k ++.) <$> random_generator_take shuffle 1 n (mkRandom [] (j + k)).
Proof.
  revert j. induction k as [|k IH]; intros j.
  - replace (j + 0)%nat with j by lia. simpl.
    destruct (random_generator_take _ _ _ _); reflexivity.
  - replace (7 * S k + n)%nat with (7 + (7 * k + n))%nat by lia.
    rewrite take_one_bag, IH.
    replace (S j + k)%nat with (j + S k)%nat by lia.
    destruct (random_generator_take _ _ _ _); [|reflexivity].
    simpl. f_equal. unfold bags. cbn [seq fmap list_fmap concat].
    by rewrite app_assoc.
Qed.

Lemma aligned_window (k : nat) :
  output_window shuffle (7 * k) 7 = Some (shuffle k get_tetromino_set).
Proof.
  unfold output_window, new_random_generator.
  rewrite take_bags. simpl (0 + k)%nat.
  pose proof (take_one_bag k 0) as H1. change (7 + 0)%nat with 7%nat in H1.
  rewrite H1. cbn [random_generator_take fmap option_fmap option_map].
  rewrite app_nil_r.
  rewrite <- (bags_length 0 k), drop_app_length. done.
Qed.

Lemma count_shape_perm (s : Shape) (l l' : list Shape) :
  l ≡ₚ l' → count_shape s l = count_shape s l'.
Proof. intros H. unfold count_shape. by rewrite H. Qed.

(** C7, amended: whatever the shuffles, the window of seven outputs that
    starts at a multiple of seven is one shuffled bag, and contains each of
    the seven shapes exactly once. *)
Theorem C7_aligned_window_has_each_shape_once (k : nat) (s : Shape) :
  ∃ w, output_window shuffle (7 * k) 7 = Some w
       ∧ w = shuffle k get_tetromino_set
       ∧ count_shape s w = 1%nat.
Proof.
  exists (shuffle k get_tetromino_set).
  split; [apply aligned_window|]. split; [done|].
  rewrite (count_shape_perm s _ get_tetromino_set) by apply shuffle_perm.
  by destruct s.
Qed.
End Randomizer.

Lemma reversing_shuffle_perm (k : nat) (l : list Shape) : reversing_shuffle k l ≡ₚ l.
Proof.
  unfold reversing_shuffle. destruct (Nat.eqb k 0); [done|].
  apply reverse_Permutation.
Qed.

(** C7, as stated, fails: with a shuffle that reverses the second bag, the
    window of seven outputs starting at position 1 holds [ShapeZ] twice and
    [ShapeI] not at all. *)
Lemma C7_unaligned_window_counterexample :
  ¬ (∀ shuffle : nat → list Shape → list Shape,
        (∀ k l, shuffle k l ≡ₚ l) →
        ∀ (start : nat) (s : Shape),
          ∃ w, output_window shuffle start 7 = Some w ∧ count_shape s w = 1%nat).
Proof.
  intros H.
  destruct (H reversing_shuffle reversing_shuffle_perm 1%nat ShapeZ) as (w & Hw & Hc).
  vm_compute in Hw. injection Hw as <-. vm_compute in Hc. discriminate.
Qed.

Lemma C7_aligned_window_has_each_shape_once_witness :
  ∃ w, output_window identity_shuffle (7 * 2) 7 = Some w
       ∧ w = identity_shuffle 2 get_tetromino_set
       ∧ count_shape ShapeT w = 1%nat.
Proof.
  apply (C7_aligned_window_has_each_shape_once identity_shuffle).
  intros k l. reflexivity.
Defined.

(** ** Reads and writes inside the grid *)

Lemma is_in_bounds_true (x y : Z) :
  is_in_bounds x y = true ↔ 0 ≤ x < grid_width ∧ 0 ≤ y < grid_height.
Proof.
  unfold is_in_bounds, grid_width, grid_height.
  destruct (x <? 0) eqn:E1, (x >? 10 - 1) eqn:E2, (y <? 0) eqn:E3,
    (y >? 22 - 1) eqn:E4; simpl; split; intros H; try done; lia.
Qed.

Lemma is_in_bounds_false (x y : Z) :
  is_in_bounds x y = false ↔ x < 0 ∨ grid_width ≤ x ∨ y < 0 ∨ grid_height ≤ y.
Proof.
  destruct (is_in_bounds x y) eqn:E.
  - apply is_in_bounds_true in E. split; [done|lia].
  - split; [|done]. intros _.
    destruct (decide (0 ≤ x < grid_width ∧ 0 ≤ y < grid_height)) as [H|H].
    + apply is_in_bounds_true in H. congruence.
    + lia.
Qed.

Lemma wf_row_lookup (m : Matrix) (y : Z) :
  wf_matrix m = true → 0 ≤ y < grid_height →
  ∃ row, m !! Z.to_nat y = Some row ∧ length row = Z.to_nat grid_width.
Proof.
  intros Hwf Hy. pose proof (wf_matrix_length _ Hwf) as Hlen.
  destruct (lookup_lt_is_Some_2 m (Z.to_nat y)) as [row Hrow]; [lia|].
  exists row. split; [done|]. by eapply wf_matrix_row.
Qed.

Lemma getitem_row (m : Matrix) (y : Z) :
  wf_matrix m = true → 0 ≤ y < grid_height →
  ∃ row, m !! Z.to_nat y = Some row ∧ length row = Z.to_nat grid_width
         ∧ getitem m y = Ok row.
Proof.
  intros Hwf Hy. destruct (wf_row_lookup m y Hwf Hy) as (row & Hrow & Hlen).
  exists row. repeat split; [done..|]. apply getitem_lookup; [lia|done].
Qed.

Lemma matrix_get_in (m : Matrix) (x y : Z) :
  wf_matrix m = true → 0 ≤ x < grid_width → 0 ≤ y < grid_height →
  matrix_get m x y = Ok (cell_at m x y).
Proof.
  intros Hwf Hx Hy. unfold matrix_get, cell_at.
  destruct (getitem_row m y Hwf Hy) as (row & Hrow & Hlen & ->).
  rewrite bind_Ok, Hrow.
  destruct (getitem_nonneg row x) as (c & Hc & ->); [lia|]. by rewrite Hc.
Qed.

Lemma matrix_set_in (m : Matrix) (x y : Z) (v : Cell) :
  wf_matrix m = true → 0 ≤ x < grid_width → 0 ≤ y < grid_height →
  matrix_set m x y v = Ok (matrix_put m x y v).
Proof.
  intros Hwf Hx Hy. unfold matrix_set, matrix_put.
  destruct (getitem_row m y Hwf Hy) as (row & Hrow & Hlen & ->).
  rewrite bind_Ok, Hrow, setitem_nonneg by lia. rewrite bind_Ok.
  apply setitem_nonneg. rewrite (wf_matrix_length _ Hwf). lia.
Qed.

Lemma wf_matrix_insert_row (m : Matrix) (k : nat) (row : Row) :
  wf_matrix m = true → length row = Z.to_nat grid_width →
  wf_matrix (<[k := row]> m) = true.
Proof.
  intros Hwf Hrow. apply wf_matrix_intro.
  - rewrite length_insert. by apply wf_matrix_length.
  - intros j r Hj. destruct (decide (k = j)) as [->|Hne].
    + destruct (decide (j < length m)%nat).
      * rewrite list_lookup_insert_eq in Hj by done. by simplify_eq.
      * rewrite list_insert_ge in Hj by lia. by eapply wf_matrix_row.
    + rewrite list_lookup_insert_ne in Hj by done. by eapply wf_matrix_row.
Qed.

Lemma wf_matrix_put (m : Matrix) (x y : Z) (v : Cell) :
  wf_matrix m = true → wf_matrix (matrix_put m x y v) = true.
Proof.
  intros Hwf. unfold matrix_put.
  destruct (m !! Z.to_nat y) as [row|] eqn:Hrow; [|done].
  apply wf_matrix_insert_row; [done|].
  rewrite length_insert. by eapply wf_matrix_row.
Qed.

Lemma cell_at_put_eq (m : Matrix) (x y : Z) (v : Cell) :
  wf_matrix m = true → 0 ≤ x < grid_width → 0 ≤ y < grid_height →
  cell_at (matrix_put m x y v) x y = v.
Proof.
  intros Hwf Hx Hy. unfold cell_at, matrix_put.
  destruct (wf_row_lookup m y Hwf Hy) as (row & Hrow & Hlen).
  rewrite Hrow. rewrite list_lookup_insert_eq by (by eapply lookup_lt_Some).
  rewrite list_lookup_insert_eq by lia. done.
Qed.

Lemma cell_at_put_ne (m : Matrix) (x y x' y' : Z) (v : Cell) :
  0 ≤ x → 0 ≤ y → 0 ≤ x' → 0 ≤ y' → (x, y) ≠ (x', y') →
  cell_at (matrix_put m x y v) x' y' = cell_at m x' y'.
Proof.
  intros Hx Hy Hx' Hy' Hne. unfold cell_at, matrix_put.
  destruct (m !! Z.to_nat y) as [row|] eqn:Hrow; [|done].
  destruct (decide (y = y')) as [->|Hy''].
  - rewrite list_lookup_insert_eq by (by eapply lookup_lt_Some). rewrite Hrow.
    rewrite list_lookup_insert_ne; [done|].
    intros Heq. apply Hne. f_equal. lia.
  - rewrite list_lookup_insert_ne by lia. done.
Qed.

Lemma cell_at_put (m : Matrix) (x y x' y' : Z) (v : Cell) :
  wf_matrix m = true →
  0 ≤ x < grid_width → 0 ≤ y < grid_height → 0 ≤ x' → 0 ≤ y' →
  cell_at (matrix_put m x y v) x' y'
  = if decide ((x, y) = (x', y')) then v else cell_at m x' y'.
Proof.
  intros Hwf Hx Hy Hx' Hy'. case_decide as H.
  - injection H as <- <-. by apply cell_at_put_eq.
  - apply cell_at_put_ne; lia || done.
Qed.

(** ** C3: collision of the active piece *)

Lemma blocked_in (m : Matrix) (units : list Block) (x y : Z) :
  wf_matrix m = true → is_in_bounds x y = true →
  blocked m units x y
  = match cell_at m x y with
    | Some b' => negb (block_in b' units)
    | None => false
    end.
Proof.
  intros Hwf Hin. unfold blocked. rewrite Hin. simpl.
  apply is_in_bounds_true in Hin as [Hx Hy]. by rewrite matrix_get_in.
Qed.

(** [would_collide] never raises on a well-formed matrix: it returns whether
    some block, moved by the offset, is blocked. *)
Lemma would_collide_loop_spec (m : Matrix) (units rest : list Block) (dx dy : Z) :
  wf_matrix m = true →
  would_collide_loop m units rest dx dy
  = Ok (existsb (fun b => blocked m units (bx b + dx) (by_ b + dy)) rest).
Proof.
  intros Hwf. induction rest as [|b rest IH]; [done|].
  cbn [would_collide_loop existsb].
  destruct (is_in_bounds (bx b + dx) (by_ b + dy)) eqn:Hin.
  - rewrite blocked_in by done.
    apply is_in_bounds_true in Hin as [Hx Hy].
    unfold check_cell_empty, get_block. rewrite matrix_get_in by done.
    rewrite !bind_Ok.
    destruct (cell_at m (bx b + dx) (by_ b + dy)) as [b'|]; simpl; [|done].
    destruct (block_in b' units); simpl; done.
  - unfold blocked. rewrite Hin. done.
Qed.

Lemma would_collide_spec (m : Matrix) (t : Tetromino) (dx dy : Z) :
  wf_matrix m = true →
  would_collide m t dx dy
  = Ok (existsb (fun b => blocked m (square_units t) (bx b + dx) (by_ b + dy))
                (square_units t)).
Proof. apply would_collide_loop_spec. Qed.

Lemma blocked_intro (m : Matrix) (units : list Block) (x y : Z) :
  wf_matrix m = true →
  x < 0 ∨ grid_width ≤ x ∨ y < 0 ∨ grid_height ≤ y
  ∨ (∃ b', matrix_get m x y = Ok (Some b') ∧ block_in b' units = false) →
  blocked m units x y = true.
Proof.
  intros Hwf H. unfold blocked.
  destruct (is_in_bounds x y) eqn:Hin; [|done]. simpl.
  apply is_in_bounds_true in Hin.
  destruct H as [H|[H|[H|[H|(b' & Hget & Hb')]]]]; try lia.
  by rewrite Hget, Hb'.
Qed.

(** C3: on a well-formed matrix, [would_collide(dx, dy)] returns true
    whenever some block of the piece, offset by (dx, dy), has x < 0,
    x >= width, y < 0 or y >= height, or lands on a cell holding a block
    that is not one of the piece's. *)
Theorem C3_would_collide_detects (m : Matrix) (t : Tetromino) (dx dy : Z)
    (block : Block) :
  wf_matrix m = true →
  block ∈ square_units t →
  bx block + dx < 0 ∨ grid_width ≤ bx block + dx
  ∨ by_ block + dy < 0 ∨ grid_height ≤ by_ block + dy
  ∨ (∃ b', matrix_get m (bx block + dx) (by_ block + dy) = Ok (Some b')
           ∧ block_in b' (square_units t) = false) →
  would_collide m t dx dy = Ok true.
Proof.
  intros Hwf Hb H. rewrite would_collide_spec by done. f_equal.
  apply existsb_exists. exists block. split.
  - by apply list_elem_of_In.
  - by apply blocked_intro.
Qed.

Lemma C3_would_collide_detects_witness :
  would_collide wall_matrix wall_piece (-1) 0 = Ok true
  ∧ would_collide wall_matrix wall_piece 1 0 = Ok true.
Proof.
  split.
  - apply (C3_would_collide_detects wall_matrix wall_piece (-1) 0
             (mkBlock 1 CYAN 0 4)).
    + reflexivity.
    + apply list_elem_of_In. simpl. tauto.
    + left. simpl. lia.
  - apply (C3_would_collide_detects wall_matrix wall_piece 1 0
             (mkBlock 2 CYAN 0 5)).
    + reflexivity.
    + apply list_elem_of_In. simpl. tauto.
    + do 4 right. exists (mkBlock 9 RED 1 5). split; reflexivity.
Defined.

(** ** C2: rejected moves *)

Lemma can_rotate_loop_spec (m : Matrix) (t : Tetromino) (vectors : list (Z * Z)) :
  wf_matrix m = true →
  can_rotate_loop m t vectors
  = Ok (negb (existsb (fun v => blocked m (square_units t)
                                  (x_coord t + v.1) (y_coord t + v.2))
                      vectors)).
Proof.
  intros Hwf. induction vectors as [|v rest IH]; [done|].
  cbn [can_rotate_loop existsb].
  destruct (is_in_bounds (x_coord t + v.1) (y_coord t + v.2)) eqn:Hin.
  - rewrite blocked_in by done.
    apply is_in_bounds_true in Hin as [Hx Hy].
    unfold check_cell_empty, get_block. rewrite matrix_get_in by done.
    rewrite !bind_Ok.
    destruct (cell_at m (x_coord t + v.1) (y_coord t + v.2)) as [b'|]; simpl; [|done].
    destruct (block_in b' (square_units t)); simpl; done.
  - unfold blocked. rewrite Hin. done.
Qed.

Lemma wrap_index_mod (index n dr : Z) :
  0 ≤ index < n → dr = 1 ∨ dr = -1 →
  wrap_index (index + dr) n = (index + dr) `mod` n.
Proof.
  intros Hi Hdr. unfold wrap_index.
  destruct (index + dr =? n) eqn:E1.
  - apply Z.eqb_eq in E1. rewrite E1. by rewrite Z.mod_same by lia.
  - destruct (index + dr =? -1) eqn:E2.
    + apply Z.eqb_eq in E2. rewrite E2.
      replace (-1) with (n - 1 + (-1) * n) by lia.
      rewrite Z.mod_add by lia. rewrite Z.mod_small; lia.
    + apply Z.eqb_neq in E1, E2. rewrite Z.mod_small; lia.
Qed.

Lemma can_rotate_candidate (m : Matrix) (t : Tetromino) (dr : Z)
    (vectors : list (Z * Z)) :
  wf_matrix m = true →
  dr = 1 ∨ dr = -1 →
  0 ≤ rotation_index t < Z.of_nat (length (block_positions (shape t))) →
  block_positions (shape t)
    !! Z.to_nat ((rotation_index t + dr)
                 `mod` Z.of_nat (length (block_positions (shape t))))
  = Some vectors →
  can_rotate m t dr
  = Ok (negb (existsb (fun v => blocked m (square_units t)
                                  (x_coord t + v.1) (y_coord t + v.2))
                      vectors)).
Proof.
  intros Hwf Hdr Hri Hv. unfold can_rotate.
  rewrite wrap_index_mod by done.
  rewrite (getitem_lookup _ _ vectors); [|apply Z.mod_pos_bound; lia|done].
  rewrite bind_Ok. by apply can_rotate_loop_spec.
Qed.



(** ** C5: lock-out *)

Lemma elem_of_get_rows_loop (units : list Block) (acc : list Z) (y : Z) :
  y ∈ fold_left (fun rows block =>
                   if existsb (Z.eqb (by_ block)) rows then rows
                   else rows ++ [by_ block]) units acc
  ↔ y ∈ acc ∨ ∃ b, b ∈ units ∧ by_ b = y.
Proof.
  revert acc. induction units as [|b units IH]; intros acc; simpl.
  - split; [by left|]. intros [H|(b & Hb & _)]; [done|]. by apply elem_of_nil in Hb.
  - rewrite IH. split.
    + intros [H|(b' & Hb' & Hy)].
      * destruct (existsb (Z.eqb (by_ b)) acc) eqn:E; [by left|].
        apply elem_of_app in H as [H|H]; [by left|].
        apply list_elem_of_singleton in H. right. exists b.
        split; [apply elem_of_cons; by left | done].
      * right. exists b'. split; [apply elem_of_cons; by right | done].
    + intros [H|(b' & Hb' & Hy)].
      * left. destruct (existsb (Z.eqb (by_ b)) acc); [done|].
        apply elem_of_app. by left.
      * apply elem_of_cons in Hb' as [->|Hb'].
        -- left. destruct (existsb (Z.eqb (by_ b)) acc) eqn:E.
           ++ apply existsb_exists in E as (y' & Hin & Heq).
              apply Z.eqb_eq in Heq. subst. by apply list_elem_of_In.
           ++ apply elem_of_app. right. apply list_elem_of_singleton. done.
        -- right. eauto.
Qed.

(** The rows [get_rows] returns are exactly the rows of the blocks. *)
Lemma elem_of_get_rows (t : Tetromino) (y : Z) :
  y ∈ get_rows t ↔ ∃ b, b ∈ square_units t ∧ by_ b = y.
Proof.
  unfold get_rows. rewrite merge_sort_Permutation.
  unfold get_rows_loop. rewrite elem_of_get_rows_loop.
  split; [|by right]. intros [H|H]; [|done]. by apply elem_of_nil in H.
Qed.

Lemma check_lock_out_loop_true (rows : list Z) :
  check_lock_out_loop rows = true ↔ ∀ row, row ∈ rows → row < hidden_rows.
Proof.
  induction rows as [|row rows IH]; simpl.
  - split; [|done]. intros _ row H. by apply elem_of_nil in H.
  - destruct (row >? hidden_rows - 1) eqn:E.
    + split; [done|]. intros H. specialize (H row). 
      assert (row < hidden_rows) by (apply H, elem_of_cons; by left). lia.
    + rewrite IH. split.
      * intros H r Hr. apply elem_of_cons in Hr as [->|Hr]; [lia|by apply H].
      * intros H r Hr. apply H, elem_of_cons. by right.
Qed.

Lemma check_row_full_in (m : Matrix) (y : Z) :
  wf_matrix m = true → 0 ≤ y < grid_height →
  check_row_full m y = Ok (row_is_full m y).
Proof.
  intros Hwf Hy. unfold check_row_full, row_is_full.
  destruct (getitem_row m y Hwf Hy) as (row & Hrow & _ & ->).
  by rewrite Hrow.
Qed.

Lemma check_row_empty_in (m : Matrix) (y : Z) :
  wf_matrix m = true → 0 ≤ y < grid_height →
  check_row_empty m y = Ok (row_is_empty m y).
Proof.
  intros Hwf Hy. unfold check_row_empty, row_is_empty.
  destruct (getitem_row m y Hwf Hy) as (row & Hrow & _ & ->).
  by rewrite Hrow.
Qed.

Lemma full_rows_loop_spec (m : Matrix) (rows acc : list Z) :
  wf_matrix m = true →
  (∀ y, y ∈ rows → 0 ≤ y < grid_height) →
  full_rows_loop m rows acc = Ok (acc ++ List.filter (row_is_full m) rows).
Proof.
  intros Hwf. revert acc. induction rows as [|y rows IH]; intros acc Hrows; simpl.
  - by rewrite app_nil_r.
  - rewrite check_row_full_in; [|done|apply Hrows, elem_of_cons; by left].
    rewrite bind_Ok. rewrite IH by (intros; apply Hrows, elem_of_cons; by right).
    destruct (row_is_full m y); [|done]. by rewrite <- app_assoc.
Qed.

(** [pattern_phase] on a well-formed matrix with the piece inside the grid:
    it returns, and enters the clear phase exactly when a row of the piece
    is full. *)
Lemma pattern_phase_spec (p : Playfield) (t : Tetromino) :
  active_tetromino p = Some t →
  wf_matrix (matrix p) = true →
  (∀ b, b ∈ square_units t → 0 ≤ by_ b < grid_height) →
  pattern_phase p
  = Ok (match List.filter (row_is_full (matrix p)) (get_rows t) with
        | [] => p
        | rows =>
            mkPlayfield (matrix p) (active_tetromino p) (model p) (gravity p)
              (lock_counter p) (in_lock_phase p) (tetromino_isactive p) true
              (game_over p) (Some (mkClearGen rows 0 AtStart))
              (soft_drop_isactive p) (alloc p)
        end).
Proof.
  intros Ht Hwf Hrows. unfold pattern_phase, the_active_tetromino.
  rewrite Ht, bind_Ok. rewrite full_rows_loop_spec; [|done|].
  - rewrite bind_Ok. simpl.
    by destruct (List.filter (row_is_full (matrix p)) (get_rows t)).
  - intros y (b & Hb & <-)%elem_of_get_rows. by apply Hrows.
Qed.

(** C5: locking a piece whose blocks all lie in the hidden rows sets the
    game-over flag and leaves the clear phase and its generator untouched;
    locking a piece with a block in a visible row runs the pattern phase
    instead and leaves the game-over flag as it was. *)
Theorem C5_lock_out (p : Playfield) (t : Tetromino) :
  active_tetromino p = Some t →
  ((∀ b, b ∈ square_units t → by_ b < hidden_rows) →
     check_lock_out p = Ok true
     ∧ ∃ p', lock_tetromino p = Ok p'
             ∧ game_over p' = true
             ∧ tetromino_isactive p' = false
             ∧ in_clear_phase p' = in_clear_phase p
             ∧ clear_generator p' = clear_generator p
             ∧ matrix p' = matrix p)
  ∧ (wf_matrix (matrix p) = true →
     (∀ b, b ∈ square_units t → 0 ≤ by_ b < grid_height) →
     (∃ b, b ∈ square_units t ∧ hidden_rows ≤ by_ b) →
     check_lock_out p = Ok false
     ∧ ∃ p', lock_tetromino p = Ok p'
             ∧ pattern_phase (lock_flags_reset p) = Ok p'
             ∧ game_over p' = game_over p
             ∧ tetromino_isactive p' = false).
Proof.
  intros Ht. split.
  - intros Hall.
    assert (check_lock_out_loop (get_rows t) = true) as Hout.
    { apply check_lock_out_loop_true.
      intros y (b & Hb & <-)%elem_of_get_rows. by apply Hall. }
    unfold lock_tetromino, check_lock_out, the_active_tetromino. simpl.
    rewrite Ht, !bind_Ok, Hout. split; [done|].
    eexists. split; [reflexivity|]. done.
  - intros Hwf Hrows (b & Hb & Hvis).
    assert (check_lock_out_loop (get_rows t) = false) as Hout.
    { apply not_true_is_false. intros H.
      rewrite check_lock_out_loop_true in H.
      specialize (H (by_ b)). 
      assert (by_ b < hidden_rows); [|lia].
      apply H, elem_of_get_rows. eauto. }
    unfold lock_tetromino, check_lock_out, the_active_tetromino. simpl.
    rewrite Ht, !bind_Ok, Hout. split; [done|].
    rewrite (pattern_phase_spec _ t) by done.
    eexists. split; [reflexivity|]. split; [done|].
    by destruct (List.filter _ _).
Qed.

Lemma C5_lock_out_witness :
  (check_lock_out hidden_playfield = Ok true
   ∧ ∃ p', lock_tetromino hidden_playfield = Ok p'
           ∧ game_over p' = true
           ∧ tetromino_isactive p' = false
           ∧ in_clear_phase p' = in_clear_phase hidden_playfield
           ∧ clear_generator p' = clear_generator hidden_playfield
           ∧ matrix p' = matrix hidden_playfield)
  ∧ (check_lock_out wall_playfield = Ok false
     ∧ ∃ p', lock_tetromino wall_playfield = Ok p'
             ∧ pattern_phase (lock_flags_reset wall_playfield) = Ok p'
             ∧ game_over p' = game_over wall_playfield
             ∧ tetromino_isactive p' = false).
Proof.
  split.
  - apply (proj1 (C5_lock_out hidden_playfield hidden_piece eq_refl)).
    intros b Hb. apply list_elem_of_In in Hb. simpl in Hb.
    unfold hidden_rows. intuition (subst; simpl; lia).
  - apply (proj2 (C5_lock_out wall_playfield wall_piece eq_refl)).
    + reflexivity.
    + intros b Hb. apply list_elem_of_In in Hb. simpl in Hb.
      unfold grid_height. intuition (subst; simpl; lia).
    + exists (mkBlock 1 CYAN 0 4). split.
      * apply list_elem_of_In. simpl. tauto.
      * unfold hidden_rows. simpl. lia.
Defined.

(** ** C4: spawning *)

Lemma ids_below_cell (a : nat) (m : Matrix) (x y : Z) (b : Block) :
  ids_below a m = true → cell_at m x y = Some b → (block_id b < a)%nat.
Proof.
  unfold ids_below, cell_at. intros H Hc.
  destruct (m !! Z.to_nat y) as [row|] eqn:Hrow; [|done].
  destruct (row !! Z.to_nat x) as [c|] eqn:Hx; [|done]. subst c.
  rewrite forallb_forall in H.
  specialize (H row ltac:(by eapply list_elem_of_In, list_elem_of_lookup_2)).
  rewrite forallb_forall in H.
  specialize (H (Some b) ltac:(by eapply list_elem_of_In, list_elem_of_lookup_2)).
  simpl in H. by apply Nat.ltb_lt.
Qed.

Lemma block_in_false (b : Block) (units : list Block) :
  (∀ u, u ∈ units → block_id u ≠ block_id b) → block_in b units = false.
Proof.
  intros H. unfold block_in. apply not_true_is_false.
  intros (u & Hu & Heq)%existsb_exists.
  unfold block_is in Heq. apply Nat.eqb_eq in Heq.
  apply (H u); [by apply list_elem_of_In | done].
Qed.

(** A position that is not blocked for freshly created blocks is inside the
    grid and empty. *)
Lemma not_blocked_fresh (a : nat) (m : Matrix) (units : list Block) (x y : Z) :
  wf_matrix m = true → ids_below a m = true →
  (∀ u, u ∈ units → (a ≤ block_id u)%nat) →
  blocked m units x y = false →
  is_in_bounds x y = true ∧ cell_at m x y = None.
Proof.
  intros Hwf Hids Hfresh Hb.
  destruct (is_in_bounds x y) eqn:Hin.
  - split; [done|]. rewrite blocked_in in Hb by done.
    destruct (cell_at m x y) as [b'|] eqn:Hc; [|done].
    rewrite block_in_false in Hb; [done|].
    intros u Hu. apply Hfresh in Hu.
    pose proof (ids_below_cell _ _ _ _ _ Hids Hc). lia.
  - unfold blocked in Hb. by rewrite Hin in Hb.
Qed.

Lemma wf_put_blocks (m : Matrix) (blocks : list Block) :
  wf_matrix m = true → wf_matrix (put_blocks m blocks) = true.
Proof.
  revert m. induction blocks as [|b blocks IH]; intros m Hwf; [done|].
  simpl. apply IH. by apply wf_matrix_put.
Qed.

Lemma add_blocks_ok (m : Matrix) (blocks : list Block) :
  wf_matrix m = true →
  NoDup (position <$> blocks) →
  (∀ b, b ∈ blocks →
        is_in_bounds (bx b) (by_ b) = true ∧ cell_at m (bx b) (by_ b) = None) →
  add_blocks_loop m blocks = Ok (put_blocks m blocks).
Proof.
  revert m. induction blocks as [|b blocks IH]; intros m Hwf Hnd Hall; [done|].
  apply NoDup_cons in Hnd as [Hnotin Hnd].
  destruct (Hall b ltac:(apply elem_of_cons; by left)) as [Hin Hempty].
  apply is_in_bounds_true in Hin as [Hx Hy].
  cbn [add_blocks_loop put_blocks foldl].
  unfold add_block, check_cell_empty.
  rewrite matrix_get_in, !bind_Ok, Hempty by done. simpl.
  rewrite matrix_set_in, bind_Ok by done.
  apply IH; [by apply wf_matrix_put | done |].
  intros b' Hb'.
  destruct (Hall b' ltac:(apply elem_of_cons; by right)) as [Hin' Hempty'].
  split; [done|].
  apply is_in_bounds_true in Hin' as [Hx' Hy'].
  rewrite cell_at_put_ne; [done|lia..|].
  intros Heq. apply Hnotin. apply list_elem_of_fmap. exists b'.
  split; [|done]. unfold position. by rewrite Heq.
Qed.

Lemma force_write_ok (m : Matrix) (blocks : list Block) :
  wf_matrix m = true →
  (∀ b, b ∈ blocks → is_in_bounds (bx b) (by_ b) = true) →
  force_write m blocks = Ok (put_blocks m blocks).
Proof.
  revert m. induction blocks as [|b blocks IH]; intros m Hwf Hall; [done|].
  pose proof (Hall b ltac:(apply elem_of_cons; by left)) as Hin.
  apply is_in_bounds_true in Hin as [Hx Hy].
  cbn [force_write put_blocks foldl].
  rewrite matrix_set_in, bind_Ok by done.
  apply IH; [by apply wf_matrix_put|].
  intros b' Hb'. apply Hall, elem_of_cons. by right.
Qed.

Lemma cell_at_put_blocks_other (m : Matrix) (blocks : list Block) (x y : Z) :
  0 ≤ x → 0 ≤ y →
  (∀ b, b ∈ blocks → 0 ≤ bx b ∧ 0 ≤ by_ b) →
  (x, y) ∉ position <$> blocks →
  cell_at (put_blocks m blocks) x y = cell_at m x y.
Proof.
  intros Hx Hy. revert m.
  induction blocks as [|b blocks IH]; intros m Hpos Hnot; [done|].
  cbn [put_blocks foldl].
  destruct (Hpos b ltac:(apply elem_of_cons; by left)) as [Hbx Hby].
  rewrite fmap_cons in Hnot. apply not_elem_of_cons in Hnot as [Hne Hnot].
  unfold put_blocks in IH. rewrite IH; [|intros; apply Hpos, elem_of_cons; by right|done].
  apply cell_at_put_ne; [done..|]. intros Heq. apply Hne. by rewrite <- Heq.
Qed.

Lemma cell_at_put_blocks (m : Matrix) (blocks : list Block) (b : Block) :
  wf_matrix m = true →
  NoDup (position <$> blocks) →
  (∀ b, b ∈ blocks → is_in_bounds (bx b) (by_ b) = true) →
  b ∈ blocks →
  cell_at (put_blocks m blocks) (bx b) (by_ b) = Some b.
Proof.
  revert m. induction blocks as [|b0 blocks IH]; intros m Hwf Hnd Hall Hb.
  - by apply elem_of_nil in Hb.
  - apply NoDup_cons in Hnd as [Hnotin Hnd].
    cbn [put_blocks foldl].
    pose proof (Hall b0 ltac:(apply elem_of_cons; by left)) as Hin0.
    apply is_in_bounds_true in Hin0 as [Hx0 Hy0].
    apply elem_of_cons in Hb as [->|Hb].
    + fold (put_blocks (matrix_put m (bx b0) (by_ b0) (Some b0)) blocks).
      rewrite cell_at_put_blocks_other; [by apply cell_at_put_eq|lia..| |done].
      intros b' Hb'.
      pose proof (Hall b' ltac:(apply elem_of_cons; by right)) as Hin'.
      apply is_in_bounds_true in Hin'. lia.
    + apply IH; [by apply wf_matrix_put|done| |done].
      intros b' Hb'. apply Hall, elem_of_cons. by right.
Qed.

Lemma set_tetromino_outcome (p : Playfield) (t0 t1 t2 : Tetromino) (a1 a2 : nat) :
  wf_matrix (matrix p) = true →
  ids_below (alloc p) (matrix p) = true →
  setup_blocks (alloc p) t0 3 2 = Ok (a1, t1) →
  setup_blocks a1 t1 3 (2 - 1) = Ok (a2, t2) →
  (∀ u, u ∈ square_units t1 ++ square_units t2 → (alloc p ≤ block_id u)%nat) →
  NoDup (position <$> square_units t1) →
  NoDup (position <$> square_units t2) →
  (∀ u, u ∈ square_units t2 → is_in_bounds (bx u) (by_ u) = true) →
  ∃ p', set_tetromino p t0 = Ok p'
        ∧ match would_collide (matrix p) t1 0 0, would_collide (matrix p) t2 0 0 with
          | Ok false, _ =>
              active_tetromino p' = Some t1
              ∧ tetromino_isactive p' = true
              ∧ game_over p' = game_over p
              ∧ add_to_grid (matrix p) t1 = Ok (matrix p')
              ∧ matrix p' = put_blocks (matrix p) (square_units t1)
          | Ok true, Ok false =>
              active_tetromino p' = Some t2
              ∧ tetromino_isactive p' = true
              ∧ game_over p' = game_over p
              ∧ add_to_grid (matrix p) t2 = Ok (matrix p')
              ∧ matrix p' = put_blocks (matrix p) (square_units t2)
          | Ok true, Ok true =>
              active_tetromino p' = Some t2
              ∧ tetromino_isactive p' = false
              ∧ game_over p' = true
              ∧ matrix p' = put_blocks (matrix p) (square_units t2)
              ∧ ∀ b, b ∈ square_units t2 →
                     cell_at (matrix p') (bx b) (by_ b) = Some b
          | _, _ => False
          end.
Proof.
  intros Hwf Hids H1 H2 Hfresh Hnd1 Hnd2 Hin2.
  unfold set_tetromino. rewrite H1, bind_Ok. cbn beta iota.
  rewrite (would_collide_spec _ t1) by done. rewrite bind_Ok.
  destruct (existsb _ (square_units t1)) eqn:E1.
  - rewrite H2, bind_Ok. cbn beta iota.
    rewrite (would_collide_spec _ t2) by done. rewrite bind_Ok.
    destruct (existsb _ (square_units t2)) eqn:E2.
    + unfold get_blocks. rewrite force_write_ok, bind_Ok by done.
      eexists. split; [reflexivity|]. cbn.
      repeat split. intros b Hb. by apply cell_at_put_blocks.
    + assert (add_to_grid (matrix p) t2
              = Ok (put_blocks (matrix p) (square_units t2))) as Hadd.
      { apply add_blocks_ok; [done..|]. intros b Hb.
        rewrite <- not_true_iff_false, existsb_exists in E2.
        apply (not_blocked_fresh (alloc p) _ (square_units t2)); [done..| |].
        - intros u Hu. apply Hfresh, elem_of_app. by right.
        - apply not_true_is_false. intros Hbl. apply E2. exists b.
          split; [by apply list_elem_of_In|].
          by rewrite !Z.add_0_r. }
      rewrite Hadd, bind_Ok. eexists. split; [reflexivity|]. by cbn.
  - assert (add_to_grid (matrix p) t1
            = Ok (put_blocks (matrix p) (square_units t1))) as Hadd.
    { apply add_blocks_ok; [done..|]. intros b Hb.
      rewrite <- not_true_iff_false, existsb_exists in E1.
      apply (not_blocked_fresh (alloc p) _ (square_units t1)); [done..| |].
      - intros u Hu. apply Hfresh, elem_of_app. by left.
      - apply not_true_is_false. intros Hbl. apply E1. exists b.
        split; [by apply list_elem_of_In|].
        by rewrite !Z.add_0_r. }
    rewrite Hadd, bind_Ok. eexists. split; [reflexivity|]. by cbn.
Qed.

(** C4: a new piece is set up at origin (3, 2); if it collides there it is
    set up again one row higher, at (3, 1); if it collides there too, the
    game-over flag is set, the piece is not active and its blocks are written
    into their cells whatever these held; where it does not collide it is
    added to the grid by [add_to_grid] and is active. *)
Theorem C4_spawn_retry_and_game_over (p : Playfield) (s : Shape) :
  wf_matrix (matrix p) = true →
  ids_below (alloc p) (matrix p) = true →
  ∃ a1 t1 a2 t2 p',
    setup_blocks (alloc p) (new_tetromino s) 3 2 = Ok (a1, t1)
    ∧ setup_blocks a1 t1 3 1 = Ok (a2, t2)
    ∧ (x_coord t1, y_coord t1) = (3, 2)
    ∧ (x_coord t2, y_coord t2) = (3, 1)
    ∧ set_tetromino p (new_tetromino s) = Ok p'
    ∧ match would_collide (matrix p) t1 0 0, would_collide (matrix p) t2 0 0 with
      | Ok false, _ =>
          active_tetromino p' = Some t1
          ∧ tetromino_isactive p' = true
          ∧ game_over p' = game_over p
          ∧ add_to_grid (matrix p) t1 = Ok (matrix p')
          ∧ matrix p' = put_blocks (matrix p) (square_units t1)
      | Ok true, Ok false =>
          active_tetromino p' = Some t2
          ∧ tetromino_isactive p' = true
          ∧ game_over p' = game_over p
          ∧ add_to_grid (matrix p) t2 = Ok (matrix p')
          ∧ matrix p' = put_blocks (matrix p) (square_units t2)
      | Ok true, Ok true =>
          active_tetromino p' = Some t2
          ∧ tetromino_isactive p' = false
          ∧ game_over p' = true
          ∧ matrix p' = put_blocks (matrix p) (square_units t2)
          ∧ ∀ b, b ∈ square_units t2 →
                 cell_at (matrix p') (bx b) (by_ b) = Some b
      | _, _ => False
      end.
Proof.
  intros Hwf Hids.
  assert (∃ a1 t1 a2 t2,
             setup_blocks (alloc p) (new_tetromino s) 3 2 = Ok (a1, t1)
             ∧ setup_blocks a1 t1 3 (2 - 1) = Ok (a2, t2)
             ∧ (x_coord t1, y_coord t1) = (3, 2)
             ∧ (x_coord t2, y_coord t2) = (3, 1)
             ∧ (∀ u, u ∈ square_units t1 ++ square_units t2 →
                     (alloc p ≤ block_id u)%nat)
             ∧ NoDup (position <$> square_units t1)
             ∧ NoDup (position <$> square_units t2)
             ∧ (∀ u, u ∈ square_units t2 → is_in_bounds (bx u) (by_ u) = true))
    as (a1 & t1 & a2 & t2 & H1 & H2 & Ho1 & Ho2 & Hfresh & Hnd1 & Hnd2 & Hin2).
  { destruct s; do 4 eexists;
      (split; [reflexivity|]); (split; [reflexivity|]);
      (split; [reflexivity|]); (split; [reflexivity|]);
      (split;
       [ intros u Hu; cbn in Hu; repeat (apply elem_of_cons in Hu as [->|Hu]);
         [simpl; lia ..| by apply elem_of_nil in Hu]
       | split;
         [ apply (bool_decide_unpack _); by vm_compute
         | split;
           [ apply (bool_decide_unpack _); by vm_compute
           | intros u Hu; cbn in Hu;
             repeat (apply elem_of_cons in Hu as [->|Hu]);
             [reflexivity ..| by apply elem_of_nil in Hu] ] ] ]). }
  destruct (set_tetromino_outcome p (new_tetromino s) t1 t2 a1 a2)
    as (p' & Hset & Hout); try done.
  exists a1, t1, a2, t2, p'. done.
Qed.

Lemma C4_spawn_retry_and_game_over_witness :
  (∃ p', set_tetromino free_playfield (new_tetromino ShapeT) = Ok p'
         ∧ game_over p' = false ∧ tetromino_isactive p' = true
         ∧ y_coord <$> active_tetromino p' = Some 2)
  ∧ (∃ p', set_tetromino crowded_playfield (new_tetromino ShapeT) = Ok p'
           ∧ game_over p' = false ∧ tetromino_isactive p' = true
           ∧ y_coord <$> active_tetromino p' = Some 1)
  ∧ (∃ p', set_tetromino topped_out_playfield (new_tetromino ShapeT) = Ok p'
           ∧ game_over p' = true ∧ tetromino_isactive p' = false
           ∧ y_coord <$> active_tetromino p' = Some 1).
Proof.
  split; [|split].
  - destruct (C4_spawn_retry_and_game_over free_playfield ShapeT eq_refl eq_refl)
      as (a1 & t1 & a2 & t2 & p' & H1 & H2 & _ & _ & Hset & Hout).
    exists p'. split; [done|].
    injection H1 as <- <-. injection H2 as <- <-.
    vm_compute in Hout. destruct Hout as (Ha & Hi & Hg & _).
    split; [exact Hg|]. split; [exact Hi|].
    rewrite (Ha : active_tetromino p' = _). reflexivity.
  - destruct (C4_spawn_retry_and_game_over crowded_playfield ShapeT eq_refl eq_refl)
      as (a1 & t1 & a2 & t2 & p' & H1 & H2 & _ & _ & Hset & Hout).
    exists p'. split; [done|].
    injection H1 as <- <-. injection H2 as <- <-.
    vm_compute in Hout. destruct Hout as (Ha & Hi & Hg & _).
    split; [exact Hg|]. split; [exact Hi|].
    rewrite (Ha : active_tetromino p' = _). reflexivity.
  - destruct (C4_spawn_retry_and_game_over topped_out_playfield ShapeT eq_refl eq_refl)
      as (a1 & t1 & a2 & t2 & p' & H1 & H2 & _ & _ & Hset & Hout).
    exists p'. split; [done|].
    injection H1 as <- <-. injection H2 as <- <-.
    vm_compute in Hout. destruct Hout as (Ha & Hi & Hg & _).
    split; [exact Hg|]. split; [exact Hi|].
    rewrite (Ha : active_tetromino p' = _). reflexivity.
Defined.

(** ** The piece on the grid *)

Lemma piece_on_grid_index (m : Matrix) (t : Tetromino) :
  piece_on_grid m t = true →
  0 ≤ rotation_index t < Z.of_nat (length (block_positions (shape t))).
Proof.
  unfold piece_on_grid. intros H.
  repeat (apply andb_prop in H as [H ?]). by apply bool_decide_eq_true_1 in H.
Qed.

Lemma piece_on_grid_positions (m : Matrix) (t : Tetromino) :
  piece_on_grid m t = true →
  position <$> square_units t
  = (fun v : Z * Z => (x_coord t + v.1, y_coord t + v.2))
      <$> (block_positions (shape t) !!! Z.to_nat (rotation_index t)).
Proof.
  unfold piece_on_grid. intros H.
  repeat (apply andb_prop in H as [H ?]).
  match goal with H : bool_decide (_ = _) = true |- _ =>
    by apply bool_decide_eq_true_1 in H end.
Qed.

Lemma piece_on_grid_block (m : Matrix) (t : Tetromino) (b : Block) :
  piece_on_grid m t = true → b ∈ square_units t →
  is_in_bounds (bx b) (by_ b) = true
  ∧ ∃ b', cell_at m (bx b) (by_ b) = Some b' ∧ block_is b b' = true.
Proof.
  unfold piece_on_grid. intros H Hb.
  apply andb_prop in H as [H _]. apply andb_prop in H as [_ H].
  rewrite forallb_forall in H.
  specialize (H b ltac:(by apply list_elem_of_In)).
  apply andb_prop in H as [Hin Hc]. split; [done|].
  destruct (cell_at m (bx b) (by_ b)) as [b'|]; [|done]. eauto.
Qed.

Lemma piece_on_grid_owned (m : Matrix) (t : Tetromino) (x y : Z) (b' : Block) :
  piece_on_grid m t = true →
  0 ≤ x < grid_width → 0 ≤ y < grid_height →
  cell_at m x y = Some b' → block_in b' (square_units t) = true →
  (x, y) ∈ position <$> square_units t.
Proof.
  unfold piece_on_grid. intros H Hx Hy Hc Hb.
  apply andb_prop in H as [_ H].
  rewrite forallb_forall in H.
  specialize (H y ltac:(by apply list_elem_of_In, elem_of_py_range)).
  rewrite forallb_forall in H.
  specialize (H x ltac:(by apply list_elem_of_In, elem_of_py_range)).
  rewrite Hc, Hb in H. simpl in H. by apply bool_decide_eq_true_1 in H.
Qed.

Lemma piece_on_grid_intro (m : Matrix) (t : Tetromino) :
  0 ≤ rotation_index t < Z.of_nat (length (block_positions (shape t))) →
  position <$> square_units t
  = (fun v : Z * Z => (x_coord t + v.1, y_coord t + v.2))
      <$> (block_positions (shape t) !!! Z.to_nat (rotation_index t)) →
  (∀ b, b ∈ square_units t →
        is_in_bounds (bx b) (by_ b) = true
        ∧ ∃ b', cell_at m (bx b) (by_ b) = Some b' ∧ block_is b b' = true) →
  (∀ x y b', 0 ≤ x < grid_width → 0 ≤ y < grid_height →
             cell_at m x y = Some b' → block_in b' (square_units t) = true →
             (x, y) ∈ position <$> square_units t) →
  piece_on_grid m t = true.
Proof.
  intros H1 H2 H3 H4. unfold piece_on_grid.
  apply andb_true_intro; split; [apply andb_true_intro; split;
    [apply andb_true_intro; split|]|].
  - by apply bool_decide_eq_true_2.
  - by apply bool_decide_eq_true_2.
  - apply forallb_forall. intros b Hb%list_elem_of_In.
    destruct (H3 b Hb) as (Hin & b' & Hc & Hid). by rewrite Hin, Hc.
  - apply forallb_forall. intros y Hy%list_elem_of_In%elem_of_py_range.
    apply forallb_forall. intros x Hx%list_elem_of_In%elem_of_py_range.
    destruct (cell_at m x y) as [b'|] eqn:Hc; [|done].
    destruct (block_in b' (square_units t)) eqn:Hb; [|done]. simpl.
    apply bool_decide_eq_true_2. by eapply H4.
Qed.

Lemma wf_take_blocks (m : Matrix) (blocks : list Block) :
  wf_matrix m = true → wf_matrix (take_blocks m blocks) = true.
Proof.
  revert m. induction blocks as [|b blocks IH]; intros m Hwf; [done|].
  simpl. apply IH. by apply wf_matrix_put.
Qed.

Lemma cell_at_take_blocks (m : Matrix) (blocks : list Block) (x y : Z) :
  wf_matrix m = true →
  0 ≤ x → 0 ≤ y →
  (∀ b, b ∈ blocks → is_in_bounds (bx b) (by_ b) = true) →
  cell_at (take_blocks m blocks) x y
  = if bool_decide ((x, y) ∈ position <$> blocks) then None else cell_at m x y.
Proof.
  intros Hwf Hx Hy. revert m Hwf.
  induction blocks as [|b blocks IH]; intros m Hwf Hin.
  - cbn [take_blocks foldl]. rewrite bool_decide_eq_false_2; [done|].
    rewrite fmap_nil. apply not_elem_of_nil.
  - cbn [take_blocks foldl]. unfold take_blocks in IH.
    pose proof (Hin b ltac:(apply elem_of_cons; by left)) as Hb.
    apply is_in_bounds_true in Hb as [Hbx Hby].
    rewrite IH; [|by apply wf_matrix_put|intros; apply Hin, elem_of_cons; by right].
    rewrite fmap_cons.
    destruct (decide ((x, y) ∈ position <$> blocks)) as [Hel|Hel].
    + rewrite !bool_decide_eq_true_2; [done| |done]. apply elem_of_cons. by right.
    + rewrite (bool_decide_eq_false_2 _ Hel).
      rewrite cell_at_put by (done || lia).
      unfold position at 1.
      destruct (decide ((bx b, by_ b) = (x, y))) as [Heq|Heq].
      * rewrite bool_decide_eq_true_2; [done|]. apply elem_of_cons. by left.
      * rewrite bool_decide_eq_false_2; [done|].
        intros [Hc|Hc]%elem_of_cons; [by apply Heq|done].
Qed.

Lemma remove_blocks_ok (m : Matrix) (blocks : list Block) :
  wf_matrix m = true →
  NoDup (position <$> blocks) →
  (∀ b, b ∈ blocks →
        is_in_bounds (bx b) (by_ b) = true
        ∧ ∃ b', cell_at m (bx b) (by_ b) = Some b' ∧ block_is b b' = true) →
  remove_blocks_loop m blocks = Ok (take_blocks m blocks).
Proof.
  revert m. induction blocks as [|b blocks IH]; intros m Hwf Hnd Hall; [done|].
  apply NoDup_cons in Hnd as [Hnotin Hnd].
  destruct (Hall b ltac:(apply elem_of_cons; by left)) as (Hin & b' & Hc & Hid).
  apply is_in_bounds_true in Hin as [Hx Hy].
  cbn [remove_blocks_loop take_blocks foldl].
  unfold remove_block, check_block_position.
  rewrite matrix_get_in, !bind_Ok, Hc, Hid by done. simpl.
  rewrite matrix_set_in, bind_Ok by done.
  apply IH; [by apply wf_matrix_put | done |].
  intros b2 Hb2.
  destruct (Hall b2 ltac:(apply elem_of_cons; by right)) as (Hin2 & b2' & Hc2 & Hid2).
  split; [done|]. exists b2'. split; [|done].
  apply is_in_bounds_true in Hin2 as [Hx2 Hy2].
  rewrite cell_at_put_ne; [done|lia..|].
  intros Heq. apply Hnotin. apply list_elem_of_fmap. exists b2.
  split; [|done]. unfold position. by rewrite Heq.
Qed.

(** ** C6: rotating there and back *)

Ltac rotate_step i b v :=
  rewrite (getitem_lookup _ i b) by (lia || reflexivity);
  rewrite bind_Ok;
  rewrite (getitem_lookup _ i v) by (lia || reflexivity);
  rewrite bind_Ok;
  rewrite setitem_nonneg by (simpl; lia);
  rewrite bind_Ok;
  cbn [Z.to_nat Pos.to_nat Pos.iter_op Nat.add insert list_insert];
  match goal with
  | |- context [add_block ?m ?b'] =>
      destruct (add_block m b') as [?m|?e]; [rewrite !bind_Ok|reflexivity]
  end.

Lemma rotate_loop_4 (m : Matrix) (x0 y0 : Z) (b0 b1 b2 b3 : Block)
    (v0 v1 v2 v3 : Z * Z) :
  rotate_loop m x0 y0 [b0; b1; b2; b3] [v0; v1; v2; v3] (py_range 0 (Z.of_nat 4))
  = m' ← add_blocks_loop m
           (rotated_units x0 y0 [b0; b1; b2; b3] [v0; v1; v2; v3]);
    Ok (m', rotated_units x0 y0 [b0; b1; b2; b3] [v0; v1; v2; v3]).
Proof.
  change (py_range 0 (Z.of_nat 4)) with [0; 1; 2; 3].
  unfold rotated_units. cbn [rotate_loop zip_with add_blocks_loop].
  rotate_step 0 b0 v0. rotate_step 1 b1 v1. rotate_step 2 b2 v2. rotate_step 3 b3 v3.
  reflexivity.
Qed.

Lemma states_shape (s : Shape) (vectors : list (Z * Z)) :
  vectors ∈ block_positions s → length vectors = 4%nat ∧ NoDup vectors.
Proof.
  intros H. destruct s; cbn in H;
    repeat (apply elem_of_cons in H as [->|H]);
    try (by apply elem_of_nil in H);
    (split; [reflexivity | apply (bool_decide_unpack _); by vm_compute]).
Qed.

Lemma NoDup_translated (x0 y0 : Z) (vectors : list (Z * Z)) :
  NoDup vectors →
  NoDup ((fun v : Z * Z => (x0 + v.1, y0 + v.2)) <$> vectors).
Proof.
  intros H. apply NoDup_fmap_2; [|done].
  intros [a b] [c d] Heq. simpl in Heq. injection Heq as H1 H2. f_equal; lia.
Qed.

Lemma block_in_rotated (b' : Block) (x0 y0 : Z) (units : list Block)
    (vectors : list (Z * Z)) :
  length units = length vectors →
  block_in b' (rotated_units x0 y0 units vectors) = block_in b' units.
Proof.
  unfold rotated_units, block_in. revert vectors.
  induction units as [|b units IH]; intros [|v vectors] Hlen; try done.
  simpl. f_equal. apply IH. simpl in Hlen. lia.
Qed.

Lemma position_rotated (x0 y0 : Z) (units : list Block) (vectors : list (Z * Z)) :
  length units = length vectors →
  position <$> rotated_units x0 y0 units vectors
  = (fun v : Z * Z => (x0 + v.1, y0 + v.2)) <$> vectors.
Proof.
  unfold rotated_units. revert vectors.
  induction units as [|b units IH]; intros [|v vectors] Hlen; try done.
  simpl. f_equal. apply IH. simpl in Hlen. lia.
Qed.

Lemma can_rotate_true_inv (m : Matrix) (t : Tetromino) (dr : Z)
    (vectors : list (Z * Z)) :
  wf_matrix m = true →
  dr = 1 ∨ dr = -1 →
  0 ≤ rotation_index t < Z.of_nat (length (block_positions (shape t))) →
  block_positions (shape t)
    !! Z.to_nat ((rotation_index t + dr)
                 `mod` Z.of_nat (length (block_positions (shape t))))
  = Some vectors →
  can_rotate m t dr = Ok true →
  ∀ v, v ∈ vectors →
       blocked m (square_units t) (x_coord t + v.1) (y_coord t + v.2) = false.
Proof.
  intros Hwf Hdr Hri Hv Hcan v Hin.
  rewrite (can_rotate_candidate m t dr vectors) in Hcan by done.
  injection Hcan as Hcan. apply negb_true_iff in Hcan.
  apply not_true_is_false. intros Hb.
  rewrite <- not_true_iff_false, existsb_exists in Hcan. apply Hcan.
  exists v. split; [by apply list_elem_of_In|done].
Qed.

Lemma Tetromino_rotate_ok (m : Matrix) (t : Tetromino) (dr : Z)
    (vectors : list (Z * Z)) :
  wf_matrix m = true →
  piece_on_grid m t = true →
  dr = 1 ∨ dr = -1 →
  block_positions (shape t)
    !! Z.to_nat ((rotation_index t + dr)
                 `mod` Z.of_nat (length (block_positions (shape t))))
  = Some vectors →
  can_rotate m t dr = Ok true →
  let units' := rotated_units (x_coord t) (y_coord t) (square_units t) vectors in
  let m' := put_blocks (take_blocks m (square_units t)) units' in
  let t' := mkTetromino (shape t) (x_coord t) (y_coord t)
              ((rotation_index t + dr)
               `mod` Z.of_nat (length (block_positions (shape t))))
              units' in
  Tetromino_rotate m t dr = Ok (m', t')
  ∧ wf_matrix m' = true
  ∧ piece_on_grid m' t' = true.
Proof.
  intros Hwf Hpg Hdr Hvec Hcan units' m' t'.
  pose proof (piece_on_grid_index _ _ Hpg) as Hri.
  pose proof (piece_on_grid_positions _ _ Hpg) as Hpos.
  set (n := Z.of_nat (length (block_positions (shape t)))) in *.
  assert (0 ≤ (rotation_index t + dr) `mod` n < n) as Hidx
    by (apply Z.mod_pos_bound; lia).
  destruct (lookup_lt_is_Some_2 (block_positions (shape t))
              (Z.to_nat (rotation_index t))) as [cur Hcur]; [lia|].
  rewrite (list_lookup_total_correct _ _ _ Hcur) in Hpos.
  destruct (states_shape (shape t) cur) as [Hlc Hndc];
    [by eapply list_elem_of_lookup_2|].
  destruct (states_shape (shape t) vectors) as [Hlv Hndv];
    [by eapply list_elem_of_lookup_2|].
  assert (length (square_units t) = 4%nat) as Hlu.
  { rewrite <- (length_fmap position), Hpos, length_fmap. done. }
  assert (NoDup (position <$> square_units t)) as Hndu.
  { rewrite Hpos. by apply NoDup_translated. }
  assert (length (square_units t) = length vectors) as Hlen by lia.
  assert (NoDup (position <$> units')) as Hndu'.
  { unfold units'. rewrite position_rotated by done. by apply NoDup_translated. }
  pose proof (can_rotate_true_inv m t dr vectors Hwf Hdr Hri Hvec Hcan) as Hfree.
  assert (∀ b, b ∈ square_units t → is_in_bounds (bx b) (by_ b) = true) as Hinb.
  { intros b Hb. by destruct (piece_on_grid_block m t b Hpg Hb). }
  assert (∀ b, b ∈ units' →
               is_in_bounds (bx b) (by_ b) = true
               ∧ cell_at (take_blocks m (square_units t)) (bx b) (by_ b) = None)
    as Htarget.
  { intros b Hb.
    assert (position b ∈ (fun v : Z * Z => (x_coord t + v.1, y_coord t + v.2))
                           <$> vectors) as Hp.
    { rewrite <- (position_rotated _ _ (square_units t)) by done.
      apply list_elem_of_fmap. eauto. }
    apply list_elem_of_fmap in Hp as (v & Hpv & Hv).
    unfold position in Hpv. injection Hpv as Hbx Hby.
    specialize (Hfree v Hv). rewrite <- Hbx, <- Hby in Hfree.
    destruct (is_in_bounds (bx b) (by_ b)) eqn:Hin;
      [|unfold blocked in Hfree; by rewrite Hin in Hfree].
    split; [done|].
    rewrite blocked_in in Hfree by done.
    apply is_in_bounds_true in Hin as [Hx Hy].
    rewrite cell_at_take_blocks by (done || lia).
    case_bool_decide as Hold; [done|].
    destruct (cell_at m (bx b) (by_ b)) as [b'|] eqn:Hc; [|done].
    apply negb_false_iff in Hfree.
    exfalso. apply Hold. by eapply piece_on_grid_owned. }
  assert (wf_matrix m' = true) as Hwf'.
  { by apply wf_put_blocks, wf_take_blocks. }
  split; [|split; [done|]].
  - unfold Tetromino_rotate. rewrite Hcan, bind_Ok. cbn [negb].
    rewrite wrap_index_mod by done. fold n.
    rewrite (getitem_lookup _ _ vectors) by (lia || done). rewrite bind_Ok.
    unfold remove_blocks.
    rewrite remove_blocks_ok;
      [|done|done|intros b Hb; by apply (piece_on_grid_block m t)].
    rewrite bind_Ok.
    assert (rotate_loop (take_blocks m (square_units t)) (x_coord t) (y_coord t)
              (square_units t) vectors
              (py_range 0 (Z.of_nat (length (square_units t))))
            = Ok (m', units')) as ->; [|done].
    rewrite Hlu.
    destruct (square_units t) as [|b0 [|b1 [|b2 [|b3 [|]]]]] eqn:Hu; try done.
    destruct vectors as [|v0 [|v1 [|v2 [|v3 [|]]]]]; try done.
    rewrite rotate_loop_4.
    rewrite add_blocks_ok; [done|by apply wf_take_blocks|done|done].
  - apply piece_on_grid_intro; cbn [shape rotation_index x_coord y_coord square_units].
    + done.
    + rewrite (list_lookup_total_correct _ _ _ Hvec).
      by apply position_rotated.
    + intros b Hb. destruct (Htarget b Hb) as [Hin _]. split; [done|].
      exists b. split.
      * apply cell_at_put_blocks; [by apply wf_take_blocks|done| |done].
        intros b0 Hb0. by destruct (Htarget b0 Hb0).
      * unfold block_is. apply Nat.eqb_refl.
    + intros x y b' Hx Hy Hc Hown.
      destruct (decide ((x, y) ∈ position <$> units')) as [Hel|Hel]; [done|].
      exfalso. unfold m' in Hc.
      rewrite cell_at_put_blocks_other in Hc; [|lia|lia| |done].
      * rewrite cell_at_take_blocks in Hc by (done || lia).
        case_bool_decide as Hold; [done|].
        apply Hold. eapply piece_on_grid_owned; [done..|].
        by rewrite <- (block_in_rotated b' (x_coord t) (y_coord t) _ vectors).
      * intros b0 Hb0. destruct (Htarget b0 Hb0) as [Hin0 _].
        apply is_in_bounds_true in Hin0. lia.
Qed.

Lemma rotate_base (m : Matrix) (t : Tetromino) (dr : Z) :
  shape t ≠ ShapeO → rotate m t dr = Tetromino_rotate m t dr.
Proof. intros H. unfold rotate. by destruct (shape t). Qed.

Lemma rotated_back (x0 y0 : Z) (units : list Block) (vectors cur : list (Z * Z)) :
  length units = length vectors →
  position <$> units = (fun v : Z * Z => (x0 + v.1, y0 + v.2)) <$> cur →
  rotated_units x0 y0 (rotated_units x0 y0 units vectors) cur = units.
Proof.
  unfold rotated_units. revert vectors cur.
  induction units as [|b units IH]; intros [|v vectors] [|c cur] Hlen Hpos;
    try done.
  rewrite !fmap_cons in Hpos. injection Hpos as Hx Hy Hrest.
  cbn [zip_with]. f_equal.
  - destruct b as [i col x y]. unfold set_coords. simpl in *. by subst.
  - apply IH; [simpl in Hlen; lia | done].
Qed.

Lemma index_there_and_back (index n : Z) :
  0 ≤ index < n → ((index + 1) `mod` n + -1) `mod` n = index.
Proof.
  intros H. rewrite Zplus_mod_idemp_l.
  replace (index + 1 + -1) with index by lia. apply Z.mod_small. lia.
Qed.

(** C6: for a piece kept on a well-formed grid, if the clockwise rotation
    is not blocked it is carried out, and if the anticlockwise rotation that
    follows is not blocked either it is carried out and gives back the
    tetromino as it was: the same rotation index, the same origin and the
    same four blocks at the same positions. *)
Theorem C6_rotate_there_and_back (m : Matrix) (t : Tetromino) :
  wf_matrix m = true →
  piece_on_grid m t = true →
  can_rotate m t 1 = Ok true →
  ∃ m1 t1,
    rotate m t 1 = Ok (m1, t1)
    ∧ (can_rotate m1 t1 (-1) = Ok true →
       ∃ m2 t2,
         rotate m1 t1 (-1) = Ok (m2, t2)
         ∧ rotation_index t2 = rotation_index t
         ∧ position <$> square_units t2 = position <$> square_units t
         ∧ t2 = t).
Proof.
  intros Hwf Hpg Hcan.
  destruct (decide (shape t = ShapeO)) as [HO|HO].
  { exists m, t. unfold rotate. rewrite HO. split; [done|]. intros _.
    exists m, t. done. }
  pose proof (piece_on_grid_index _ _ Hpg) as Hri.
  pose proof (piece_on_grid_positions _ _ Hpg) as Hpos.
  set (n := Z.of_nat (length (block_positions (shape t)))) in *.
  destruct (lookup_lt_is_Some_2 (block_positions (shape t))
              (Z.to_nat (rotation_index t))) as [cur Hcur]; [lia|].
  rewrite (list_lookup_total_correct _ _ _ Hcur) in Hpos.
  destruct (lookup_lt_is_Some_2 (block_positions (shape t))
              (Z.to_nat ((rotation_index t + 1) `mod` n))) as [vectors Hvec].
  { pose proof (Z.mod_pos_bound (rotation_index t + 1) n). lia. }
  destruct (Tetromino_rotate_ok m t 1 vectors Hwf Hpg ltac:(by left) Hvec Hcan)
    as (Hrot1 & Hwf1 & Hpg1).
  fold n in Hrot1, Hpg1.
  eexists _, _. split; [by rewrite rotate_base|].
  intros Hcan2.
  set (t1 := mkTetromino (shape t) (x_coord t) (y_coord t)
               ((rotation_index t + 1) `mod` n)
               (rotated_units (x_coord t) (y_coord t) (square_units t) vectors))
    in *.
  set (m1 := put_blocks (take_blocks m (square_units t)) (square_units t1)) in *.
  assert (block_positions (shape t1)
            !! Z.to_nat ((rotation_index t1 + -1)
                         `mod` Z.of_nat (length (block_positions (shape t1))))
          = Some cur) as Hvec2.
  { cbn [t1 shape rotation_index]. fold n.
    by rewrite index_there_and_back. }
  destruct (Tetromino_rotate_ok m1 t1 (-1) cur Hwf1 Hpg1 ltac:(by right)
              Hvec2 Hcan2) as (Hrot2 & _ & _).
  cbn [t1 shape rotation_index x_coord y_coord square_units] in Hrot2.
  fold n in Hrot2. rewrite index_there_and_back in Hrot2 by done.
  assert (length (square_units t) = length vectors) as Hlen.
  { destruct (states_shape (shape t) cur) as [Hlc _];
      [by eapply list_elem_of_lookup_2|].
    destruct (states_shape (shape t) vectors) as [Hlv _];
      [by eapply list_elem_of_lookup_2|].
    rewrite <- (length_fmap position), Hpos, length_fmap. lia. }
  rewrite rotated_back in Hrot2 by done.
  eexists _, _. split.
  { rewrite rotate_base by done. exact Hrot2. }
  cbn [rotation_index square_units]. split; [done|]. split; [done|].
  by destruct t.
Qed.

Lemma C6_rotate_there_and_back_witness :
  ∃ m1 t1 m2 t2,
    rotate free_matrix free_piece 1 = Ok (m1, t1)
    ∧ rotation_index t1 = 1
    ∧ rotate m1 t1 (-1) = Ok (m2, t2)
    ∧ rotation_index t2 = 0
    ∧ t2 = free_piece.
Proof.
  destruct (C6_rotate_there_and_back free_matrix free_piece eq_refl eq_refl eq_refl)
    as (m1 & t1 & H1 & H2).
  assert (Hsame := H1). vm_compute in Hsame. injection Hsame as Hm Ht.
  destruct H2 as (m2 & t2 & H2 & Hi & _ & Heq).
  { rewrite <- Hm, <- Ht. reflexivity. }
  exists m1, t1, m2, t2.
  split; [exact H1|]. split; [by rewrite <- Ht|].
  split; [exact H2|]. split; [exact Hi|exact Heq].
Defined.

(** ** The line-clear generator *)











(** ** Shifting the rows down *)

Lemma all_none_replicate (row : Row) :
  forallb cell_is_none row = true → row = replicate (length row) None.
Proof.
  induction row as [|c row IH]; [done|]. simpl.
  intros [Hc Hrow]%andb_prop. destruct c; [done|]. f_equal. by apply IH.
Qed.

Lemma empty_row_at (m : Matrix) (y : Z) :
  wf_matrix m = true → 0 ≤ y < grid_height → row_is_empty m y = true →
  row_at m y = Some empty_row.
Proof.
  intros Hwf Hy. unfold row_is_empty, row_at.
  destruct (wf_row_lookup m y Hwf Hy) as (row & -> & Hlen).
  intros H. f_equal. rewrite (all_none_replicate row H). by rewrite Hlen.
Qed.

Lemma first_nonempty_row_spec (m : Matrix) (n : nat) (a : Z) :
  wf_matrix m = true → 0 ≤ a → a + Z.of_nat n ≤ grid_height →
  ∃ s, first_nonempty_row m (py_range a (a + Z.of_nat n)) = Ok s
       ∧ ((s = -1 ∧ ∀ y, a ≤ y < a + Z.of_nat n → row_is_empty m y = true)
          ∨ (a ≤ s < a + Z.of_nat n ∧ row_is_empty m s = false
             ∧ ∀ y, a ≤ y < s → row_is_empty m y = true)).
Proof.
  intros Hwf. revert a. induction n as [|n IH]; intros a Ha Han.
  - rewrite Z.add_0_r, py_range_nil. exists (-1). split; [done|].
    left. split; [done|]. intros; lia.
  - rewrite py_range_cons by lia. cbn [first_nonempty_row].
    rewrite check_row_empty_in by (done || lia). rewrite bind_Ok.
    destruct (row_is_empty m a) eqn:Ea; cbn [negb].
    + replace (a + Z.of_nat (S n)) with (a + 1 + Z.of_nat n) by lia.
      destruct (IH (a + 1)) as (s & Hs & Hcase); [lia..|].
      exists s. split; [done|].
      destruct Hcase as [[-> Hall]|(Hr & Hne & Hall)].
      * left. split; [done|]. intros y Hy.
        destruct (decide (y = a)) as [->|]; [done|]. apply Hall. lia.
      * right. split; [lia|]. split; [done|]. intros y Hy.
        destruct (decide (y = a)) as [->|]; [done|]. apply Hall. lia.
    + exists a. split; [done|]. right. split; [lia|]. split; [done|].
      intros; lia.
Qed.

Lemma get_top_block_row_spec (m : Matrix) :
  wf_matrix m = true →
  ∃ s, get_top_block_row m = Ok s
       ∧ ((s = -1 ∧ ∀ y, 0 ≤ y < grid_height - 1 → row_is_empty m y = true)
          ∨ (0 ≤ s < grid_height - 1 ∧ row_is_empty m s = false
             ∧ ∀ y, 0 ≤ y < s → row_is_empty m y = true)).
Proof.
  intros Hwf. unfold get_top_block_row.
  apply (first_nonempty_row_spec m (Z.to_nat (grid_height - 1)) 0 Hwf);
    unfold grid_height; lia.
Qed.

Lemma all_rows_empty_spec (m : Matrix) (n : nat) (a : Z) :
  wf_matrix m = true → 0 ≤ a → a + Z.of_nat n ≤ grid_height →
  ∃ e, all_rows_empty m (py_range a (a + Z.of_nat n)) = Ok e
       ∧ (e = true → ∀ y, a ≤ y < a + Z.of_nat n → row_is_empty m y = true).
Proof.
  intros Hwf. revert a. induction n as [|n IH]; intros a Ha Han.
  - rewrite Z.add_0_r, py_range_nil. exists true. split; [done|]. intros; lia.
  - rewrite py_range_cons by lia. cbn [all_rows_empty].
    rewrite check_row_empty_in by (done || lia). rewrite bind_Ok.
    destruct (row_is_empty m a) eqn:Ea; cbn [negb]; [|by exists false].
    replace (a + Z.of_nat (S n)) with (a + 1 + Z.of_nat n) by lia.
    destruct (IH (a + 1)) as (e & He & Hall); [lia..|].
    exists e. split; [done|]. intros -> y Hy.
    destruct (decide (y = a)) as [->|]; [done|]. apply Hall; [done|lia].
Qed.

Lemma check_grid_empty_spec (m : Matrix) :
  wf_matrix m = true →
  ∃ e, check_grid_empty m = Ok e
       ∧ (e = true → ∀ y, 0 ≤ y < grid_height → row_is_empty m y = true).
Proof.
  intros Hwf. unfold check_grid_empty.
  apply (all_rows_empty_spec m (Z.to_nat grid_height) 0 Hwf);
    unfold grid_height; lia.
Qed.

Lemma row_at_insert_eq (m : Matrix) (y : Z) (row : Row) :
  0 ≤ y < Z.of_nat (length m) →
  row_at (<[Z.to_nat y := row]> m) y = Some row.
Proof. intros H. unfold row_at. apply list_lookup_insert_eq. lia. Qed.

Lemma row_at_insert_ne (m : Matrix) (y y' : Z) (row : Row) :
  0 ≤ y → 0 ≤ y' → y ≠ y' →
  row_at (<[Z.to_nat y := row]> m) y' = row_at m y'.
Proof. intros. unfold row_at. apply list_lookup_insert_ne. lia. Qed.

(** The inner loop moves each row of its range one index down, putting
    [temp_blocks] in the first place, and touches nothing else. *)
Lemma shift_rows_inner_spec (n : nat) (m : Matrix)
    (temp : Row) (a : Z) :
  -1 ≤ a → a + Z.of_nat n < Z.of_nat (length m) →
  ∃ m', shift_rows_inner m temp (py_range a (a + Z.of_nat n)) = Ok m'
        ∧ length m' = length m
        ∧ ((0 < n)%nat → row_at m' (a + 1) = Some temp)
        ∧ (∀ y, a < y < a + Z.of_nat n → row_at m' (y + 1) = row_at m y)
        ∧ (∀ i, 0 ≤ i → i ≤ a ∨ a + Z.of_nat n < i → row_at m' i = row_at m i).
Proof.
  revert m temp a. induction n as [|n IH]; intros m temp a Ha Han.
  - rewrite Z.add_0_r, py_range_nil. exists m. split; [done|]. split; [done|].
    split; [lia|]. split; [intros; lia|done].
  - rewrite py_range_cons by lia. cbn [shift_rows_inner].
    destruct (getitem_nonneg m (a + 1)) as (blocks & Hb & ->); [lia|].
    rewrite bind_Ok, setitem_nonneg, bind_Ok by lia.
    replace (a + Z.of_nat (S n)) with (a + 1 + Z.of_nat n) by lia.
    destruct (IH (<[Z.to_nat (a + 1) := temp]> m) blocks (a + 1))
      as (m' & Hm' & Hlen & Hfirst & Hmid & Hout);
      [lia | rewrite length_insert; lia |].
    exists m'. split; [done|]. rewrite length_insert in Hlen.
    split; [done|]. split; [|split].
    + intros _. rewrite Hout by lia. apply row_at_insert_eq. lia.
    + intros y Hy. destruct (decide (y = a + 1)) as [->|Hne].
      * rewrite Hfirst by lia. done.
      * rewrite Hmid by lia. apply row_at_insert_ne; lia.
    + intros i Hi Hcase. rewrite Hout by lia. apply row_at_insert_ne; lia.
Qed.



(** ** C1: locking into a single line clear *)

Lemma NoDup_get_rows_loop (units : list Block) (acc : list Z) :
  NoDup acc →
  NoDup (fold_left (fun rows block =>
                      if existsb (Z.eqb (by_ block)) rows then rows
                      else rows ++ [by_ block]) units acc).
Proof.
  revert acc. induction units as [|b units IH]; intros acc Hnd; [done|].
  simpl. apply IH.
  destruct (existsb (Z.eqb (by_ b)) acc) eqn:E; [done|].
  apply NoDup_app. split; [done|]. split; [|apply NoDup_singleton].
  intros y Hy ->%list_elem_of_singleton.
  rewrite <- not_true_iff_false, existsb_exists in E. apply E.
  exists (by_ b). split; [by apply list_elem_of_In|apply Z.eqb_refl].
Qed.

Lemma NoDup_get_rows (t : Tetromino) : NoDup (get_rows t).
Proof.
  unfold get_rows. rewrite merge_sort_Permutation.
  apply NoDup_get_rows_loop, NoDup_nil_2.
Qed.








(** ** The piece stays on the grid *)

(** Blocks newer than everything in the matrix, put into empty cells at the
    positions of their state, are on the grid. *)
Lemma put_blocks_piece_on_grid (a : nat) (m : Matrix) (t : Tetromino) :
  wf_matrix m = true →
  ids_below a m = true →
  (∀ u, u ∈ square_units t → (a ≤ block_id u)%nat) →
  0 ≤ rotation_index t < Z.of_nat (length (block_positions (shape t))) →
  position <$> square_units t
  = (fun v : Z * Z => (x_coord t + v.1, y_coord t + v.2))
      <$> (block_positions (shape t) !!! Z.to_nat (rotation_index t)) →
  (∀ u, u ∈ square_units t → is_in_bounds (bx u) (by_ u) = true) →
  piece_on_grid (put_blocks m (square_units t)) t = true.
Proof.
  intros Hwf Hids Hfresh Hri Hpos Hin.
  destruct (lookup_lt_is_Some_2 (block_positions (shape t))
              (Z.to_nat (rotation_index t))) as [cur Hcur]; [lia|].
  assert (NoDup (position <$> square_units t)) as Hnd.
  { rewrite Hpos, (list_lookup_total_correct _ _ _ Hcur).
    apply NoDup_translated.
    by destruct (states_shape (shape t) cur);
      [eapply list_elem_of_lookup_2|]. }
  apply piece_on_grid_intro; [done..| |].
  - intros b Hb. split; [by apply Hin|]. exists b. split.
    + by apply cell_at_put_blocks.
    + unfold block_is. apply Nat.eqb_refl.
  - intros x y b' Hx Hy Hc Hown.
    destruct (decide ((x, y) ∈ position <$> square_units t)) as [|Hel]; [done|].
    exfalso. rewrite cell_at_put_blocks_other in Hc; [|lia|lia| |done].
    + pose proof (ids_below_cell _ _ _ _ _ Hids Hc) as Hlt.
      rewrite block_in_false in Hown; [done|].
      intros u Hu. apply Hfresh in Hu. lia.
    + intros u Hu. apply Hin in Hu. apply is_in_bounds_true in Hu. lia.
Qed.

(** What [setup_blocks] makes of a tetromino in its first state near the
    spawn origin. *)
Lemma setup_blocks_spawn (a : nat) (t0 : Tetromino) (y0 : Z) :
  rotation_index t0 = 0 → y0 = 2 ∨ y0 = 1 →
  ∃ t, setup_blocks a t0 3 y0 = Ok ((a + 4)%nat, t)
       ∧ shape t = shape t0
       ∧ rotation_index t = 0
       ∧ (x_coord t, y_coord t) = (3, y0)
       ∧ (∀ u, u ∈ square_units t → (a ≤ block_id u)%nat)
       ∧ position <$> square_units t
         = (fun v : Z * Z => (x_coord t + v.1, y_coord t + v.2))
             <$> (block_positions (shape t) !!! Z.to_nat (rotation_index t))
       ∧ NoDup (position <$> square_units t)
       ∧ (∀ u, u ∈ square_units t → is_in_bounds (bx u) (by_ u) = true).
Proof.
  destruct t0 as [s x y ri units]. cbn [rotation_index shape]. intros -> Hy.
  destruct s, Hy as [-> | ->]; eexists;
    (split; [reflexivity|]); (split; [reflexivity|]);
    (split; [reflexivity|]); (split; [reflexivity|]);
    (split;
     [ intros u Hu; cbn in Hu; repeat (apply elem_of_cons in Hu as [->|Hu]);
       [simpl; lia ..| by apply elem_of_nil in Hu]
     | split;
       [ reflexivity
       | split;
         [ apply (bool_decide_unpack _); by vm_compute
         | intros u Hu; cbn in Hu;
           repeat (apply elem_of_cons in Hu as [->|Hu]);
           [reflexivity ..| by apply elem_of_nil in Hu] ] ] ]).
Qed.

(** After a spawn that leaves a piece active, that piece is on the grid. *)
Lemma set_tetromino_piece_on_grid (p p' : Playfield) (s : Shape) :
  wf_matrix (matrix p) = true →
  ids_below (alloc p) (matrix p) = true →
  set_tetromino p (new_tetromino s) = Ok p' →
  tetromino_isactive p' = true →
  wf_matrix (matrix p') = true
  ∧ ∃ t, active_tetromino p' = Some t ∧ piece_on_grid (matrix p') t = true.
Proof.
  intros Hwf Hids Hset Hact.
  destruct (setup_blocks_spawn (alloc p) (new_tetromino s) 2)
    as (t1 & H1 & Hs1 & Hr1 & Ho1 & Hf1 & Hp1 & Hn1 & Hi1); [done|by left|].
  destruct (setup_blocks_spawn (alloc p + 4) t1 (2 - 1))
    as (t2 & H2 & Hs2 & Hr2 & Ho2 & Hf2 & Hp2 & Hn2 & Hi2); [done|by right|].
  assert (∀ t, rotation_index t = 0 →
               0 ≤ rotation_index t
               < Z.of_nat (length (block_positions (shape t)))) as Hidx.
  { intros t ->. destruct (shape t); simpl; lia. }
  destruct (set_tetromino_outcome p (new_tetromino s) t1 t2 _ _ Hwf Hids H1 H2)
    as (q & Hq & Hout); [|done..|].
  { intros u [Hu|Hu]%elem_of_app; [by apply Hf1|].
    apply Hf2 in Hu. lia. }
  rewrite Hset in Hq. injection Hq as <-.
  destruct (would_collide (matrix p) t1 0 0) as [[|]|]; [|..|done].
  - destruct (would_collide (matrix p) t2 0 0) as [[|]|]; [|..|done].
    + destruct Hout as (_ & Hf & _). congruence.
    + destruct Hout as (Ha & _ & _ & _ & Hm). rewrite Hm.
      split; [by apply wf_put_blocks|]. exists t2. split; [done|].
      apply (put_blocks_piece_on_grid (alloc p)); try done; [|by apply Hidx].
      intros u Hu. apply Hf2 in Hu. lia.
  - destruct Hout as (Ha & _ & _ & _ & Hm). rewrite Hm.
    split; [by apply wf_put_blocks|]. exists t1. split; [done|].
    apply (put_blocks_piece_on_grid (alloc p)); try done. by apply Hidx.
Qed.

Lemma block_in_translated (b' : Block) (dx dy : Z) (units : list Block) :
  block_in b' ((fun b => translate b dx dy) <$> units) = block_in b' units.
Proof.
  unfold block_in. induction units as [|b units IH]; [done|].
  rewrite fmap_cons. cbn [existsb]. by rewrite IH.
Qed.

Lemma position_translated (dx dy : Z) (units : list Block) :
  position <$> ((fun b => translate b dx dy) <$> units)
  = (fun q : Z * Z => (q.1 + dx, q.2 + dy)) <$> (position <$> units).
Proof. rewrite <- !list_fmap_compose. by apply list_fmap_ext. Qed.

(** A move by (dx, dy) that does not collide: the blocks come off the grid,
    go back on at their new positions, and the piece is on the grid again. *)
Lemma move_ok (m : Matrix) (t : Tetromino) (dx dy : Z) :
  wf_matrix m = true →
  piece_on_grid m t = true →
  would_collide m t dx dy = Ok false →
  let units' := (fun b => translate b dx dy) <$> square_units t in
  let t' := mkTetromino (shape t) (x_coord t + dx) (y_coord t + dy)
              (rotation_index t) units' in
  let m' := put_blocks (take_blocks m (square_units t)) units' in
  remove_blocks m t = Ok (take_blocks m (square_units t))
  ∧ add_to_grid (take_blocks m (square_units t)) t' = Ok m'
  ∧ wf_matrix m' = true
  ∧ piece_on_grid m' t' = true.
Proof.
  intros Hwf Hpg Hcol units' t' m'.
  pose proof (piece_on_grid_index _ _ Hpg) as Hri.
  pose proof (piece_on_grid_positions _ _ Hpg) as Hpos.
  destruct (lookup_lt_is_Some_2 (block_positions (shape t))
              (Z.to_nat (rotation_index t))) as [cur Hcur]; [lia|].
  rewrite (list_lookup_total_correct _ _ _ Hcur) in Hpos.
  destruct (states_shape (shape t) cur) as [_ Hndc];
    [by eapply list_elem_of_lookup_2|].
  assert (NoDup (position <$> square_units t)) as Hndu.
  { rewrite Hpos. by apply NoDup_translated. }
  assert (position <$> units'
          = (fun v : Z * Z => (x_coord t + dx + v.1, y_coord t + dy + v.2))
              <$> cur) as Hpos'.
  { unfold units'. rewrite position_translated, Hpos, <- list_fmap_compose.
    apply list_fmap_ext. intros _ [vx vy] _. simpl. f_equal; lia. }
  assert (NoDup (position <$> units')) as Hndu'.
  { rewrite Hpos'. by apply NoDup_translated. }
  rewrite would_collide_spec in Hcol by done. injection Hcol as Hcol.
  assert (∀ b, b ∈ square_units t →
               blocked m (square_units t) (bx b + dx) (by_ b + dy) = false)
    as Hfree.
  { intros b Hb. apply not_true_is_false. intros Hbl.
    rewrite <- not_true_iff_false, existsb_exists in Hcol. apply Hcol.
    exists b. split; [by apply list_elem_of_In|done]. }
  assert (∀ b, b ∈ square_units t → is_in_bounds (bx b) (by_ b) = true) as Hinb.
  { intros b Hb. by destruct (piece_on_grid_block m t b Hpg Hb). }
  assert (∀ b, b ∈ units' →
               is_in_bounds (bx b) (by_ b) = true
               ∧ cell_at (take_blocks m (square_units t)) (bx b) (by_ b) = None)
    as Htarget.
  { intros b' (b & -> & Hb)%list_elem_of_fmap. cbn [translate bx by_].
    specialize (Hfree b Hb).
    destruct (is_in_bounds (bx b + dx) (by_ b + dy)) eqn:Hin;
      [|unfold blocked in Hfree; by rewrite Hin in Hfree].
    split; [done|].
    rewrite blocked_in in Hfree by done.
    apply is_in_bounds_true in Hin as [Hx Hy].
    rewrite cell_at_take_blocks by (done || lia).
    case_bool_decide as Hold; [done|].
    destruct (cell_at m (bx b + dx) (by_ b + dy)) as [b'|] eqn:Hc; [|done].
    apply negb_false_iff in Hfree.
    exfalso. apply Hold. by eapply piece_on_grid_owned. }
  assert (wf_matrix m' = true) as Hwf'
    by (by apply wf_put_blocks, wf_take_blocks).
  split; [|split; [|split; [done|]]].
  - apply remove_blocks_ok; [done..|].
    intros b Hb. by apply (piece_on_grid_block m t).
  - apply add_blocks_ok; [by apply wf_take_blocks|done|done].
  - apply piece_on_grid_intro;
      cbn [shape rotation_index x_coord y_coord square_units].
    + done.
    + by rewrite (list_lookup_total_correct _ _ _ Hcur).
    + intros b Hb. destruct (Htarget b Hb) as [Hin _]. split; [done|].
      exists b. split.
      * apply cell_at_put_blocks; [by apply wf_take_blocks|done| |done].
        intros b0 Hb0. by destruct (Htarget b0 Hb0).
      * unfold block_is. apply Nat.eqb_refl.
    + intros x y b' Hx Hy Hc Hown.
      destruct (decide ((x, y) ∈ position <$> units')) as [Hel|Hel]; [done|].
      exfalso. unfold m' in Hc.
      rewrite cell_at_put_blocks_other in Hc; [|lia|lia| |done].
      * rewrite cell_at_take_blocks in Hc by (done || lia).
        case_bool_decide as Hold; [done|].
        apply Hold. eapply piece_on_grid_owned; [done..|].
        by rewrite <- (block_in_translated b' dx dy).
      * intros b0 Hb0. destruct (Htarget b0 Hb0) as [Hin0 _].
        apply is_in_bounds_true in Hin0. lia.
Qed.

(** The three shifts, when nothing is in the way, return normally and keep
    the piece on the grid. *)
Lemma shift_left_ok (m : Matrix) (t : Tetromino) :
  wf_matrix m = true → piece_on_grid m t = true →
  would_collide m t (-1) 0 = Ok false →
  ∃ m' t', shift_left m t = Ok (m', t')
           ∧ (x_coord t', y_coord t') = (x_coord t - 1, y_coord t)
           ∧ wf_matrix m' = true ∧ piece_on_grid m' t' = true.
Proof.
  intros Hwf Hpg Hcol.
  destruct (move_ok m t (-1) 0 Hwf Hpg Hcol) as (Hrem & Hadd & Hwf' & Hpg').
  replace (y_coord t + 0) with (y_coord t) in * by lia.
  unfold shift_left. rewrite Hcol, bind_Ok. cbn [negb].
  rewrite Hrem, bind_Ok.
  eexists _, _. split; [|split; [|split; [exact Hwf'|exact Hpg']]].
  - change (x_coord t - 1) with (x_coord t + -1).
    unfold block_shift_left. by rewrite Hadd.
  - cbn [x_coord y_coord]. f_equal.
Qed.

Lemma shift_right_ok (m : Matrix) (t : Tetromino) :
  wf_matrix m = true → piece_on_grid m t = true →
  would_collide m t 1 0 = Ok false →
  ∃ m' t', shift_right m t = Ok (m', t')
           ∧ (x_coord t', y_coord t') = (x_coord t + 1, y_coord t)
           ∧ wf_matrix m' = true ∧ piece_on_grid m' t' = true.
Proof.
  intros Hwf Hpg Hcol.
  destruct (move_ok m t 1 0 Hwf Hpg Hcol) as (Hrem & Hadd & Hwf' & Hpg').
  replace (y_coord t + 0) with (y_coord t) in * by lia.
  unfold shift_right. rewrite Hcol, bind_Ok. cbn [negb].
  rewrite Hrem, bind_Ok.
  eexists _, _. split; [|split; [|split; [exact Hwf'|exact Hpg']]].
  - unfold block_shift_right. by rewrite Hadd.
  - reflexivity.
Qed.

Lemma shift_down_ok (m : Matrix) (t : Tetromino) :
  wf_matrix m = true → piece_on_grid m t = true →
  is_on_ground m t = Ok false →
  ∃ m' t', shift_down m t = Ok (m', t')
           ∧ (x_coord t', y_coord t') = (x_coord t, y_coord t + 1)
           ∧ wf_matrix m' = true ∧ piece_on_grid m' t' = true.
Proof.
  intros Hwf Hpg Hcol. unfold is_on_ground in Hcol.
  destruct (move_ok m t 0 1 Hwf Hpg Hcol) as (Hrem & Hadd & Hwf' & Hpg').
  replace (x_coord t + 0) with (x_coord t) in * by lia.
  unfold shift_down. rewrite Hrem, bind_Ok.
  eexists _, _. split; [|split; [|split; [exact Hwf'|exact Hpg']]].
  - unfold block_shift_down. by rewrite Hadd.
  - reflexivity.
Qed.

(** * Further properties *)

(** ** block.py and the matrix: adding and removing blocks *)

Lemma matrix_put_put_back (m : Matrix) (x y : Z) (v : Cell) :
  wf_matrix m = true → 0 ≤ x < grid_width → 0 ≤ y < grid_height →
  matrix_put (matrix_put m x y v) x y (cell_at m x y) = m.
Proof.
  intros Hwf Hx Hy. unfold matrix_put, cell_at.
  destruct (wf_row_lookup m y Hwf Hy) as (row & Hrow & Hlen).
  rewrite Hrow. rewrite list_lookup_insert_eq by (by eapply lookup_lt_Some).
  rewrite list_insert_insert_eq.
  destruct (lookup_lt_is_Some_2 row (Z.to_nat x)) as [c Hc]; [lia|].
  rewrite Hc, list_insert_insert_eq.
  rewrite (list_insert_id row) by done. by apply list_insert_id.
Qed.

(** X1.  A block added to an empty cell inside the grid can be read back,
    and removing it again gives back the matrix as it was. *)
Theorem add_block_then_remove_block (m : Matrix) (b : Block) :
  wf_matrix m = true →
  is_in_bounds (bx b) (by_ b) = true →
  check_cell_empty m (bx b) (by_ b) = Ok true →
  ∃ m1, add_block m b = Ok m1
        ∧ get_block m1 (bx b) (by_ b) = Ok b
        ∧ check_block_position m1 b = Ok true
        ∧ remove_block m1 b = Ok m.
Proof.
  intros Hwf [Hx Hy]%is_in_bounds_true Hempty.
  assert (cell_at m (bx b) (by_ b) = None) as Hnone.
  { unfold check_cell_empty in Hempty. rewrite matrix_get_in in Hempty by done.
    rewrite bind_Ok in Hempty. injection Hempty as Hempty.
    by destruct (cell_at m (bx b) (by_ b)). }
  exists (matrix_put m (bx b) (by_ b) (Some b)).
  assert (wf_matrix (matrix_put m (bx b) (by_ b) (Some b)) = true) as Hwf1
    by (by apply wf_matrix_put).
  assert (block_is b b = true) as Hid by (unfold block_is; apply Nat.eqb_refl).
  unfold add_block, get_block, remove_block, check_block_position.
  rewrite Hempty, bind_Ok. cbn [negb].
  rewrite matrix_set_in by done.
  rewrite !matrix_get_in, !bind_Ok by done.
  rewrite cell_at_put_eq by done. rewrite Hid. cbn [negb].
  rewrite matrix_set_in by done.
  split; [done|]. split; [done|]. split; [done|].
  rewrite <- Hnone. by rewrite matrix_put_put_back.
Qed.

(** X2.  [add_block] refuses an occupied cell and [remove_block] refuses a
    block that is not the one stored at its coordinates: both raise
    [ValueError]. *)
Theorem add_and_remove_refuse (m : Matrix) (b other : Block) :
  wf_matrix m = true →
  is_in_bounds (bx b) (by_ b) = true →
  (get_block m (bx b) (by_ b) = Ok other → add_block m b = Raise ValueError)
  ∧ (get_block m (bx b) (by_ b) = Ok other → block_is b other = false →
     remove_block m b = Raise ValueError)
  ∧ (check_cell_empty m (bx b) (by_ b) = Ok true →
     remove_block m b = Raise ValueError).
Proof.
  intros Hwf [Hx Hy]%is_in_bounds_true.
  unfold get_block, add_block, remove_block, check_block_position,
    check_cell_empty.
  rewrite !matrix_get_in, !bind_Ok by done.
  destruct (cell_at m (bx b) (by_ b)) as [c|]; cbn.
  - split; [done|]. split; [|done]. intros [= ->] ->. done.
  - done.
Qed.

(** ** tetromino.py: [would_collide] and [get_rows] *)

(** X3.  On a well-formed matrix [would_collide] returns normally, and it
    returns false exactly when every block, moved by the offset, lands
    inside the grid on a cell that is empty or holds one of the piece's own
    blocks. *)
Theorem would_collide_false_iff (m : Matrix) (t : Tetromino) (dx dy : Z) :
  wf_matrix m = true →
  ∃ c, would_collide m t dx dy = Ok c
       ∧ (c = false ↔
          ∀ b, b ∈ square_units t →
               (0 ≤ bx b + dx < grid_width ∧ 0 ≤ by_ b + dy < grid_height)
               ∧ (check_cell_empty m (bx b + dx) (by_ b + dy) = Ok true
                  ∨ ∃ b', get_block m (bx b + dx) (by_ b + dy) = Ok b'
                          ∧ block_in b' (square_units t) = true)).
Proof.
  intros Hwf. rewrite would_collide_spec by done. eexists. split; [done|].
  rewrite <- not_true_iff_false, existsb_exists. split.
  - intros Hnone b Hb.
    destruct (is_in_bounds (bx b + dx) (by_ b + dy)) eqn:Hin.
    + pose proof Hin as [Hx Hy]%is_in_bounds_true. split; [done|].
      unfold check_cell_empty, get_block. rewrite matrix_get_in by done.
      rewrite !bind_Ok.
      destruct (cell_at m (bx b + dx) (by_ b + dy)) as [b'|] eqn:Hc;
        [right|by left].
      exists b'. split; [done|].
      apply not_false_iff_true. intros Hown. apply Hnone. exists b.
      split; [by apply list_elem_of_In|].
      rewrite blocked_in by done. by rewrite Hc, Hown.
    + exfalso. apply Hnone. exists b. split; [by apply list_elem_of_In|].
      unfold blocked. by rewrite Hin.
  - intros Hall (b & Hb%list_elem_of_In & Hbl).
    destruct (Hall b Hb) as ([Hx Hy] & Hfree).
    rewrite blocked_in in Hbl; [|done|by apply is_in_bounds_true].
    unfold check_cell_empty, get_block in Hfree.
    rewrite matrix_get_in, !bind_Ok in Hfree by done.
    destruct (cell_at m (bx b + dx) (by_ b + dy)) as [b'|]; [|done].
    destruct Hfree as [Hf|(b'' & [= ->] & Hown)]; [done|].
    by rewrite Hown in Hbl.
Qed.

(** X4.  [get_rows] returns the rows the blocks lie in, each once, in
    ascending order. *)
Theorem get_rows_sorted_distinct (t : Tetromino) :
  Sorted Z.le (get_rows t)
  ∧ NoDup (get_rows t)
  ∧ ∀ y, y ∈ get_rows t ↔ ∃ b, b ∈ square_units t ∧ by_ b = y.
Proof.
  split; [apply Sorted_merge_sort, _|].
  split; [apply NoDup_get_rows|apply elem_of_get_rows].
Qed.

(** ** tetromino.py: moves that are not blocked *)

Lemma replace_frame (m : Matrix) (units units' : list Block) (x y : Z) :
  wf_matrix m = true →
  (∀ b, b ∈ units → is_in_bounds (bx b) (by_ b) = true) →
  (∀ b, b ∈ units' → is_in_bounds (bx b) (by_ b) = true) →
  0 ≤ x → 0 ≤ y →
  (x, y) ∉ position <$> units → (x, y) ∉ position <$> units' →
  cell_at (put_blocks (take_blocks m units) units') x y = cell_at m x y.
Proof.
  intros Hwf Hin Hin' Hx Hy Hold Hnew.
  rewrite cell_at_put_blocks_other; [|done|done| |done].
  - rewrite cell_at_take_blocks by done. by rewrite bool_decide_eq_false_2.
  - intros b Hb. apply Hin' in Hb. apply is_in_bounds_true in Hb. lia.
Qed.

Lemma moved_in_bounds (m : Matrix) (t : Tetromino) :
  piece_on_grid m t = true →
  ∀ b, b ∈ square_units t → is_in_bounds (bx b) (by_ b) = true.
Proof. intros Hpg b Hb. by destruct (piece_on_grid_block m t b Hpg Hb). Qed.

(** X5.  A shift to the left or to the right that is not blocked returns
    normally: the origin and every block move by one column, the piece is
    on the grid again, and no cell outside the old and the new positions of
    the piece changes. *)
Theorem shift_sideways_unblocked (m : Matrix) (t : Tetromino) :
  wf_matrix m = true →
  piece_on_grid m t = true →
  (would_collide m t (-1) 0 = Ok false →
   ∃ m' t',
     shift_left m t = Ok (m', t')
     ∧ t' = mkTetromino (shape t) (x_coord t - 1) (y_coord t) (rotation_index t)
              (block_shift_left <$> square_units t)
     ∧ wf_matrix m' = true
     ∧ piece_on_grid m' t' = true
     ∧ ∀ x y, 0 ≤ x → 0 ≤ y →
              (x, y) ∉ position <$> square_units t →
              (x, y) ∉ position <$> square_units t' →
              cell_at m' x y = cell_at m x y)
  ∧ (would_collide m t 1 0 = Ok false →
     ∃ m' t',
       shift_right m t = Ok (m', t')
       ∧ t' = mkTetromino (shape t) (x_coord t + 1) (y_coord t) (rotation_index t)
                (block_shift_right <$> square_units t)
       ∧ wf_matrix m' = true
       ∧ piece_on_grid m' t' = true
       ∧ ∀ x y, 0 ≤ x → 0 ≤ y →
                (x, y) ∉ position <$> square_units t →
                (x, y) ∉ position <$> square_units t' →
                cell_at m' x y = cell_at m x y).
Proof.
  intros Hwf Hpg. split; intros Hcol.
  - destruct (move_ok m t (-1) 0 Hwf Hpg Hcol) as (Hrem & Hadd & Hwf' & Hpg').
    replace (y_coord t + 0) with (y_coord t) in * by lia.
    change (x_coord t + -1) with (x_coord t - 1) in *.
    unfold shift_left. rewrite Hcol, bind_Ok. cbn [negb].
    rewrite Hrem, bind_Ok. unfold block_shift_left. rewrite Hadd, bind_Ok.
    eexists _, _. split; [done|]. split; [done|]. split; [done|].
    split; [done|]. intros x y Hx Hy Hold Hnew.
    apply replace_frame; try done; [by apply (moved_in_bounds m t)|].
    exact (moved_in_bounds _ _ Hpg').
  - destruct (move_ok m t 1 0 Hwf Hpg Hcol) as (Hrem & Hadd & Hwf' & Hpg').
    replace (y_coord t + 0) with (y_coord t) in * by lia.
    unfold shift_right. rewrite Hcol, bind_Ok. cbn [negb].
    rewrite Hrem, bind_Ok. unfold block_shift_right. rewrite Hadd, bind_Ok.
    eexists _, _. split; [done|]. split; [done|]. split; [done|].
    split; [done|]. intros x y Hx Hy Hold Hnew.
    apply replace_frame; try done; [by apply (moved_in_bounds m t)|].
    exact (moved_in_bounds _ _ Hpg').
Qed.

(** X6.  [shift_down] carries no test of its own; when the piece is not on
    the ground it returns normally, the origin and every block move down by
    one row, the piece is on the grid again and no other cell changes. *)
Theorem shift_down_when_not_on_ground (m : Matrix) (t : Tetromino) :
  wf_matrix m = true →
  piece_on_grid m t = true →
  is_on_ground m t = Ok false →
  ∃ m' t',
    shift_down m t = Ok (m', t')
    ∧ t' = mkTetromino (shape t) (x_coord t) (y_coord t + 1) (rotation_index t)
             (block_shift_down <$> square_units t)
    ∧ wf_matrix m' = true
    ∧ piece_on_grid m' t' = true
    ∧ ∀ x y, 0 ≤ x → 0 ≤ y →
             (x, y) ∉ position <$> square_units t →
             (x, y) ∉ position <$> square_units t' →
             cell_at m' x y = cell_at m x y.
Proof.
  intros Hwf Hpg Hcol. unfold is_on_ground in Hcol.
  destruct (move_ok m t 0 1 Hwf Hpg Hcol) as (Hrem & Hadd & Hwf' & Hpg').
  replace (x_coord t + 0) with (x_coord t) in * by lia.
  unfold shift_down. rewrite Hrem, bind_Ok.
  unfold block_shift_down. rewrite Hadd, bind_Ok.
  eexists _, _. split; [done|]. split; [done|]. split; [done|].
  split; [done|]. intros x y Hx Hy Hold Hnew.
  apply replace_frame; try done; [by apply (moved_in_bounds m t)|].
  exact (moved_in_bounds _ _ Hpg').
Qed.

Lemma block_ids_rotated (x0 y0 : Z) (units : list Block) (vectors : list (Z * Z)) :
  length units = length vectors →
  block_id <$> rotated_units x0 y0 units vectors = block_id <$> units.
Proof.
  unfold rotated_units. revert vectors.
  induction units as [|b units IH]; intros [|v vectors] Hlen; try done.
  simpl. f_equal. apply IH. simpl in Hlen. lia.
Qed.

(** X7.  A rotation by one step that is not blocked returns normally: the
    origin stays, the rotation index moves by one step round the table of
    states, the same blocks sit at origin + vector for the vectors of the
    new state, the piece is on the grid again and no cell outside its old
    and new positions changes. *)
Theorem rotate_unblocked (m : Matrix) (t : Tetromino) (dr : Z) :
  wf_matrix m = true →
  piece_on_grid m t = true →
  dr = 1 ∨ dr = -1 →
  can_rotate m t dr = Ok true →
  ∃ m' t',
    rotate m t dr = Ok (m', t')
    ∧ (shape t', x_coord t', y_coord t') = (shape t, x_coord t, y_coord t)
    ∧ rotation_index t'
      = (rotation_index t + dr)
        `mod` Z.of_nat (length (block_positions (shape t)))
    ∧ block_id <$> square_units t' = block_id <$> square_units t
    ∧ wf_matrix m' = true
    ∧ piece_on_grid m' t' = true
    ∧ ∀ x y, 0 ≤ x → 0 ≤ y →
             (x, y) ∉ position <$> square_units t →
             (x, y) ∉ position <$> square_units t' →
             cell_at m' x y = cell_at m x y.
Proof.
  intros Hwf Hpg Hdr Hcan.
  pose proof (piece_on_grid_index _ _ Hpg) as Hri.
  destruct (decide (shape t = ShapeO)) as [HO|HO].
  { exists m, t. unfold rotate. rewrite HO. split; [done|]. split; [done|].
    rewrite HO in Hri. cbn in Hri |- *. rewrite Z.mod_1_r.
    split; [lia|]. done. }
  set (n := Z.of_nat (length (block_positions (shape t)))) in *.
  destruct (lookup_lt_is_Some_2 (block_positions (shape t))
              (Z.to_nat ((rotation_index t + dr) `mod` n))) as [vectors Hvec].
  { pose proof (Z.mod_pos_bound (rotation_index t + dr) n). lia. }
  destruct (Tetromino_rotate_ok m t dr vectors Hwf Hpg Hdr Hvec Hcan)
    as (Hrot & Hwf' & Hpg').
  fold n in Hrot, Hpg'.
  assert (length (square_units t) = length vectors) as Hlen.
  { pose proof (piece_on_grid_positions _ _ Hpg) as Hpos.
    destruct (lookup_lt_is_Some_2 (block_positions (shape t))
                (Z.to_nat (rotation_index t))) as [cur Hcur]; [lia|].
    rewrite (list_lookup_total_correct _ _ _ Hcur) in Hpos.
    destruct (states_shape (shape t) cur) as [Hlc _];
      [by eapply list_elem_of_lookup_2|].
    destruct (states_shape (shape t) vectors) as [Hlv _];
      [by eapply list_elem_of_lookup_2|].
    rewrite <- (length_fmap position), Hpos, length_fmap. lia. }
  eexists _, _. split; [by rewrite rotate_base|].
  cbn [shape x_coord y_coord rotation_index square_units].
  split; [done|]. split; [done|].
  split; [by apply block_ids_rotated|]. split; [done|]. split; [done|].
  intros x y Hx Hy Hold Hnew.
  apply replace_frame; try done; [by apply (moved_in_bounds m t)|].
  exact (moved_in_bounds _ _ Hpg').
Qed.

Lemma add_block_then_remove_block_witness :
  ∃ m1, add_block free_matrix (mkBlock 20 RED 7 7) = Ok m1
        ∧ get_block m1 7 7 = Ok (mkBlock 20 RED 7 7)
        ∧ check_block_position m1 (mkBlock 20 RED 7 7) = Ok true
        ∧ remove_block m1 (mkBlock 20 RED 7 7) = Ok free_matrix.
Proof.
  apply (add_block_then_remove_block free_matrix (mkBlock 20 RED 7 7));
    reflexivity.
Defined.

Lemma add_and_remove_refuse_witness :
  add_block free_matrix (mkBlock 20 RED 0 21) = Raise ValueError
  ∧ remove_block free_matrix (mkBlock 20 RED 0 21) = Raise ValueError
  ∧ remove_block free_matrix (mkBlock 20 RED 7 7) = Raise ValueError.
Proof.
  destruct (add_and_remove_refuse free_matrix (mkBlock 20 RED 0 21)
              (mkBlock 9 RED 0 21) eq_refl eq_refl) as (Hadd & Hrem & _).
  destruct (add_and_remove_refuse free_matrix (mkBlock 20 RED 7 7)
              (mkBlock 9 RED 0 21) eq_refl eq_refl) as (_ & _ & Hempty).
  split; [|split].
  - apply Hadd. reflexivity.
  - apply Hrem; reflexivity.
  - apply Hempty. reflexivity.
Defined.

Lemma would_collide_false_iff_witness :
  ∃ c, would_collide free_matrix free_piece 0 1 = Ok c
       ∧ (c = false ↔
          ∀ b, b ∈ square_units free_piece →
               (0 ≤ bx b + 0 < grid_width ∧ 0 ≤ by_ b + 1 < grid_height)
               ∧ (check_cell_empty free_matrix (bx b + 0) (by_ b + 1) = Ok true
                  ∨ ∃ b', get_block free_matrix (bx b + 0) (by_ b + 1) = Ok b'
                          ∧ block_in b' (square_units free_piece) = true)).
Proof. apply (would_collide_false_iff free_matrix free_piece 0 1). reflexivity. Defined.

Lemma shift_sideways_unblocked_witness :
  (∃ m' t', shift_left free_matrix free_piece = Ok (m', t')
            ∧ x_coord t' = 2 ∧ piece_on_grid m' t' = true)
  ∧ (∃ m' t', shift_right free_matrix free_piece = Ok (m', t')
              ∧ x_coord t' = 4 ∧ piece_on_grid m' t' = true).
Proof.
  destruct (shift_sideways_unblocked free_matrix free_piece eq_refl eq_refl)
    as [Hleft Hright].
  split.
  - destruct (Hleft eq_refl) as (m' & t' & Hs & Ht & _ & Hpg & _).
    exists m', t'. split; [exact Hs|]. split; [by rewrite Ht|exact Hpg].
  - destruct (Hright eq_refl) as (m' & t' & Hs & Ht & _ & Hpg & _).
    exists m', t'. split; [exact Hs|]. split; [by rewrite Ht|exact Hpg].
Defined.

Lemma shift_down_when_not_on_ground_witness :
  ∃ m' t', shift_down free_matrix free_piece = Ok (m', t')
           ∧ y_coord t' = 6 ∧ piece_on_grid m' t' = true.
Proof.
  destruct (shift_down_when_not_on_ground free_matrix free_piece
              eq_refl eq_refl eq_refl) as (m' & t' & Hs & Ht & _ & Hpg & _).
  exists m', t'. split; [exact Hs|]. split; [by rewrite Ht|exact Hpg].
Defined.

Lemma rotate_unblocked_witness :
  ∃ m' t', rotate free_matrix free_piece (-1) = Ok (m', t')
           ∧ rotation_index t' = 3 ∧ piece_on_grid m' t' = true.
Proof.
  destruct (rotate_unblocked free_matrix free_piece (-1) eq_refl eq_refl
              (or_intror eq_refl) eq_refl)
    as (m' & t' & Hr & _ & Hi & _ & _ & Hpg & _).
  exists m', t'. split; [exact Hr|]. split; [exact Hi|exact Hpg].
Defined.

(** ** tetromino.py: [shift_down] on a piece that cannot move down *)




(** ** level_panel.py, score_panel.py, game_interface_model.py: counting lines *)

Lemma update_level_fold (l : list Z) (mo : GameInterfaceModel) :
  1 ≤ lines_left mo ≤ lines_to_level →
  fold_left (fun acc _ => update_level_step acc) l mo
  = mkModel (level mo + (lines_to_level - lines_left mo + Z.of_nat (length l))
                        `div` lines_to_level)
            (lines_to_level
             - (lines_to_level - lines_left mo + Z.of_nat (length l))
               `mod` lines_to_level)
            (lines mo) (score mo).
Proof.
  unfold lines_to_level. revert mo.
  induction l as [|x l IH]; intros mo Hleft.
  - cbn [fold_left length]. rewrite Z.add_0_r.
    rewrite Z.div_small, Z.mod_small by lia.
    destruct mo; simpl in *. f_equal; lia.
  - cbn [fold_left]. unfold update_level_step at 2. unfold lines_to_level.
    destruct (lines_left mo - 1 =? 0) eqn:E.
    + apply Z.eqb_eq in E. rewrite IH by (simpl; lia). simpl length.
      cbn [level lines_left lines score].
      replace (10 - lines_left mo + Z.of_nat (S (length l)))
        with (Z.of_nat (length l) + 1 * 10) by lia.
      rewrite Z.div_add, Z.mod_add by lia.
      replace (10 - 10 + Z.of_nat (length l)) with (Z.of_nat (length l)) by lia.
      f_equal; lia.
    + apply Z.eqb_neq in E. rewrite IH by (simpl; lia). simpl length.
      cbn [level lines_left lines score].
      replace (10 - (lines_left mo - 1) + Z.of_nat (length l))
        with (10 - lines_left mo + Z.of_nat (S (length l))) by lia.
      done.
Qed.

Lemma length_py_range (a b : Z) : length (py_range a b) = Z.to_nat (b - a).
Proof. unfold py_range. by rewrite length_fmap, length_seq. Qed.

(** X9.  One call of [increase_lines(n)], in closed form: the lines total grows
    by [n]; the score grows by the table value of [n] (40, 100, 300 and 1200
    for one to four lines, nothing otherwise) times the level before the
    call; the level grows by one for every ten lines counted down, and the
    count-down stays between 1 and 10. *)
Theorem increase_lines_closed_form (mo : GameInterfaceModel) (n : Z) :
  0 ≤ n →
  1 ≤ lines_left mo ≤ 10 →
  increase_lines mo n
  = mkModel (level mo + (10 - lines_left mo + n) `div` 10)
            (10 - (10 - lines_left mo + n) `mod` 10)
            (lines mo + n)
            (score mo
             + (if n =? 1 then 40 else if n =? 2 then 100
                else if n =? 3 then 300 else if n =? 4 then 1200 else 0)
               * level mo).
Proof.
  intros Hn Hleft. unfold increase_lines, update_level.
  rewrite update_level_fold by done.
  rewrite length_py_range. unfold lines_to_level.
  cbn [score_lines add_lines_cleared level lines_left lines score].
  replace (Z.of_nat (Z.to_nat (n - 0))) with n by lia. done.
Qed.

Lemma increase_lines_closed_form_witness :
  increase_lines (mkModel 3 2 28 5000) 4 = mkModel 4 8 32 8600.
Proof.
  etrans; [apply (increase_lines_closed_form (mkModel 3 2 28 5000) 4);
           simpl; lia|].
  reflexivity.
Defined.

(** X10.  Over a whole game: after any sequence of line clears counted from the
    initial model, the lines total is the sum of the clears, the level is one
    more than the number of complete tens of lines, and the count-down to the
    next level is what is left of the current ten. *)
Theorem level_follows_lines (clears : list Z) :
  Forall (fun n => 0 ≤ n) clears →
  let mo := fold_left increase_lines clears initial_model in
  lines mo = foldr Z.add 0 clears
  ∧ level mo = 1 + lines mo `div` 10
  ∧ lines_left mo = 10 - lines mo `mod` 10.
Proof.
  intros Hall.
  assert (∀ mo0,
            0 ≤ lines mo0 →
            level mo0 = 1 + lines mo0 `div` 10 →
            lines_left mo0 = 10 - lines mo0 `mod` 10 →
            let mo := fold_left increase_lines clears mo0 in
            lines mo = lines mo0 + foldr Z.add 0 clears
            ∧ level mo = 1 + lines mo `div` 10
            ∧ lines_left mo = 10 - lines mo `mod` 10) as Hgen.
  { induction Hall as [|n clears Hn Hall IH]; intros mo0 H0 Hlev Hleft.
    - simpl. split; [lia|done].
    - cbn [fold_left foldr].
      pose proof (Z.mod_pos_bound (lines mo0) 10 ltac:(lia)) as Hmod.
      rewrite increase_lines_closed_form by lia.
      rewrite Hleft.
      replace (10 - (10 - lines mo0 `mod` 10) + n)
        with (lines mo0 `mod` 10 + n) by lia.
      assert ((lines mo0 + n) `div` 10
              = lines mo0 `div` 10 + (lines mo0 `mod` 10 + n) `div` 10) as Hdiv.
      { rewrite (Z.div_mod (lines mo0) 10) at 1 by lia.
        replace (10 * lines mo0 `div` 10 + lines mo0 `mod` 10 + n)
          with ((lines mo0 `mod` 10 + n) + lines mo0 `div` 10 * 10) by lia.
        rewrite Z.div_add by lia. lia. }
      assert ((lines mo0 + n) `mod` 10 = (lines mo0 `mod` 10 + n) `mod` 10) as Hm.
      { rewrite (Z.div_mod (lines mo0) 10) at 1 by lia.
        replace (10 * lines mo0 `div` 10 + lines mo0 `mod` 10 + n)
          with ((lines mo0 `mod` 10 + n) + lines mo0 `div` 10 * 10) by lia.
        by rewrite Z.mod_add by lia. }
      edestruct IH as (Hl & Hv & Hc); [| | |split; [|split]].
      4: { rewrite Hl. cbn [lines]. lia. }
      4: exact Hv. 4: exact Hc.
      + cbn [lines]. lia.
      + cbn [level lines]. lia.
      + cbn [lines_left lines]. lia. }
  destruct (Hgen initial_model) as (Hl & Hv & Hc); [done..|].
  split; [|done]. rewrite Hl. done.
Qed.

Lemma level_follows_lines_witness :
  let mo := fold_left increase_lines [4; 1; 3; 4; 2] initial_model in
  lines mo = foldr Z.add 0 [4; 1; 3; 4; 2]
  ∧ level mo = 1 + lines mo `div` 10
  ∧ lines_left mo = 10 - lines mo `mod` 10.
Proof.
  apply (level_follows_lines [4; 1; 3; 4; 2]).
  repeat constructor; lia.
Defined.

(** ** score_panel.py: the list of high scores *)

Lemma foldl_min_spec (rest : list Z) (x : Z) :
  foldl Z.min x rest ∈ x :: rest ∧ ∀ y, y ∈ x :: rest → foldl Z.min x rest ≤ y.
Proof.
  revert x. induction rest as [|z rest IH]; intros x.
  - simpl. split; [by left|]. intros y ->%list_elem_of_singleton. lia.
  - cbn [foldl]. destruct (IH (Z.min x z)) as [Hin Hle]. split.
    + apply elem_of_cons in Hin as [->|Hin].
      * destruct (Z.min_spec x z) as [[_ ->]|[_ ->]]; [by left|right; by left].
      * right. by right.
    + intros y Hy. pose proof (Hle (Z.min x z) ltac:(by left)) as Hm.
      apply elem_of_cons in Hy as [->|[->|Hy]%elem_of_cons]; [lia|lia|].
      apply Hle. by right.
Qed.

Lemma foldl_max_spec (rest : list Z) (x : Z) :
  foldl Z.max x rest ∈ x :: rest ∧ ∀ y, y ∈ x :: rest → y ≤ foldl Z.max x rest.
Proof.
  revert x. induction rest as [|z rest IH]; intros x.
  - simpl. split; [by left|]. intros y ->%list_elem_of_singleton. lia.
  - cbn [foldl]. destruct (IH (Z.max x z)) as [Hin Hle]. split.
    + apply elem_of_cons in Hin as [->|Hin].
      * destruct (Z.max_spec x z) as [[_ ->]|[_ ->]]; [right; by left|by left].
      * right. by right.
    + intros y Hy. pose proof (Hle (Z.max x z) ltac:(by left)) as Hm.
      apply elem_of_cons in Hy as [->|[->|Hy]%elem_of_cons]; [lia|lia|].
      apply Hle. by right.
Qed.

Lemma py_min_spec (l : list Z) :
  l ≠ [] → ∃ lo, py_min l = Ok lo ∧ lo ∈ l ∧ ∀ y, y ∈ l → lo ≤ y.
Proof.
  destruct l as [|x rest]; [done|]. intros _. eexists. split; [done|].
  apply foldl_min_spec.
Qed.

Lemma py_max_spec (l : list Z) :
  l ≠ [] → ∃ hi, py_max l = Ok hi ∧ hi ∈ l ∧ ∀ y, y ∈ l → y ≤ hi.
Proof.
  destruct l as [|x rest]; [done|]. intros _. eexists. split; [done|].
  apply foldl_max_spec.
Qed.

Lemma py_max_unique (l : list Z) (h : Z) :
  h ∈ l → (∀ y, y ∈ l → y ≤ h) → py_max l = Ok h.
Proof.
  intros Hin Hle. destruct (py_max_spec l) as (hi & -> & Hhi & Hall).
  { intros ->. by apply elem_of_nil in Hin. }
  f_equal. apply Hall in Hin. apply Hle in Hhi. lia.
Qed.

Lemma flip_le_total : Total (flip Z.le).
Proof. intros x y. unfold flip. lia. Qed.

Lemma flip_le_transitive : Transitive (flip Z.le).
Proof. intros x y z. unfold flip. lia. Qed.

Lemma update_scores_spec (score : Z) (scores_list : list Z) :
  scores_list ≠ [] →
  ∃ lowest highest stored,
    py_min scores_list = Ok lowest
    ∧ set_high_score scores_list = Ok highest
    ∧ update_scores score scores_list = Ok stored
    ∧ (score ≤ lowest → stored = scores_list)
    ∧ (lowest < score →
       Sorted (flip Z.le) stored
       ∧ lowest :: stored ≡ₚ score :: scores_list)
    ∧ length stored = length scores_list
    ∧ set_high_score stored = Ok (Z.max score highest).
Proof.
  intros Hne.
  destruct (py_min_spec _ Hne) as (lo & Hmin & Hlo & Hlow).
  destruct (py_max_spec _ Hne) as (hi & Hmax & Hhi & Hhigh).
  exists lo, hi. unfold update_scores, set_high_score. rewrite Hmin, bind_Ok.
  destruct (score >? lo) eqn:Hcmp; cbn [negb].
  2: { exists scores_list. rewrite Z.gtb_ltb in Hcmp. apply Z.ltb_ge in Hcmp.
       split; [done|]. split; [done|]. split; [done|]. split; [done|].
       split; [lia|]. split; [done|].
       pose proof (Hlow hi Hhi). by rewrite Z.max_r by lia. }
  rewrite Z.gtb_ltb in Hcmp. apply Z.ltb_lt in Hcmp.
  pose proof (merge_sort_Permutation (flip Z.le) scores_list) as Hperm.
  pose proof (@StronglySorted_merge_sort _ (flip Z.le) _ flip_le_transitive
                flip_le_total scores_list) as Hsorted.
  fold (sort_reverse scores_list) in Hperm, Hsorted.
  destruct (exists_last (l := sort_reverse scores_list)) as (init & z & Hs).
  { intros Hnil. rewrite Hnil in Hperm. apply Permutation_nil_l in Hperm.
    by subst. }
  rewrite Hs in Hperm, Hsorted |- *.
  assert (z = lo) as ->.
  { assert (z ∈ scores_list) as Hz.
    { rewrite <- Hperm. apply elem_of_app. right. by left. }
    pose proof (Hlow z Hz).
    assert (lo ∈ init ++ [z]) as Hel by (by rewrite Hperm).
    apply elem_of_app in Hel as [Hi|Hi]; [|by apply list_elem_of_singleton in Hi].
    pose proof (StronglySorted_app_1_elem_of _ _ _ lo z Hsorted Hi
                  ltac:(by left)) as Hzl.
    unfold flip in Hzl. lia. }
  rewrite length_app. cbn [length].
  rewrite setitem_nonneg by (rewrite length_app; simpl; lia).
  rewrite bind_Ok.
  replace (Z.to_nat (Z.of_nat (length init + 1) - 1)) with (length init + 0)%nat
    by lia.
  rewrite insert_app_r. cbn [insert list_insert].
  set (stored := sort_reverse (init ++ [score])).
  assert (stored ≡ₚ init ++ [score]) as Hst by apply merge_sort_Permutation.
  exists stored. split; [done|]. split; [done|]. split; [done|].
  split; [lia|]. split; [|split].
  - intros _. split; [apply Sorted_merge_sort, flip_le_total|].
    rewrite Hst, <- Hperm.
    rewrite <- !Permutation_cons_append. apply perm_swap.
  - rewrite Hst, <- Hperm, !length_app. done.
  - apply py_max_unique.
    + rewrite Hst. destruct (Z.max_spec score hi) as [[Hlt ->]|[_ ->]].
      * assert (hi ∈ init ++ [lo]) as Hel by (by rewrite Hperm).
        apply elem_of_app in Hel as [Hi|Hi];
          [|apply list_elem_of_singleton in Hi; lia].
        apply elem_of_app. by left.
      * apply elem_of_app. right. by left.
    + intros y Hy. rewrite Hst in Hy.
      apply elem_of_app in Hy as [Hy|Hy];
        [|apply list_elem_of_singleton in Hy; lia].
      assert (y ≤ hi); [|lia]. apply Hhigh. rewrite <- Hperm.
      apply elem_of_app. by left.
Qed.

(** X11.  [update_scores] and the [set_high_score] of the next game.  On an empty
    list of stored scores the call raises ValueError.  Otherwise it returns:
    a score that does not beat the lowest stored one leaves the list as it
    is; a score that does takes the place of one lowest entry, and the list
    is stored in descending order.  The list keeps its length, and the high
    score read back from it is the larger of the score and the old high
    score. *)
Theorem update_scores_keeps_the_best (score : Z) (scores_list : list Z) :
  update_scores score [] = Raise ValueError
  ∧ (scores_list ≠ [] →
     ∃ lowest highest stored,
       py_min scores_list = Ok lowest
       ∧ set_high_score scores_list = Ok highest
       ∧ update_scores score scores_list = Ok stored
       ∧ (score ≤ lowest → stored = scores_list)
       ∧ (lowest < score →
          Sorted (flip Z.le) stored
          ∧ lowest :: stored ≡ₚ score :: scores_list)
       ∧ length stored = length scores_list
       ∧ set_high_score stored = Ok (Z.max score highest)).
Proof. split; [done|]. apply update_scores_spec. Qed.

Lemma update_scores_keeps_the_best_witness :
  ∃ lowest highest stored,
    py_min [300; 1200; 40; 700] = Ok lowest
    ∧ set_high_score [300; 1200; 40; 700] = Ok highest
    ∧ update_scores 900 [300; 1200; 40; 700] = Ok stored
    ∧ (900 ≤ lowest → stored = [300; 1200; 40; 700])
    ∧ (lowest < 900 →
       Sorted (flip Z.le) stored
       ∧ lowest :: stored ≡ₚ 900 :: [300; 1200; 40; 700])
    ∧ length stored = length [300; 1200; 40; 700]
    ∧ set_high_score stored = Ok (Z.max 900 highest).
Proof.
  apply (proj2 (update_scores_keeps_the_best 900 [300; 1200; 40; 700])).
  discriminate.
Defined.

(** ** playfield.py: the empty grid and the shift after a line clear *)

Lemma row_is_empty_lookup (m : Matrix) (y : Z) (row : Row) :
  wf_matrix m = true → m !! Z.to_nat y = Some row →
  row_is_empty m y = true → row = empty_row.
Proof.
  intros Hwf Hrow He. unfold row_is_empty in He. rewrite Hrow in He.
  rewrite (all_none_replicate row He).
  by rewrite (wf_matrix_row m _ row Hwf Hrow).
Qed.

(** X12.  [check_grid_empty] answers True for the matrix the constructor builds and
    for no other. *)
Theorem check_grid_empty_iff (m : Matrix) :
  wf_matrix m = true →
  ∃ e, check_grid_empty m = Ok e ∧ (e = true ↔ m = empty_matrix).
Proof.
  intros Hwf. pose proof (wf_matrix_length _ Hwf) as Hlen.
  assert (∀ n a, 0 ≤ a → a + Z.of_nat n ≤ grid_height →
            ∃ e, all_rows_empty m (py_range a (a + Z.of_nat n)) = Ok e
                 ∧ (e = true ↔
                    ∀ y, a ≤ y < a + Z.of_nat n → row_is_empty m y = true))
    as Hloop.
  { induction n as [|n IH]; intros a Ha Han.
    - rewrite Z.add_0_r, py_range_nil. exists true. split; [done|].
      split; [intros; lia|done].
    - rewrite py_range_cons by lia. cbn [all_rows_empty].
      rewrite check_row_empty_in by (done || lia). rewrite bind_Ok.
      destruct (row_is_empty m a) eqn:Ea; cbn [negb].
      + replace (a + Z.of_nat (S n)) with (a + 1 + Z.of_nat n) by lia.
        destruct (IH (a + 1)) as (e & He & Hall); [lia..|].
        exists e. split; [done|]. rewrite Hall. split.
        * intros H y Hy. destruct (decide (y = a)) as [->|]; [done|].
          apply H. lia.
        * intros H y Hy. apply H. lia.
      + exists false. split; [done|]. split; [done|].
        intros H. rewrite H in Ea by lia. done. }
  destruct (Hloop (Z.to_nat grid_height) 0) as (e & He & Hall);
    [done|unfold grid_height; lia|].
  exists e. split; [exact He|]. rewrite Hall. split.
  - intros H. apply list_eq. intros i.
    destruct (decide (i < Z.to_nat grid_height)%nat) as [Hi|Hi].
    + destruct (lookup_lt_is_Some_2 m i) as [row Hrow]; [lia|].
      rewrite Hrow. unfold empty_matrix. rewrite lookup_replicate_2 by done.
      f_equal. apply (row_is_empty_lookup m (Z.of_nat i)); [done| |].
      * by rewrite Nat2Z.id.
      * apply H. unfold grid_height in *. lia.
    + rewrite !lookup_ge_None_2; [done| |lia].
      unfold empty_matrix. rewrite length_replicate. lia.
  - intros -> y Hy. unfold row_is_empty, empty_matrix.
    rewrite lookup_replicate_2 by (unfold grid_height in *; lia). done.
Qed.

Lemma check_grid_empty_iff_witness :
  ∃ e, check_grid_empty corner_matrix = Ok e
       ∧ (e = true ↔ corner_matrix = empty_matrix).
Proof. apply (check_grid_empty_iff corner_matrix). reflexivity. Defined.

Lemma matrix_eq_rows (m m' : Matrix) :
  length m = Z.to_nat grid_height → length m' = Z.to_nat grid_height →
  (∀ y, 0 ≤ y < grid_height → row_at m' y = row_at m y) → m' = m.
Proof.
  intros Hl Hl' Hrows. apply list_eq. intros i.
  destruct (decide (i < Z.to_nat grid_height)%nat) as [Hi|Hi].
  - specialize (Hrows (Z.of_nat i) ltac:(unfold grid_height in *; lia)).
    unfold row_at in Hrows. by rewrite Nat2Z.id in Hrows.
  - rewrite !lookup_ge_None_2; [done|lia..].
Qed.

(** X13.  The line clear as the game means it.  When row [r] has been emptied and
    some row above it still holds a block, [shift_rows_down([r])] takes row
    [r] out of the matrix and puts an empty row on top: every row above [r]
    moves down by one and every row below [r] stays. *)
Theorem shift_rows_down_removes_the_row (m : Matrix) (r top : Z) :
  wf_matrix m = true →
  0 ≤ r < grid_height →
  row_is_empty m r = true →
  0 ≤ top < r → row_is_empty m top = false →
  shift_rows_down m [r]
  = Ok (empty_row :: take (Z.to_nat r) m ++ drop (S (Z.to_nat r)) m).
Proof.
  intros Hwf Hr Hempty Htop Hfilled.
  pose proof (wf_matrix_length _ Hwf) as Hlen.
  unfold shift_rows_down.
  destruct (check_grid_empty_spec m Hwf) as (e & -> & Hall).
  rewrite bind_Ok. destruct e.
  { rewrite Hall in Hfilled by (done || lia). done. }
  change (py_range 0 (Z.of_nat (length [r]))) with [0].
  cbn [shift_rows_outer].
  destruct (get_top_block_row_spec m Hwf) as (s & -> & Hs).
  rewrite bind_Ok. change (getitem [r] 0) with (Ok r). rewrite bind_Ok.
  destruct Hs as [[-> Habove]|(Hs & Hne & Habove)].
  { rewrite Habove in Hfilled by (unfold grid_height in *; lia). done. }
  assert (s ≤ top) as Hst.
  { destruct (decide (s ≤ top)); [done|].
    rewrite Habove in Hfilled by lia. done. }
  destruct (getitem_nonneg m s) as (temp & Htemp & ->);
    [rewrite Hlen; unfold grid_height in *; lia|].
  rewrite bind_Ok. unfold clear_row.
  rewrite setitem_nonneg by (rewrite Hlen; unfold grid_height in *; lia).
  rewrite bind_Ok.
  assert (py_range s r = py_range s (s + Z.of_nat (Z.to_nat (r - s))))
    as -> by (f_equal; lia).
  destruct (shift_rows_inner_spec (Z.to_nat (r - s))
              (<[Z.to_nat s := empty_row]> m) temp s)
    as (m2 & -> & Hlen2 & Hfirst & Hmid & Hout);
    [lia | rewrite length_insert, Hlen; unfold grid_height in *; lia |].
  rewrite bind_Ok. rewrite length_insert in Hlen2. f_equal.
  apply matrix_eq_rows.
  { cbn [length]. rewrite length_app, length_take, length_drop, Hlen.
    unfold grid_height in *. lia. }
  { by rewrite Hlen2. }
  intros y Hy. unfold row_at at 2.
  destruct (decide (y = 0)) as [->|Hy0].
  { (* the top row *)
    cbn [lookup list_lookup Z.to_nat].
    destruct (decide (s = 0)) as [->|Hs0].
    - rewrite Hout by lia. apply row_at_insert_eq. lia.
    - rewrite Hout by lia. rewrite row_at_insert_ne by lia.
      apply empty_row_at; [done|unfold grid_height in *; lia|].
      apply Habove. lia. }
  rewrite lookup_cons_ne_0 by lia.
  replace (Nat.pred (Z.to_nat y)) with (Z.to_nat (y - 1)) by lia.
  destruct (decide (y ≤ r)) as [Hyr|Hyr].
  - (* rows down to [r]: what stood one row higher *)
    rewrite lookup_app_l by (rewrite length_take; lia).
    rewrite lookup_take_lt by lia.
    change (m !! Z.to_nat (y - 1)) with (row_at m (y - 1)).
    destruct (decide (s < y - 1)) as [Hsy|Hsy];
      [|destruct (decide (y - 1 = s)) as [Hys|Hys]].
    + replace y with (y - 1 + 1) at 1 by lia.
      rewrite Hmid by lia. apply row_at_insert_ne; lia.
    + replace y with (s + 1) by lia. rewrite Hfirst by lia.
      replace (s + 1 - 1) with s by lia. done.
    + rewrite Hout by lia.
      rewrite (empty_row_at m (y - 1))
        by (done || (unfold grid_height in *; lia) || (apply Habove; lia)).
      destruct (decide (y = s)) as [->|Hne'].
      * apply row_at_insert_eq. lia.
      * rewrite row_at_insert_ne by lia.
        apply empty_row_at; [done|lia|]. apply Habove. lia.
  - (* rows below [r]: as they were *)
    rewrite lookup_app_r by (rewrite length_take; lia).
    rewrite length_take, lookup_drop.
    replace (S (Z.to_nat r) + (Z.to_nat (y - 1) - Z.to_nat r `min` length m))%nat
      with (Z.to_nat y) by lia.
    rewrite Hout by lia. apply row_at_insert_ne; lia.
Qed.

Lemma shift_rows_down_removes_the_row_witness :
  shift_rows_down split_matrix [19]
  = Ok (empty_row :: take (Z.to_nat 19) split_matrix
          ++ drop (S (Z.to_nat 19)) split_matrix).
Proof.
  apply (shift_rows_down_removes_the_row split_matrix 19 18);
    [reflexivity | unfold grid_height; lia | reflexivity | lia | reflexivity].
Defined.

(** X14.  The same call when no row above [r] holds a block but a row below it
    does: [get_top_block_row] then answers with a row [s] below [r], the
    shift empties row [s] and moves nothing, and the blocks of row [s] are
    gone. *)
Theorem shift_rows_down_empties_a_lower_row (m : Matrix) (r s : Z) :
  wf_matrix m = true →
  0 ≤ r →
  get_top_block_row m = Ok s →
  r < s →
  shift_rows_down m [r] = Ok (<[Z.to_nat s := empty_row]> m)
  ∧ row_is_empty m s = false
  ∧ row_at (<[Z.to_nat s := empty_row]> m) s = Some empty_row.
Proof.
  intros Hwf Hr Htop Hrs.
  pose proof (wf_matrix_length _ Hwf) as Hlen.
  destruct (get_top_block_row_spec m Hwf) as (s' & Hs' & Hs).
  rewrite Htop in Hs'. injection Hs' as <-.
  destruct Hs as [[-> _]|(Hs & Hne & Habove)]; [lia|].
  split; [|split; [done|apply row_at_insert_eq; rewrite Hlen; unfold grid_height in *; lia]].
  unfold shift_rows_down.
  destruct (check_grid_empty_spec m Hwf) as (e & -> & Hall).
  rewrite bind_Ok. destruct e.
  { rewrite Hall in Hne by (done || unfold grid_height in *; lia). done. }
  change (py_range 0 (Z.of_nat (length [r]))) with [0].
  cbn [shift_rows_outer]. rewrite Htop, bind_Ok.
  change (getitem [r] 0) with (Ok r). rewrite bind_Ok.
  destruct (getitem_nonneg m s) as (temp & Htemp & ->);
    [rewrite Hlen; unfold grid_height in *; lia|].
  rewrite bind_Ok. unfold clear_row.
  rewrite setitem_nonneg by (rewrite Hlen; unfold grid_height in *; lia).
  rewrite bind_Ok, py_range_empty by lia. done.
Qed.

Lemma shift_rows_down_empties_a_lower_row_witness :
  shift_rows_down low_matrix [19] = Ok (<[Z.to_nat 20 := empty_row]> low_matrix)
  ∧ row_is_empty low_matrix 20 = false
  ∧ row_at (<[Z.to_nat 20 := empty_row]> low_matrix) 20 = Some empty_row.
Proof.
  apply (shift_rows_down_empties_a_lower_row low_matrix 19 20);
    [reflexivity | lia | reflexivity | lia].
Defined.

(** ** tetromino.py: how long a shape can stay away *)

Section Drought.
Variable shuffle : nat → list Shape → list Shape.
Hypothesis shuffle_perm : ∀ k l, shuffle k l ≡ₚ l.

Lemma take_prefix (a b : nat) (g : RandomGenerator) (l : list Shape) :
  random_generator_take shuffle 1 (a + b) g = Some l →
  random_generator_take shuffle 1 a g = Some (take a l).
Proof.
  revert g l. induction a as [|a IH]; intros g l H; [done|].
  cbn [Nat.add random_generator_take] in H |- *.
  destruct (random_generator_next shuffle 1 g) as [[s g']|]; [|done].
  destruct (random_generator_take shuffle 1 (a + b) g') as [l'|] eqn:Hl';
    [|done].
  injection H as <-. by rewrite (IH _ _ Hl').
Qed.

Lemma take_all_bags (k : nat) :
  random_generator_take shuffle 1 (7 * k) new_random_generator
  = Some (bags shuffle 0 k).
Proof.
  pose proof (take_bags shuffle shuffle_perm k 0 0) as H.
  rewrite Nat.add_0_r in H. unfold new_random_generator. rewrite H.
  simpl. by rewrite app_nil_r.
Qed.

Lemma bags_split (j k : nat) :
  bags shuffle 0 (j + S k)
  = bags shuffle 0 j ++ shuffle j get_tetromino_set ++ bags shuffle (S j) k.
Proof.
  unfold bags. rewrite seq_app, fmap_app, concat_app. done.
Qed.

Lemma shape_in_bag (j : nat) (s : Shape) : s ∈ shuffle j get_tetromino_set.
Proof.
  rewrite shuffle_perm. apply list_elem_of_In. destruct s; simpl; tauto.
Qed.

(** X15.  Whatever the shuffles, the generator yields a value at every call, and
    every run of thirteen consecutive values holds each of the seven shapes:
    a shape is never away for more than twelve pieces. *)
Theorem every_shape_within_thirteen (start : nat) :
  ∃ w, output_window shuffle start 13 = Some w
       ∧ length w = 13%nat
       ∧ ∀ s : Shape, s ∈ w.
Proof.
  set (q := (start `div` 7)%nat). set (r := (start `mod` 7)%nat).
  assert (start = 7 * q + r)%nat as Hstart by apply Nat.div_mod_eq.
  assert (r < 7)%nat as Hr by (apply Nat.mod_upper_bound; lia).
  unfold output_window.
  rewrite (take_prefix (start + 13) (7 * (q + 3) - (start + 13))
             new_random_generator (bags shuffle 0 (q + 3))).
  2: { replace (start + 13 + (7 * (q + 3) - (start + 13)))%nat
         with (7 * (q + 3))%nat by lia.
       apply take_all_bags. }
  eexists. split; [done|].
  pose proof (bags_length shuffle shuffle_perm 0 (q + 3)) as Hlen.
  split.
  { rewrite length_drop, length_take, Hlen. lia. }
  intros s.
  (* the bag that lies inside the window *)
  set (j := if Nat.eqb r 0 then q else S q).
  assert (start ≤ 7 * j ∧ 7 * j + 7 ≤ start + 13)%nat as [Hlo Hhi].
  { unfold j. destruct (Nat.eqb r 0) eqn:E.
    - apply Nat.eqb_eq in E. lia.
    - apply Nat.eqb_neq in E. lia. }
  assert (j + S (q + 2 - j) = q + 3)%nat as Hj.
  { unfold j. destruct (Nat.eqb r 0); lia. }
  destruct (proj1 (list_elem_of_lookup _ _) (shape_in_bag j s)) as (i & Hi).
  pose proof (lookup_lt_Some _ _ _ Hi) as Hi7.
  rewrite (shuffle_length shuffle shuffle_perm) in Hi7.
  apply list_elem_of_lookup. exists (7 * j + i - start)%nat.
  rewrite lookup_drop, lookup_take_lt by lia.
  replace (start + (7 * j + i - start))%nat with (7 * j + i)%nat by lia.
  rewrite <- Hj, bags_split.
  rewrite lookup_app_r by (rewrite (bags_length shuffle shuffle_perm); lia).
  rewrite (bags_length shuffle shuffle_perm).
  replace (7 * j + i - 7 * j)%nat with i by lia.
  rewrite lookup_app_l by (rewrite (shuffle_length shuffle shuffle_perm); lia).
  done.
Qed.
End Drought.

Lemma every_shape_within_thirteen_witness :
  ∃ w, output_window identity_shuffle 5 13 = Some w
       ∧ length w = 13%nat
       ∧ ∀ s : Shape, s ∈ w.
Proof.
  apply (every_shape_within_thirteen identity_shuffle).
  intros k l. reflexivity.
Defined.

(** Twelve do not suffice: with a shuffle that reverses the second bag, the
    twelve values after the first hold no [ShapeI]. *)
Lemma twelve_do_not_suffice :
  ∃ w, output_window reversing_shuffle 1 12 = Some w ∧ ShapeI ∉ w.
Proof.
  eexists. split; [reflexivity|].
  intros H. vm_compute in H.
  repeat (apply elem_of_cons in H as [H|H]; [discriminate|]).
  by apply elem_of_nil in H.
Qed.

(** * The game loop *)

(** ** Block identities *)

Lemma forallb_insert {A} (f : A → bool) (l : list A) (i : nat) (x : A) :
  forallb f l = true → f x = true → forallb f (<[i:=x]> l) = true.
Proof.
  revert i. induction l as [|a l IH]; intros i Hl Hx; [done|].
  simpl in Hl. apply andb_prop in Hl as [Ha Hl].
  destruct i; simpl; [by rewrite Hx|]. by rewrite Ha, IH.
Qed.

Lemma forallb_lookup {A} (f : A → bool) (l : list A) (i : nat) (x : A) :
  forallb f l = true → l !! i = Some x → f x = true.
Proof.
  intros Hl Hx. rewrite forallb_forall in Hl.
  apply Hl, list_elem_of_In. by eapply list_elem_of_lookup_2.
Qed.

Lemma ids_below_put (a : nat) (m : Matrix) (x y : Z) (v : Cell) :
  ids_below a m = true →
  match v with Some b => (block_id b < a)%nat | None => True end →
  ids_below a (matrix_put m x y v) = true.
Proof.
  intros Hm Hv. unfold matrix_put.
  destruct (m !! Z.to_nat y) as [row|] eqn:Hrow; [|done].
  unfold ids_below in *. apply forallb_insert; [done|].
  apply forallb_insert; [by eapply forallb_lookup|].
  destruct v as [b|]; [|done]. by apply Nat.ltb_lt.
Qed.

Lemma ids_below_take_blocks (a : nat) (m : Matrix) (blocks : list Block) :
  ids_below a m = true → ids_below a (take_blocks m blocks) = true.
Proof.
  revert m. induction blocks as [|b blocks IH]; intros m Hm; [done|].
  cbn [take_blocks foldl]. apply IH. by apply ids_below_put.
Qed.

Lemma ids_below_put_blocks (a : nat) (m : Matrix) (blocks : list Block) :
  ids_below a m = true →
  (∀ b, b ∈ blocks → (block_id b < a)%nat) →
  ids_below a (put_blocks m blocks) = true.
Proof.
  revert m. induction blocks as [|b blocks IH]; intros m Hm Hb; [done|].
  cbn [put_blocks foldl]. apply IH.
  - apply ids_below_put; [done|]. apply Hb. by left.
  - intros b' Hb'. apply Hb. by right.
Qed.

Lemma ids_below_mono (a a' : nat) (m : Matrix) :
  (a ≤ a')%nat → ids_below a m = true → ids_below a' m = true.
Proof.
  intros Hle. unfold ids_below. rewrite !forallb_forall.
  intros H row Hrow. specialize (H row Hrow). rewrite forallb_forall in H |- *.
  intros c Hc. specialize (H c Hc). destruct c as [b|]; [|done].
  apply Nat.ltb_lt in H. apply Nat.ltb_lt. lia.
Qed.


Lemma ids_below_empty_matrix (a : nat) : ids_below a empty_matrix = true.
Proof. done. Qed.

(** The blocks of a piece on the grid are older than the allocation
    counter. *)
Lemma piece_ids_below (a : nat) (m : Matrix) (t : Tetromino) (u : Block) :
  ids_below a m = true → piece_on_grid m t = true → u ∈ square_units t →
  (block_id u < a)%nat.
Proof.
  intros Hids Hpg Hu.
  destruct (piece_on_grid_block m t u Hpg Hu) as (_ & u' & Hc & Hid).
  pose proof (ids_below_cell _ _ _ _ _ Hids Hc) as Hlt.
  unfold block_is in Hid. apply Nat.eqb_eq in Hid. lia.
Qed.

(** ** The moves of a piece on the grid *)

Lemma translated_keeps (a : nat) (m : Matrix) (t : Tetromino) (dx dy : Z) :
  wf_matrix m = true → ids_below a m = true → piece_on_grid m t = true →
  would_collide m t dx dy = Ok false →
  let units' := (fun b => translate b dx dy) <$> square_units t in
  let t' := mkTetromino (shape t) (x_coord t + dx) (y_coord t + dy)
              (rotation_index t) units' in
  let m' := put_blocks (take_blocks m (square_units t)) units' in
  remove_blocks m t = Ok (take_blocks m (square_units t))
  ∧ add_to_grid (take_blocks m (square_units t)) t' = Ok m'
  ∧ wf_matrix m' = true ∧ ids_below a m' = true ∧ piece_on_grid m' t' = true.
Proof.
  intros Hwf Hids Hpg Hcol units' t' m'.
  destruct (move_ok m t dx dy Hwf Hpg Hcol) as (Hrem & Hadd & Hwf' & Hpg').
  split; [done|]. split; [done|]. split; [done|]. split; [|done].
  apply ids_below_put_blocks; [by apply ids_below_take_blocks|].
  intros b (u & -> & Hu)%list_elem_of_fmap. simpl.
  by apply (piece_ids_below a m t).
Qed.

Lemma shift_left_keeps : keeps_piece_on_grid shift_left.
Proof.
  intros a m t Hwf Hids Hpg. unfold shift_left.
  rewrite would_collide_spec by done. rewrite bind_Ok.
  destruct (existsb _ _) eqn:Hcol; cbn [negb]; [by exists m, t|].
  destruct (translated_keeps a m t (-1) 0 Hwf Hids Hpg)
    as (Hrem & Hadd & Hwf' & Hids' & Hpg').
  { by rewrite would_collide_spec, Hcol. }
  replace (y_coord t + 0) with (y_coord t) in * by lia.
  change (x_coord t + -1) with (x_coord t - 1) in *.
  rewrite Hrem, bind_Ok. unfold block_shift_left. rewrite Hadd, bind_Ok.
  eexists _, _. split; [done|]. done.
Qed.

Lemma shift_right_keeps : keeps_piece_on_grid shift_right.
Proof.
  intros a m t Hwf Hids Hpg. unfold shift_right.
  rewrite would_collide_spec by done. rewrite bind_Ok.
  destruct (existsb _ _) eqn:Hcol; cbn [negb]; [by exists m, t|].
  destruct (translated_keeps a m t 1 0 Hwf Hids Hpg)
    as (Hrem & Hadd & Hwf' & Hids' & Hpg').
  { by rewrite would_collide_spec, Hcol. }
  replace (y_coord t + 0) with (y_coord t) in * by lia.
  rewrite Hrem, bind_Ok. unfold block_shift_right. rewrite Hadd, bind_Ok.
  eexists _, _. split; [done|]. done.
Qed.

Lemma elem_of_rotated_units (x0 y0 : Z) (units : list Block)
    (vectors : list (Z * Z)) (u' : Block) :
  u' ∈ rotated_units x0 y0 units vectors →
  ∃ u, u ∈ units ∧ block_id u' = block_id u.
Proof.
  unfold rotated_units. revert vectors.
  induction units as [|b units IH]; intros [|v vectors] H;
    try by apply elem_of_nil in H.
  cbn [zip_with] in H. apply elem_of_cons in H as [->|H].
  - exists b. split; [by left|done].
  - destruct (IH _ H) as (u & Hu & Hid). exists u. split; [by right|done].
Qed.

Lemma rotate_keeps (dr : Z) :
  dr = 1 ∨ dr = -1 → keeps_piece_on_grid (fun m t => rotate m t dr).
Proof.
  intros Hdr a m t Hwf Hids Hpg.
  destruct (decide (shape t = ShapeO)) as [HO|HO].
  { exists m, t. unfold rotate. by rewrite HO. }
  rewrite rotate_base by done.
  pose proof (piece_on_grid_index _ _ Hpg) as Hri.
  set (n := Z.of_nat (length (block_positions (shape t)))) in *.
  destruct (lookup_lt_is_Some_2 (block_positions (shape t))
              (Z.to_nat ((rotation_index t + dr) `mod` n))) as [vectors Hvec].
  { pose proof (Z.mod_pos_bound (rotation_index t + dr) n). lia. }
  pose proof (can_rotate_candidate m t dr vectors Hwf Hdr Hri Hvec) as Hcan.
  destruct (existsb _ vectors) eqn:Hex; cbn [negb] in Hcan.
  { exists m, t. unfold Tetromino_rotate. by rewrite Hcan, bind_Ok. }
  destruct (Tetromino_rotate_ok m t dr vectors Hwf Hpg Hdr Hvec Hcan)
    as (Hrot & Hwf' & Hpg').
  eexists _, _. split; [exact Hrot|]. split; [done|]. split; [|done].
  apply ids_below_put_blocks; [by apply ids_below_take_blocks|].
  intros u' Hu'. apply elem_of_rotated_units in Hu' as (u & Hu & ->).
  by apply (piece_ids_below a m t).
Qed.


(** ** The invariant of the playfield *)

Lemma playfield_ok_iff (p : Playfield) :
  playfield_ok p = true
  ↔ wf_matrix (matrix p) = true
    ∧ ids_below (alloc p) (matrix p) = true
    ∧ (tetromino_isactive p = true →
       in_clear_phase p = false ∧ game_over p = false
       ∧ ∃ t, active_tetromino p = Some t ∧ piece_on_grid (matrix p) t = true)
    ∧ (tetromino_isactive p = false → in_lock_phase p = false)
    ∧ (in_clear_phase p = true →
       ∃ gen, clear_generator p = Some gen ∧ clear_generator_ok gen = true).
Proof.
  unfold playfield_ok. rewrite !andb_true_iff. split.
  - intros [[[Hwf Hids] Hact] Hclear]. split; [done|]. split; [done|].
    split; [|split].
    + intros E. rewrite E in Hact. rewrite !andb_true_iff in Hact.
      destruct Hact as [[Hc Hg] Ht].
      apply negb_true_iff in Hc, Hg. split; [done|]. split; [done|].
      destruct (active_tetromino p) as [t|]; [eauto|done].
    + intros E. rewrite E in Hact. by apply negb_true_iff in Hact.
    + intros E. rewrite E in Hclear.
      destruct (clear_generator p) as [gen|]; [eauto|done].
  - intros (Hwf & Hids & Hact & Hidle & Hclear).
    split; [split; [done|]|].
    + destruct (tetromino_isactive p).
      * destruct Hact as (-> & -> & t & -> & Hpg); done.
      * by rewrite Hidle.
    + destruct (in_clear_phase p); [|done].
      destruct Hclear as (gen & -> & Hgen); done.
Qed.

Lemma rows_in_grid_spec (rows : list Z) :
  rows_in_grid rows = true ↔ ∀ r, r ∈ rows → 0 ≤ r < grid_height.
Proof.
  unfold rows_in_grid. rewrite forallb_forall. split.
  - intros H r Hr%list_elem_of_In. apply H in Hr. lia.
  - intros H r Hr%list_elem_of_In. apply H in Hr. lia.
Qed.

(** ** Locking *)

Lemma lock_tetromino_keeps (p : Playfield) :
  playfield_ok p = true → tetromino_isactive p = true →
  ∃ p', lock_tetromino p = Ok p'
        ∧ playfield_ok p' = true
        ∧ tetromino_isactive p' = false
        ∧ matrix p' = matrix p ∧ model p' = model p ∧ alloc p' = alloc p
        ∧ gravity p' = gravity p
        ∧ soft_drop_isactive p' = soft_drop_isactive p
        ∧ active_tetromino p' = active_tetromino p
        ∧ lock_counter p' = 0.
Proof.
  intros Hok Hact. apply playfield_ok_iff in Hok as (Hwf & Hids & Hpiece & _ & _).
  destruct (Hpiece Hact) as (Hclear & Hover & t & Ht & Hpg).
  assert (∀ b, b ∈ square_units t → 0 ≤ by_ b < grid_height) as Hrows.
  { intros b Hb.
    destruct (piece_on_grid_block (matrix p) t b Hpg Hb) as [Hin _].
    by apply is_in_bounds_true in Hin as [_ ?]. }
  unfold lock_tetromino, check_lock_out, the_active_tetromino.
  cbn [lock_flags_reset active_tetromino]. rewrite Ht, !bind_Ok.
  destruct (check_lock_out_loop (get_rows t)).
  { eexists. split; [done|]. split; [|done].
    apply playfield_ok_iff. cbn. split; [done|]. split; [done|]. split; [done|].
    split; [done|]. by rewrite Hclear. }
  rewrite (pattern_phase_spec _ t) by done.
  cbn [lock_flags_reset matrix active_tetromino model gravity lock_counter
       in_lock_phase tetromino_isactive in_clear_phase game_over
       clear_generator soft_drop_isactive alloc].
  destruct (List.filter (row_is_full (matrix p)) (get_rows t)) as [|r rows] eqn:Hf.
  { eexists. split; [done|]. split; [|done].
    apply playfield_ok_iff. cbn. split; [done|]. split; [done|]. split; [done|].
    split; [done|]. by rewrite Hclear. }
  eexists. split; [done|]. split; [|done].
  apply playfield_ok_iff. cbn. split; [done|]. split; [done|]. split; [done|].
  split; [done|]. intros _. eexists. split; [done|].
  unfold clear_generator_ok. cbn. rewrite andb_true_r.
  apply (proj2 (rows_in_grid_spec (r :: rows))). intros y Hy. rewrite <- Hf in Hy.
  apply list_elem_of_In, filter_In in Hy as [Hy%list_elem_of_In _].
  apply elem_of_get_rows in Hy as (b & Hb & <-). by apply Hrows.
Qed.

(** ** The key presses that reach the playfield *)

Lemma move_active_keeps (p : Playfield)
    (move : Matrix → Tetromino → result (Matrix * Tetromino)) :
  keeps_piece_on_grid move →
  playfield_ok p = true →
  ∃ p', move_active p move = Ok p' ∧ playfield_ok p' = true
        ∧ (tetromino_isactive p = false → p' = p).
Proof.
  intros Hmove Hok. unfold move_active.
  destruct (tetromino_isactive p) eqn:Hact; [|by exists p].
  apply playfield_ok_iff in Hok as (Hwf & Hids & Hpiece & Hidle & Hgen).
  destruct (Hpiece Hact) as (Hclear & Hover & t & Ht & Hpg).
  unfold the_active_tetromino. rewrite Ht, bind_Ok.
  destruct (Hmove (alloc p) (matrix p) t Hwf Hids Hpg)
    as (m' & t' & -> & Hwf' & Hids' & Hpg').
  rewrite bind_Ok. eexists. split; [done|]. split; [|done].
  apply playfield_ok_iff. cbn. split; [done|]. split; [done|].
  split; [eauto|]. split; [by rewrite Hact|]. by rewrite Hclear.
Qed.

Lemma lock_if_grounded_keeps (p : Playfield) :
  playfield_ok p = true →
  ∃ p', (if in_lock_phase p then
           t ← the_active_tetromino p;
           ground ← is_on_ground (matrix p) t;
           if (ground : bool) then lock_tetromino p else Ok p
         else Ok p) = Ok p'
        ∧ playfield_ok p' = true
        ∧ gravity p' = gravity p
        ∧ soft_drop_isactive p' = soft_drop_isactive p.
Proof.
  intros Hok.
  destruct (in_lock_phase p) eqn:Hlock; [|by exists p].
  pose proof Hok as Hparts.
  apply playfield_ok_iff in Hparts as (Hwf & Hids & Hpiece & Hidle & Hgen).
  destruct (tetromino_isactive p) eqn:Hact;
    [|rewrite Hidle in Hlock by done; done].
  destruct (Hpiece eq_refl) as (Hclear & Hover & t & Ht & Hpg).
  unfold the_active_tetromino. rewrite Ht, bind_Ok. unfold is_on_ground.
  rewrite would_collide_spec, bind_Ok by done.
  destruct (existsb _ _); [|by exists p].
  destruct (lock_tetromino_keeps p Hok Hact)
    as (p' & Hlk & Hok' & _ & _ & _ & _ & Hg & Hs & _).
  by exists p'.
Qed.

Lemma activate_soft_drop_keeps (p : Playfield) :
  playfield_ok p = true →
  ∃ p', activate_soft_drop p = Ok p' ∧ playfield_ok p' = true
        ∧ gravity p' = SOFT_DROP_GRAVITY ∧ soft_drop_isactive p' = true.
Proof.
  intros Hok.
  destruct (lock_if_grounded_keeps (set_gravity p SOFT_DROP_GRAVITY true))
    as (p' & Hp' & Hok' & Hg & Hs); [done|].
  by exists p'.
Qed.

(** X16.  No key press makes the playfield fail.  On a playfield in its
    invariant, the two shifts, the two rotations and the soft drop return
    normally and leave the playfield in its invariant: the matrix keeps its
    shape, an active piece stays on the grid with its four blocks in their
    own cells, and no block is lost or duplicated.  Without an active piece
    the shifts and rotations change nothing. *)
Theorem key_presses_keep_the_playfield (p : Playfield) :
  playfield_ok p = true →
  (∀ press, press ∈ [shift_tetromino_left; shift_tetromino_right;
                     Playfield_rotate_clockwise; Playfield_rotate_anticlockwise] →
            ∃ p', press p = Ok p' ∧ playfield_ok p' = true
                  ∧ (tetromino_isactive p = false → p' = p))
  ∧ (∃ p', activate_soft_drop p = Ok p' ∧ playfield_ok p' = true
           ∧ gravity p' = SOFT_DROP_GRAVITY ∧ soft_drop_isactive p' = true)
  ∧ playfield_ok (deactivate_soft_drop p) = true.
Proof.
  intros Hok. split; [|split; [by apply activate_soft_drop_keeps|done]].
  intros press Hpress.
  repeat (apply elem_of_cons in Hpress as [->|Hpress]).
  - by apply move_active_keeps; [apply shift_left_keeps|].
  - by apply move_active_keeps; [apply shift_right_keeps|].
  - apply move_active_keeps; [|done]. apply (rotate_keeps 1). by left.
  - apply move_active_keeps; [|done]. apply (rotate_keeps (-1)). by right.
  - by apply elem_of_nil in Hpress.
Qed.

Lemma key_presses_keep_the_playfield_witness :
  (∃ p', shift_tetromino_left wall_playfield = Ok p' ∧ playfield_ok p' = true)
  ∧ (∃ p', Playfield_rotate_clockwise wall_playfield = Ok p'
           ∧ playfield_ok p' = true)
  ∧ (∃ p', activate_soft_drop wall_playfield = Ok p' ∧ playfield_ok p' = true).
Proof.
  destruct (key_presses_keep_the_playfield wall_playfield eq_refl)
    as (Hmoves & Hsoft & _).
  split; [|split].
  - destruct (Hmoves shift_tetromino_left) as (p' & H1 & H2 & _).
    + apply list_elem_of_In. simpl. tauto.
    + by exists p'.
  - destruct (Hmoves Playfield_rotate_clockwise) as (p' & H1 & H2 & _).
    + apply list_elem_of_In. simpl. tauto.
    + by exists p'.
  - destruct Hsoft as (p' & H1 & H2 & _). by exists p'.
Defined.

(** ** The line-clear generator, for any rows *)













(** ** Spawning *)

Lemma setup_blocks_fresh_ids (a : nat) (t0 t : Tetromino) (y0 : Z) (a' : nat) :
  rotation_index t0 = 0 →
  setup_blocks a t0 3 y0 = Ok (a', t) →
  ∀ u, u ∈ square_units t → (block_id u < a + 4)%nat.
Proof.
  destruct t0 as [s x y ri units]. cbn [rotation_index]. intros -> Hset u Hu.
  destruct s; cbn in Hset; injection Hset as <- <-; cbn in Hu;
    repeat (apply elem_of_cons in Hu as [->|Hu]);
    try (by apply elem_of_nil in Hu); simpl; lia.
Qed.

Lemma set_tetromino_keeps (p : Playfield) (next_piece : Tetromino) :
  playfield_ok p = true →
  tetromino_isactive p = false → in_clear_phase p = false →
  game_over p = false →
  rotation_index next_piece = 0 →
  ∃ p', set_tetromino p next_piece = Ok p'
        ∧ playfield_ok p' = true
        ∧ in_clear_phase p' = false
        ∧ (tetromino_isactive p' = false → game_over p' = true)
        ∧ model p' = model p
        ∧ ∃ t, active_tetromino p' = Some t
               ∧ shape t = shape next_piece
               ∧ x_coord t = 3 ∧ (y_coord t = 2 ∨ y_coord t = 1).
Proof.
  intros Hok Hact Hclear Hover Hri.
  apply playfield_ok_iff in Hok as (Hwf & Hids & _ & Hidle & _).
  specialize (Hidle Hact).
  destruct (setup_blocks_spawn (alloc p) next_piece 2)
    as (t1 & H1 & Hs1 & Hr1 & Ho1 & Hf1 & Hp1 & Hn1 & Hi1); [done|by left|].
  destruct (setup_blocks_spawn (alloc p + 4) t1 (2 - 1))
    as (t2 & H2 & Hs2 & Hr2 & Ho2 & Hf2 & Hp2 & Hn2 & Hi2); [done|by right|].
  pose proof (setup_blocks_fresh_ids _ _ _ _ _ Hri H1) as Hu1.
  pose proof (setup_blocks_fresh_ids _ _ _ _ _ Hr1 H2) as Hu2.
  assert (∀ t, rotation_index t = 0 →
               0 ≤ rotation_index t
               < Z.of_nat (length (block_positions (shape t)))) as Hidx.
  { intros t ->. destruct (shape t); simpl; lia. }
  (* what the playfield is after a spawn that adds the blocks of [t] *)
  assert (∀ t a',
            (alloc p ≤ a')%nat → rotation_index t = 0 →
            (∀ u, u ∈ square_units t → (alloc p ≤ block_id u < a')%nat) →
            position <$> square_units t
            = (fun v : Z * Z => (x_coord t + v.1, y_coord t + v.2))
                <$> (block_positions (shape t) !!! Z.to_nat (rotation_index t)) →
            NoDup (position <$> square_units t) →
            (∀ u, u ∈ square_units t → is_in_bounds (bx u) (by_ u) = true) →
            existsb (fun b => blocked (matrix p) (square_units t)
                                (bx b + 0) (by_ b + 0)) (square_units t) = false →
            add_to_grid (matrix p) t = Ok (put_blocks (matrix p) (square_units t))
            ∧ playfield_ok
                (mkPlayfield (put_blocks (matrix p) (square_units t)) (Some t)
                   (model p) (gravity p) (lock_counter p) (in_lock_phase p) true
                   (in_clear_phase p) (game_over p) (clear_generator p)
                   (soft_drop_isactive p) a') = true) as Hadded.
  { intros t a' Ha' Hrt Hfresh Hpos Hnd Hin Hfree.
    assert (∀ b, b ∈ square_units t →
                 is_in_bounds (bx b) (by_ b) = true
                 ∧ cell_at (matrix p) (bx b) (by_ b) = None) as Hcells.
    { intros b Hb.
      rewrite <- not_true_iff_false, existsb_exists in Hfree.
      apply (not_blocked_fresh (alloc p) _ (square_units t)); [done..| |].
      - intros u Hu. apply Hfresh in Hu. lia.
      - apply not_true_is_false. intros Hbl. apply Hfree. exists b.
        split; [by apply list_elem_of_In|]. by rewrite !Z.add_0_r. }
    split; [by apply add_blocks_ok|].
    apply playfield_ok_iff. cbn. split; [by apply wf_put_blocks|].
    split.
    { apply ids_below_put_blocks; [by apply (ids_below_mono (alloc p))|].
      intros u Hu. apply Hfresh in Hu. lia. }
    split; [|split; [done|by rewrite Hclear]].
    intros _. split; [done|]. split; [done|]. exists t. split; [done|].
    apply (put_blocks_piece_on_grid (alloc p)); try done; [|by apply Hidx].
    intros u Hu. apply Hfresh in Hu. lia. }
  unfold set_tetromino. rewrite H1, bind_Ok. cbn beta iota.
  rewrite (would_collide_spec _ t1) by done. rewrite bind_Ok.
  destruct (existsb _ (square_units t1)) eqn:E1.
  - rewrite H2, bind_Ok. cbn beta iota.
    rewrite (would_collide_spec _ t2) by done. rewrite bind_Ok.
    destruct (existsb _ (square_units t2)) eqn:E2.
    + unfold get_blocks. rewrite force_write_ok, bind_Ok by done.
      eexists. split; [reflexivity|].
      split; [|split; [done|split; [done|split; [done|]]]].
      2: { exists t2. injection Ho2 as Hx2 Hy2. cbn.
           split; [done|]. split; [congruence|]. split; [done|by right]. }
      apply playfield_ok_iff. cbn. split; [by apply wf_put_blocks|].
      split; [|split; [done|split; [done|by rewrite Hclear]]].
      apply ids_below_put_blocks;
        [apply (ids_below_mono (alloc p)); [lia|done]|].
      intros u Hu. apply Hu2 in Hu. lia.
    + destruct (Hadded t2 (alloc p + 4 + 4)%nat) as [Hadd Hok']; try done; [lia| |].
      { intros u Hu. pose proof (Hf2 u Hu). pose proof (Hu2 u Hu). lia. }
      rewrite Hadd, bind_Ok. eexists. split; [reflexivity|].
      split; [exact Hok'|]. cbn.
      split; [done|]. split; [done|]. split; [done|].
      exists t2. injection Ho2 as Hx2 Hy2.
      split; [done|]. split; [congruence|]. split; [done|by right].
  - destruct (Hadded t1 (alloc p + 4)%nat) as [Hadd Hok']; try done; [lia| |].
    { intros u Hu. pose proof (Hf1 u Hu). pose proof (Hu1 u Hu). lia. }
    rewrite Hadd, bind_Ok. eexists. split; [reflexivity|].
    split; [exact Hok'|]. cbn.
    split; [done|]. split; [done|]. split; [done|].
    exists t1. injection Ho1 as Hx1 Hy1.
    split; [done|]. split; [done|]. split; [done|by left].
Qed.

(** ** The drop phase and the lock phase *)

Lemma playfield_ok_active (p : Playfield) :
  playfield_ok p = true → tetromino_isactive p = true →
  wf_matrix (matrix p) = true
  ∧ ids_below (alloc p) (matrix p) = true
  ∧ in_clear_phase p = false ∧ game_over p = false
  ∧ ∃ t, active_tetromino p = Some t ∧ piece_on_grid (matrix p) t = true.
Proof.
  intros (Hwf & Hids & Hpiece & _)%playfield_ok_iff Hact.
  destruct (Hpiece Hact) as (? & ? & ?). done.
Qed.




(** ** The invariant of the game *)

Lemma game_ok_iff (g : Game) :
  game_ok g = true
  ↔ playfield_ok (grid g) = true
    ∧ end_generator_ok (end_generator g) = true
    ∧ (∃ t, next_tetromino g = Some t ∧ rotation_index t = 0)
    ∧ scores_file g ≠ [].
Proof.
  unfold game_ok. rewrite !andb_true_iff. split.
  - intros [[[Hp He] Hn] Hs]. split; [done|]. split; [done|]. split.
    + destruct (next_tetromino g) as [t|]; [|done].
      exists t. split; [done|]. by apply Z.eqb_eq.
    + intros Hnil. by rewrite Hnil in Hs.
  - intros (Hp & He & (t & -> & Ht) & Hs). split; [split; [done|]|].
    + by apply Z.eqb_eq.
    + by destruct (scores_file g).
Qed.


Section Invariant.
Variable shuffle : nat → list Shape → list Shape.
Hypothesis shuffle_perm : ∀ k l, shuffle k l ≡ₚ l.

Lemma draw_returns (rg : RandomGenerator) :
  ∃ s rg', random_generator_next shuffle 1 rg = Some (s, rg').
Proof.
  unfold random_generator_next. destruct (bag rg) as [|s rest] eqn:Hbag.
  - pose proof (shuffle_length shuffle shuffle_perm (shuffles rg)) as Hlen.
    cbn [bag shuffles].
    destruct (shuffle (shuffles rg) get_tetromino_set) as [|s rest]; [done|].
    by eexists _, _.
  - by eexists _, _.
Qed.

Lemma set_next_tetromino_returns (g : Game) :
  ∃ s rg,
    set_next_tetromino shuffle g
    = Done (Ok (mkGame (grid g) (gravity_counter g) (entry_counter g)
                  (end_generator g) (grid_visible g) (Some (new_tetromino s))
                  (show_next_piece g) rg (pause_button g) (high_score g)
                  (scores_file g))).
Proof.
  destruct (draw_returns (random_generator g)) as (s & rg & Hdraw).
  exists s, rg. unfold set_next_tetromino, generate_random_tetromino.
  by rewrite Hdraw.
Qed.

Lemma set_active_tetromino_keeps (g : Game) :
  game_ok g = true →
  tetromino_isactive (grid g) = false →
  in_clear_phase (grid g) = false →
  game_over (grid g) = false →
  ∃ g', set_active_tetromino shuffle g = Done (Ok g')
        ∧ game_ok g' = true
        ∧ model (grid g') = model (grid g)
        ∧ gravity_counter g' = gravity_counter g
        ∧ entry_counter g' = entry_counter g
        ∧ end_generator g' = end_generator g
        ∧ grid_visible g' = grid_visible g
        ∧ show_next_piece g' = show_next_piece g
        ∧ pause_button g' = pause_button g
        ∧ high_score g' = high_score g
        ∧ scores_file g' = scores_file g
        ∧ (tetromino_isactive (grid g') = false → game_over (grid g') = true)
        ∧ ∃ t0 t, next_tetromino g = Some t0
                  ∧ active_tetromino (grid g') = Some t
                  ∧ shape t = shape t0
                  ∧ x_coord t = 3 ∧ (y_coord t = 2 ∨ y_coord t = 1).
Proof.
  intros (Hp & He & (t & Hnext & Hri) & Hs)%game_ok_iff Hact Hclear Hover.
  unfold set_active_tetromino. rewrite Hnext.
  destruct (set_tetromino_keeps (grid g) t Hp Hact Hclear Hover Hri)
    as (p' & -> & Hok' & _ & Hend & Hmodel & t' & Ht' & Hspawn).
  cbn [mbind fueled_bind].
  destruct (set_next_tetromino_returns (set_grid g p')) as (s & rg & ->).
  eexists. split; [done|]. split.
  { apply game_ok_iff. cbn. split; [done|]. split; [done|].
    split; [by eexists|done]. }
  cbn. do 9 (split; [done|]). split; [done|]. by exists t, t'.
Qed.

Lemma new_playfield_ok (a : nat) : playfield_ok (new_playfield a) = true.
Proof.
  apply playfield_ok_iff. cbn. split; [done|].
  split; [apply ids_below_empty_matrix|]. done.
Qed.

Lemma set_high_score_returns (scores : list Z) :
  scores ≠ [] → ∃ hs, set_high_score scores = Ok hs ∧ ∀ y, y ∈ scores → y ≤ hs.
Proof.
  intros Hne. destruct (py_max_spec scores Hne) as (hs & Hhs & _ & Hall).
  by exists hs.
Qed.

Lemma first_spawn_is_active (a : nat) (s : Shape) :
  ∃ p', set_tetromino (new_playfield a) (new_tetromino s) = Ok p'
        ∧ tetromino_isactive p' = true.
Proof. destruct s; eexists; split; reflexivity. Qed.

(** What the constructor and [reset] build from a first state [g0] with a
    new playfield. *)
Lemma first_pieces (g0 : Game) :
  grid g0 = new_playfield (alloc (grid g0)) →
  end_generator g0 = new_end_generator →
  scores_file g0 ≠ [] →
  ∃ g2, (g1 ← set_next_tetromino shuffle g0; set_active_tetromino shuffle g1)
        = Done (Ok g2)
        ∧ game_ok g2 = true
        ∧ tetromino_isactive (grid g2) = true
        ∧ model (grid g2) = initial_model
        ∧ gravity_counter g2 = gravity_counter g0
        ∧ entry_counter g2 = entry_counter g0
        ∧ end_generator g2 = new_end_generator
        ∧ grid_visible g2 = grid_visible g0
        ∧ show_next_piece g2 = show_next_piece g0
        ∧ pause_button g2 = pause_button g0
        ∧ high_score g2 = high_score g0
        ∧ scores_file g2 = scores_file g0.
Proof.
  intros Hgrid Hend Hscores.
  destruct (set_next_tetromino_returns g0) as (s & rg & ->).
  cbn [mbind fueled_bind].
  set (g1 := mkGame _ _ _ _ _ _ _ _ _ _ _).
  assert (game_ok g1 = true) as Hok1.
  { apply game_ok_iff. cbn. rewrite Hgrid, Hend.
    split; [apply new_playfield_ok|]. split; [done|].
    split; [by eexists|done]. }
  destruct (set_active_tetromino_keeps g1 Hok1)
    as (g2 & Hg2 & Hok2 & Hm & Hgc & Hec & Heg & Hgv & Hsn & Hpb & Hh & Hsf & _);
    [by cbn; rewrite Hgrid..|].
  exists g2. split; [done|]. split; [done|].
  split; [|split; [by rewrite Hm; cbn; rewrite Hgrid|by rewrite <- Hend]].
  (* on an empty grid the first spawn position is free *)
  unfold set_active_tetromino in Hg2. cbn [next_tetromino g1 grid] in Hg2.
  rewrite Hgrid in Hg2.
  destruct (first_spawn_is_active (alloc (grid g0)) s) as (p' & Hp' & Hact).
  rewrite Hp' in Hg2. cbn [mbind fueled_bind] in Hg2.
  destruct (set_next_tetromino_returns (set_grid g1 p')) as (s' & rg' & Hnext).
  rewrite Hnext in Hg2. injection Hg2 as <-. done.
Qed.
Lemma reset_keeps (g : Game) :
  scores_file g ≠ [] →
  ∃ g' hs, reset shuffle g = Done (Ok g')
        ∧ game_ok g' = true
        ∧ set_high_score (scores_file g) = Ok hs
        ∧ high_score g' = hs
        ∧ scores_file g' = scores_file g
        ∧ pause_button g' = new_pause_button
        ∧ grid_visible g' = false ∧ show_next_piece g' = false
        ∧ model (grid g') = initial_model
        ∧ tetromino_isactive (grid g') = true
        ∧ gravity_counter g' = 0 ∧ entry_counter g' = 0
        ∧ end_generator g' = new_end_generator.
Proof.
  intros Hscores. unfold reset.
  destruct (set_high_score_returns _ Hscores) as (hs & Hhs & _).
  rewrite Hhs. cbn [mbind fueled_bind].
  set (g0 := mkGame _ _ _ _ _ _ _ _ _ _ _).
  destruct (first_pieces g0) as (g2 & Hg2 & Hok & Hact & Hm & Hgc & Hec & Hend
                                 & Hgv & Hsn & Hpb & Hh & Hsf); [done..|].
  pose proof (set_next_tetromino_returns g0) as (s & rg & Hnext).
  rewrite Hnext in Hg2 |- *. cbn [mbind fueled_bind] in Hg2 |- *.
  rewrite Hg2. exists (set_visible g2 false), hs.
  split; [done|]. split; [|by cbn; rewrite ?Hgc, ?Hec, ?Hend, ?Hpb, ?Hh, ?Hsf].
  apply game_ok_iff in Hok as (? & ? & ? & ?). by apply game_ok_iff.
Qed.

Lemma Model_game_over_keeps (g : Game) :
  scores_file g ≠ [] →
  ∃ g' stored hs,
    Model_game_over shuffle g = Done (Ok g')
    ∧ game_ok g' = true
    ∧ update_scores (score (model (grid g))) (scores_file g) = Ok stored
    ∧ scores_file g' = stored
    ∧ set_high_score stored = Ok hs
    ∧ high_score g' = hs
    ∧ pause_button g' = new_pause_button
    ∧ grid_visible g' = false ∧ show_next_piece g' = false
    ∧ model (grid g') = initial_model
    ∧ tetromino_isactive (grid g') = true
    ∧ gravity_counter g' = 0 ∧ entry_counter g' = 0
    ∧ end_generator g' = new_end_generator.
Proof.
  intros Hscores. unfold Model_game_over.
  destruct (py_min_spec _ Hscores) as (lo & Hlo & _).
  assert (∃ stored, update_scores (score (model (grid g))) (scores_file g)
                    = Ok stored ∧ stored ≠ []) as (stored & Hst & Hne).
  { unfold update_scores. rewrite Hlo, bind_Ok.
    destruct (negb _); [by eexists|].
    rewrite setitem_nonneg.
    - rewrite bind_Ok. eexists. split; [done|].
      intros Hnil. apply (f_equal length) in Hnil.
      unfold sort_reverse in Hnil.
      rewrite merge_sort_Permutation, length_insert in Hnil.
      rewrite merge_sort_Permutation in Hnil.
      by destruct (scores_file g).
    - unfold sort_reverse. rewrite merge_sort_Permutation.
      destruct (scores_file g); [done|]. simpl. lia. }
  rewrite Hst. cbn [mbind fueled_bind].
  set (g1 := mkGame _ _ _ _ _ _ _ _ _ _ _).
  destruct (reset_keeps g1) as (g' & hs & Hr & Hok & Hhs & Hrest); [done|].
  exists g', stored, hs. split; [done|]. split; [done|]. split; [done|].
  destruct Hrest as (Hh & Hsf & Hrest). done.
Qed.






End Invariant.

(** ** The frame of the model and the main loop *)

Section Loop.
Variable shuffle : nat → list Shape → list Shape.
Hypothesis shuffle_perm : ∀ k l, shuffle k l ≡ₚ l.

Lemma game_ok_set_pause_button (g : Game) (b : PauseButton) :
  game_ok (set_pause_button g b) = game_ok g.
Proof. done. Qed.

Lemma game_ok_set_visible (g : Game) (v : bool) :
  game_ok (set_visible g v) = game_ok g.
Proof. done. Qed.












End Loop.

(** ** How long things take *)

Lemma gtb_false (a b : Z) : a ≤ b → (a >? b) = false.
Proof. intros H. rewrite Z.gtb_ltb. by apply Z.ltb_ge. Qed.

Lemma gtb_true (a b : Z) : b < a → (a >? b) = true.
Proof. intros H. rewrite Z.gtb_ltb. by apply Z.ltb_lt. Qed.

Section Timing.
Variable shuffle : nat → list Shape → list Shape.

Lemma Playfield_update_run_add (a b : nat) (g : Game) :
  Playfield_update_run shuffle (a + b) g
  = (g' ← Playfield_update_run shuffle a g; Playfield_update_run shuffle b g').
Proof.
  revert g. induction a as [|a IH]; intros g; [done|].
  cbn [Nat.add Playfield_update_run].
  destruct (Playfield_update shuffle g) as [[g'|e]|]; [|done..].
  cbn [mbind fueled_bind]. apply IH.
Qed.

Lemma Playfield_update_run_S (n : nat) (g g' : Game) :
  Playfield_update_run shuffle n g = Done (Ok g') →
  Playfield_update_run shuffle (S n) g = Playfield_update shuffle g'.
Proof.
  intros H. replace (S n) with (n + 1)%nat by lia.
  rewrite Playfield_update_run_add, H. cbn [mbind fueled_bind].
  cbn [Playfield_update_run].
  destruct (Playfield_update shuffle g') as [[?|?]|]; done.
Qed.

(** One frame of an active piece, by what [is_on_ground] answers. *)
Lemma active_frame (g : Game) (t : Tetromino) (ground : bool) :
  game_over (grid g) = false → in_clear_phase (grid g) = false →
  tetromino_isactive (grid g) = true →
  active_tetromino (grid g) = Some t →
  is_on_ground (matrix (grid g)) t = Ok ground →
  Playfield_update shuffle g
  = Done (g1 ← (if gravity_counter g >? gravity (grid g) then
                  if ground then
                    Ok (set_gravity_counter
                          (set_grid g (set_in_lock_phase (grid g) true)) 0)
                  else
                    '(m', t') ← shift_down (matrix (grid g)) t;
                    let p1 := set_lock_counter
                                (set_active (set_in_lock_phase (grid g) false)
                                   m' t') 0 in
                    let p2 := if soft_drop_isactive p1
                              then set_model p1 (add_soft_drop_point (model p1))
                              else p1 in
                    Ok (set_gravity_counter (set_grid g p2) 0)
                else if negb ground then
                  Ok (set_gravity_counter
                        (set_grid g (set_in_lock_phase (grid g) false))
                        (gravity_counter g + 1))
                else if in_lock_phase (grid g) then Ok (set_gravity_counter g 0)
                else Ok (set_gravity_counter g (gravity_counter g + 1)));
          lock_phase g1).
Proof.
  intros Hover Hclear Hact Ht Hground.
  unfold Playfield_update. rewrite Hover, Hclear, Hact.
  unfold drop_phase, the_active_tetromino. rewrite Ht, bind_Ok, Hground.
  destruct (gravity_counter g >? gravity (grid g)); rewrite bind_Ok.
  - destruct ground; [done|].
    destruct (shift_down _ _) as [[m' t']|e]; done.
  - destruct ground; cbn [negb]; [|done].
    destruct (in_lock_phase (grid g)); done.
Qed.

(** X18.  Gravity.  An active piece with free cells below it, seen with the
    gravity counter at 0, stays where it is for [gravity + 1] frames while
    the counter counts up, and moves down one row on frame [gravity + 2]:
    the counter and the lock counter are then 0 again, and one point has
    been scored if the soft drop is active. *)
Theorem a_free_piece_falls_every_gravity_plus_2_frames (g : Game) (t : Tetromino) :
  game_over (grid g) = false → in_clear_phase (grid g) = false →
  tetromino_isactive (grid g) = true →
  active_tetromino (grid g) = Some t →
  wf_matrix (matrix (grid g)) = true →
  piece_on_grid (matrix (grid g)) t = true →
  is_on_ground (matrix (grid g)) t = Ok false →
  0 ≤ gravity (grid g) → gravity_counter g = 0 →
  let waiting := set_grid g (set_in_lock_phase (grid g) false) in
  (∀ n, 1 ≤ n ≤ gravity (grid g) + 1 →
        Playfield_update_run shuffle (Z.to_nat n) g
        = Done (Ok (set_gravity_counter waiting n)))
  ∧ ∃ m' t',
      shift_down (matrix (grid g)) t = Ok (m', t')
      ∧ y_coord t' = y_coord t + 1
      ∧ piece_on_grid m' t' = true
      ∧ Playfield_update_run shuffle (Z.to_nat (gravity (grid g) + 2)) g
        = Done (Ok (set_gravity_counter
                      (set_grid g
                         (set_model
                            (set_lock_counter
                               (set_active (set_in_lock_phase (grid g) false)
                                  m' t') 0)
                            (if soft_drop_isactive (grid g)
                             then add_soft_drop_point (model (grid g))
                             else model (grid g))))
                      0)).
Proof.
  intros Hover Hclear Hact Ht Hwf Hpg Hground Hgrav Hcount waiting.
  assert (∀ k, 0 ≤ k ≤ gravity (grid g) →
            Playfield_update shuffle
              (if k =? 0 then g else set_gravity_counter waiting k)
            = Done (Ok (set_gravity_counter waiting (k + 1)))) as Hstep.
  { intros k Hk.
    destruct (k =? 0) eqn:E.
    - apply Z.eqb_eq in E. subst k.
      rewrite (active_frame g t false) by done.
      rewrite Hcount.
      rewrite gtb_false by lia.
      cbn [negb]. rewrite bind_Ok. unfold lock_phase. done.
    - rewrite (active_frame _ t false) by done.
      cbn [gravity_counter set_gravity_counter waiting grid set_grid gravity
           set_in_lock_phase].
      rewrite gtb_false by lia.
      cbn [negb]. rewrite bind_Ok. unfold lock_phase. done. }
  assert (∀ n : nat, (1 ≤ n)%nat → Z.of_nat n ≤ gravity (grid g) + 1 →
            Playfield_update_run shuffle n g
            = Done (Ok (set_gravity_counter waiting (Z.of_nat n)))) as Hwait.
  { intros n. induction n as [|n IH]; intros Hn Hle; [lia|].
    destruct (decide (n = 0%nat)) as [->|Hn0].
    - cbn [Playfield_update_run]. pose proof (Hstep 0 ltac:(lia)) as H0.
      cbn [Z.eqb] in H0. rewrite H0. done.
    - rewrite (Playfield_update_run_S n g _ (IH ltac:(lia) ltac:(lia))).
      pose proof (Hstep (Z.of_nat n) ltac:(lia)) as Hk.
      rewrite (proj2 (Z.eqb_neq _ _)) in Hk by lia.
      rewrite Hk. do 3 f_equal. lia. }
  split.
  { intros n Hn. rewrite (Hwait (Z.to_nat n)) by lia. do 3 f_equal. lia. }
  destruct (move_ok (matrix (grid g)) t 0 1 Hwf Hpg Hground)
    as (Hrem & Hadd & Hwf' & Hpg').
  replace (x_coord t + 0) with (x_coord t) in * by lia.
  eexists _, _. split.
  { unfold shift_down. rewrite Hrem, bind_Ok.
    unfold block_shift_down. rewrite Hadd, bind_Ok. reflexivity. }
  split; [done|]. split; [done|].
  replace (Z.to_nat (gravity (grid g) + 2))
    with (S (Z.to_nat (gravity (grid g) + 1))) by lia.
  rewrite (Playfield_update_run_S _ g _
             (Hwait (Z.to_nat (gravity (grid g) + 1)) ltac:(lia) ltac:(lia))).
  rewrite (active_frame _ t false) by done.
  cbn [gravity_counter set_gravity_counter waiting grid set_grid gravity
       set_in_lock_phase matrix].
  rewrite gtb_true by lia.
  unfold shift_down. rewrite Hrem, bind_Ok.
  unfold block_shift_down. rewrite Hadd, !bind_Ok.
  cbn beta iota. unfold lock_phase.
  cbn [soft_drop_isactive set_lock_counter set_active set_in_lock_phase
       in_lock_phase grid set_grid set_gravity_counter].
  by destruct (soft_drop_isactive (grid g)).
Qed.

(** X19.  Lock delay.  An active piece that has just come to rest (it is on
    the ground, outside the lock phase, with both counters at 0) and is left
    alone keeps its place while the gravity counter counts up for
    [gravity + 1] frames, enters the lock phase on the next frame, stays in
    it with the lock counter counting from 1 to 30, and is locked by frame
    [gravity + 32]: [lock_tetromino] is called once, with the lock counter at
    31, and the piece is no longer active. *)
Theorem a_landed_piece_locks_on_frame_gravity_plus_32 (g : Game) (t : Tetromino) :
  playfield_ok (grid g) = true →
  tetromino_isactive (grid g) = true →
  active_tetromino (grid g) = Some t →
  is_on_ground (matrix (grid g)) t = Ok true →
  in_lock_phase (grid g) = false →
  0 ≤ gravity (grid g) → gravity_counter g = 0 → lock_counter (grid g) = 0 →
  let locking k :=
    set_gravity_counter
      (set_grid g (set_lock_counter (set_in_lock_phase (grid g) true) k)) 0 in
  (∀ n, 1 ≤ n ≤ gravity (grid g) + 1 →
        Playfield_update_run shuffle (Z.to_nat n) g
        = Done (Ok (set_gravity_counter g n)))
  ∧ (∀ k, 1 ≤ k ≤ 30 →
          Playfield_update_run shuffle (Z.to_nat (gravity (grid g) + 1 + k)) g
          = Done (Ok (locking k)))
  ∧ ∃ p', lock_tetromino (grid (locking 31)) = Ok p'
          ∧ tetromino_isactive p' = false
          ∧ matrix p' = matrix (grid g)
          ∧ Playfield_update_run shuffle (Z.to_nat (gravity (grid g) + 32)) g
            = Done (Ok (set_gravity_counter (set_grid g p') 0)).
Proof.
  intros Hok Hact Ht Hground Hphase Hgrav Hcount Hlock locking.
  subst locking. cbn beta.
  destruct (playfield_ok_active _ Hok Hact) as (Hwf & Hids & Hclear & Hover & _).
  set (G := gravity (grid g)) in *.
  (* counting up to the lock phase *)
  assert (∀ n : nat, (1 ≤ n)%nat → Z.of_nat n ≤ G + 1 →
            Playfield_update_run shuffle n g
            = Done (Ok (set_gravity_counter g (Z.of_nat n)))) as Hwait.
  { intros n. induction n as [|n IH]; intros Hn Hle; [lia|].
    destruct (decide (n = 0%nat)) as [->|Hn0].
    - cbn [Playfield_update_run]. rewrite (active_frame g t true) by done.
      fold G. rewrite Hcount, gtb_false by lia. cbn [negb]. rewrite Hphase.
      rewrite bind_Ok. unfold lock_phase.
      cbn [grid set_gravity_counter]. rewrite Hphase. done.
    - rewrite (Playfield_update_run_S n g _ (IH ltac:(lia) ltac:(lia))).
      rewrite (active_frame _ t true) by done.
      cbn [gravity_counter set_gravity_counter grid gravity]. fold G.
      rewrite gtb_false by lia. cbn [negb]. rewrite Hphase, bind_Ok.
      unfold lock_phase. cbn [grid set_gravity_counter]. rewrite Hphase.
      do 3 f_equal. lia. }
  (* the lock phase *)
  assert (∀ k : nat, (1 ≤ k ≤ 30)%nat →
            Playfield_update_run shuffle (Z.to_nat (G + 1) + k) g
            = Done (Ok (set_gravity_counter
                          (set_grid g
                             (set_lock_counter
                                (set_in_lock_phase (grid g) true) (Z.of_nat k)))
                          0))) as Hlocking.
  { intros k. induction k as [|k IH]; intros Hk; [lia|].
    replace (Z.to_nat (G + 1) + S k)%nat with (S (Z.to_nat (G + 1) + k)) by lia.
    destruct (decide (k = 0%nat)) as [->|Hk0].
    - rewrite Nat.add_0_r.
      rewrite (Playfield_update_run_S _ g _
                 (Hwait (Z.to_nat (G + 1)) ltac:(lia) ltac:(lia))).
      rewrite (active_frame _ t true) by done.
      cbn [gravity_counter set_gravity_counter grid gravity]. fold G.
      rewrite gtb_true by lia. rewrite bind_Ok. unfold lock_phase.
      cbn [grid set_gravity_counter set_grid in_lock_phase set_in_lock_phase
           lock_counter set_lock_counter].
      rewrite Hlock. rewrite gtb_false by (unfold lock_delay; lia). done.
    - rewrite (Playfield_update_run_S _ g _ (IH ltac:(lia))).
      rewrite (active_frame _ t true) by done.
      cbn [gravity_counter set_gravity_counter grid gravity set_grid
           set_lock_counter set_in_lock_phase in_lock_phase].
      fold G. rewrite gtb_false by lia. cbn [negb]. rewrite bind_Ok.
      unfold lock_phase.
      cbn [grid set_gravity_counter set_grid in_lock_phase set_in_lock_phase
           lock_counter set_lock_counter].
      rewrite gtb_false by (unfold lock_delay; lia).
      replace (Z.of_nat (S k)) with (Z.of_nat k + 1) by lia. done. }
  split.
  { intros n Hn. rewrite (Hwait (Z.to_nat n)) by lia. do 3 f_equal. lia. }
  split.
  { intros k Hk.
    replace (Z.to_nat (G + 1 + k)) with (Z.to_nat (G + 1) + Z.to_nat k)%nat
      by lia.
    rewrite (Hlocking (Z.to_nat k)) by lia.
    replace (Z.of_nat (Z.to_nat k)) with k by lia. done. }
  cbn [grid set_gravity_counter set_grid].
  destruct (lock_tetromino_keeps
              (set_lock_counter (set_in_lock_phase (grid g) true) 31))
    as (p' & Hp' & _ & Hact' & Hm & _).
  { unfold playfield_ok in Hok |- *. cbn. by rewrite Hact in Hok |- *. }
  { exact Hact. }
  exists p'. split; [done|]. split; [done|]. split; [done|].
  replace (Z.to_nat (G + 32)) with (S (Z.to_nat (G + 1) + 30)) by lia.
  rewrite (Playfield_update_run_S _ g _ (Hlocking 30%nat ltac:(lia))).
  rewrite (active_frame _ t true) by done.
  cbn [gravity_counter set_gravity_counter grid gravity set_grid
       set_lock_counter set_in_lock_phase in_lock_phase].
  fold G. rewrite gtb_false by lia. cbn [negb]. rewrite bind_Ok.
  unfold lock_phase.
  cbn [grid set_gravity_counter set_grid in_lock_phase set_in_lock_phase
       lock_counter set_lock_counter].
  rewrite gtb_true by (unfold lock_delay; lia).
  change (Z.of_nat 30 + 1) with 31.
  change (set_lock_counter (set_lock_counter ?p (Z.of_nat 30)) 31)
    with (set_lock_counter p 31).
  rewrite Hp', bind_Ok. done.
Qed.

(** X20.  Entry delay.  After a piece has locked without clearing a line or
    ending the game, the entry counter counts 26 frames and the next piece
    enters on frame 27: it is the piece the next panel showed, set up at
    column 3 and row 2 or, if blocked there, row 1; the next panel gets a new
    piece from the bag; either the piece is active or the game is over. *)
Theorem the_next_piece_enters_on_frame_27 (g : Game) :
  (∀ k l, shuffle k l ≡ₚ l) →
  game_ok g = true →
  tetromino_isactive (grid g) = false →
  in_clear_phase (grid g) = false →
  game_over (grid g) = false →
  entry_counter g = 0 →
  (∀ n, 1 ≤ n ≤ 26 →
        Playfield_update_run shuffle (Z.to_nat n) g
        = Done (Ok (set_entry_counter g n)))
  ∧ ∃ g' t0 t,
      Playfield_update_run shuffle 27 g = Done (Ok g')
      ∧ game_ok g' = true
      ∧ entry_counter g' = 0
      ∧ next_tetromino g = Some t0
      ∧ active_tetromino (grid g') = Some t
      ∧ shape t = shape t0
      ∧ x_coord t = 3 ∧ (y_coord t = 2 ∨ y_coord t = 1)
      ∧ tetromino_isactive (grid g') = negb (game_over (grid g')).
Proof.
  intros Hperm Hok Hact Hclear Hover Hcount.
  assert (∀ n : nat, (1 ≤ n ≤ 26)%nat →
            Playfield_update_run shuffle n g
            = Done (Ok (set_entry_counter g (Z.of_nat n)))) as Hwait.
  { intros n. induction n as [|n IH]; intros Hn; [lia|].
    destruct (decide (n = 0%nat)) as [->|Hn0].
    - cbn [Playfield_update_run]. unfold Playfield_update, spawn_phase.
      rewrite Hover, Hclear, Hact, Hcount. done.
    - rewrite (Playfield_update_run_S n g _ (IH ltac:(lia))).
      unfold Playfield_update, spawn_phase.
      cbn [grid set_entry_counter entry_counter].
      rewrite Hover, Hclear, Hact.
      rewrite gtb_false by (unfold entry_delay; lia).
      replace (Z.of_nat (S n)) with (Z.of_nat n + 1) by lia. done. }
  split.
  { intros n Hn. rewrite (Hwait (Z.to_nat n)) by lia.
    replace (Z.of_nat (Z.to_nat n)) with n by lia. done. }
  rewrite (Playfield_update_run_S 26 g _ (Hwait 26%nat ltac:(lia))).
  unfold Playfield_update, spawn_phase.
  cbn [grid set_entry_counter entry_counter].
  rewrite Hover, Hclear, Hact. rewrite gtb_true by (unfold entry_delay; lia).
  change (Z.of_nat 26) with 26.
  destruct (set_active_tetromino_keeps shuffle Hperm (set_entry_counter g 26))
    as (g' & -> & Hok' & _ & _ & _ & _ & _ & _ & _ & _ & _ & Hend
        & t0 & t & Hnext & Ht & Hspawn); [done..|].
  cbn [mbind fueled_bind mret fueled_ret].
  exists (set_entry_counter g' 0), t0, t.
  split; [done|]. split; [exact Hok'|]. split; [done|]. split; [done|].
  split; [done|]. split; [tauto|]. split; [tauto|]. split; [tauto|].
  cbn [grid set_entry_counter].
  pose proof Hok' as Hparts.
  apply game_ok_iff in Hparts as (Hp & _).
  apply playfield_ok_iff in Hp as (_ & _ & Hpiece & _).
  destruct (tetromino_isactive (grid g')) eqn:E.
  - destruct (Hpiece eq_refl) as (_ & -> & _). done.
  - by rewrite Hend.
Qed.
End Timing.

(** ** The end of a game *)

Lemma top_cleared_step (m : Matrix) (k : nat) :
  (k < length m)%nat →
  <[k := empty_row]> (top_cleared m k) = top_cleared m (S k).
Proof.
  intros Hk. unfold top_cleared.
  destruct (lookup_lt_is_Some_2 m k Hk) as [row Hrow].
  rewrite (drop_S m row k Hrow).
  replace k with (length (replicate k empty_row) + 0)%nat at 1
    by (rewrite length_replicate; lia).
  rewrite insert_app_r. cbn [insert list_insert].
  rewrite replicate_S_end, <- app_assoc. done.
Qed.

Lemma top_cleared_all (m : Matrix) :
  top_cleared m (length m) = replicate (length m) empty_row.
Proof. unfold top_cleared. by rewrite drop_all, app_nil_r. Qed.

Lemma length_top_cleared (m : Matrix) (k : nat) :
  (k ≤ length m)%nat → length (top_cleared m k) = length m.
Proof.
  intros Hk. unfold top_cleared.
  rewrite length_app, length_replicate, length_drop. lia.
Qed.

Section GameOver.
Variable shuffle : nat → list Shape → list Shape.
Hypothesis shuffle_perm : ∀ k l, shuffle k l ≡ₚ l.

(** X21.  The end of a game.  Once the game-over flag is set, the playfield
    waits 61 frames, then empties one row every four frames from the top
    row down (row [r] on frame [62 + 4 r]), and on frame 150 tells the model:
    the score goes into the list of high scores if it beats the lowest
    entry, and the game starts again, paused and hidden, at level 1 with no
    lines and no score, a new piece active, and the high score the larger of
    the final score and the old high score. *)
Theorem the_game_over_animation_ends_in_a_new_game (g : Game) (old_high : Z) :
  game_ok g = true →
  game_over (grid g) = true →
  end_generator g = new_end_generator →
  set_high_score (scores_file g) = Ok old_high →
  (∀ n, 1 ≤ n ≤ 61 →
        Playfield_update_run shuffle (Z.to_nat n) g
        = Done (Ok (set_end_generator g (mkEndGen n EndAtDelayYield))))
  ∧ (∀ r, 0 ≤ r < grid_height →
          Playfield_update_run shuffle (Z.to_nat (62 + 4 * r)) g
          = Done (Ok (set_end_generator
                        (set_grid g
                           (set_matrix (grid g)
                              (top_cleared (matrix (grid g)) (Z.to_nat (r + 1)))))
                        (mkEndGen 61 (EndAtRowYield r)))))
  ∧ ∃ g' stored,
      Playfield_update_run shuffle 150 g = Done (Ok g')
      ∧ game_ok g' = true
      ∧ update_scores (score (model (grid g))) (scores_file g) = Ok stored
      ∧ scores_file g' = stored
      ∧ high_score g' = Z.max (score (model (grid g))) old_high
      ∧ pause_button g' = new_pause_button
      ∧ grid_visible g' = false ∧ show_next_piece g' = false
      ∧ model (grid g') = initial_model
      ∧ tetromino_isactive (grid g') = true
      ∧ game_over (grid g') = false.
Proof.
  intros Hok Hover Hend Hhigh.
  pose proof Hok as Hparts.
  apply game_ok_iff in Hparts as (Hp & _ & _ & Hscores).
  apply playfield_ok_iff in Hp as (Hwf & _).
  pose proof (wf_matrix_length _ Hwf) as Hlen.
  set (m := matrix (grid g)) in *.
  (* the delay *)
  assert (∀ n : nat, (1 ≤ n ≤ 61)%nat →
            Playfield_update_run shuffle n g
            = Done (Ok (set_end_generator g
                          (mkEndGen (Z.of_nat n) EndAtDelayYield)))) as Hdelay.
  { intros n. induction n as [|n IH]; intros Hn; [lia|].
    destruct (decide (n = 0%nat)) as [->|Hn0].
    - cbn [Playfield_update_run]. unfold Playfield_update.
      rewrite Hover. unfold game_over_generator_next. rewrite Hend. done.
    - rewrite (Playfield_update_run_S _ n g _ (IH ltac:(lia))).
      unfold Playfield_update. cbn [grid set_end_generator]. rewrite Hover.
      unfold game_over_generator_next, end_wait.
      cbn [end_generator set_end_generator end_point end_delay_counter].
      rewrite (proj2 (Z.leb_le _ _)) by lia.
      replace (Z.of_nat (S n)) with (Z.of_nat n + 1) by lia. done. }
  (* a state of the row loop *)
  set (at_row := fun (k : nat) (pt : EndPoint) =>
         set_end_generator (set_grid g (set_matrix (grid g) (top_cleared m k)))
           (mkEndGen 61 pt)).
  assert (∀ k pt, game_over (grid (at_row k pt)) = true) as Hover' by done.
  assert (∀ k r cf, 0 < cf →
            Playfield_update shuffle (at_row k (EndAtFrameYield r cf))
            = Done (Ok (at_row k (EndAtFrameYield r (cf - 1))))) as Hframe.
  { intros k r cf Hcf. unfold Playfield_update. rewrite Hover'.
    unfold game_over_generator_next, end_frames.
    unfold at_row; cbn [end_generator set_end_generator end_point].
    by rewrite gtb_true by lia. }
  assert (∀ k r, Z.of_nat k = r + 1 → r + 1 < grid_height →
            Playfield_update shuffle (at_row k (EndAtFrameYield r 0))
            = Done (Ok (at_row (S k) (EndAtRowYield (r + 1))))) as Hnext.
  { intros k r Hk Hr. unfold Playfield_update. rewrite Hover'.
    unfold game_over_generator_next, end_frames, end_rows_from.
    unfold at_row; cbn [end_generator set_end_generator end_point].
    rewrite gtb_false by lia. rewrite (proj2 (Z.ltb_lt _ _)) by lia.
    cbn [grid set_grid set_end_generator matrix set_matrix].
    unfold clear_row.
    rewrite setitem_nonneg
      by (rewrite length_top_cleared; rewrite Hlen; unfold grid_height in *; lia).
    cbn [mbind fueled_bind mret fueled_ret].
    replace (Z.to_nat (r + 1)) with k by lia.
    rewrite top_cleared_step by (rewrite Hlen; unfold grid_height in *; lia).
    done. }
  assert (∀ r : nat, (r < 22)%nat →
            Playfield_update_run shuffle (62 + 4 * r) g
            = Done (Ok (at_row (S r) (EndAtRowYield (Z.of_nat r))))) as Hrows.
  { intros r. induction r as [|r IH]; intros Hr.
    - change (62 + 4 * 0)%nat with (S 61).
      rewrite (Playfield_update_run_S _ 61 g _ (Hdelay 61%nat ltac:(lia))).
      unfold Playfield_update. cbn [grid set_end_generator]. rewrite Hover.
      unfold game_over_generator_next, end_wait, end_rows_from.
      cbn [end_generator set_end_generator end_point end_delay_counter].
      change (Z.of_nat 61 <=? 60) with false. cbn iota.
      change (0 <? grid_height) with true. cbn iota.
      cbn [grid set_end_generator]. fold m.
      unfold clear_row.
      rewrite setitem_nonneg by (rewrite Hlen; unfold grid_height; lia).
      cbn [mbind fueled_bind mret fueled_ret].
      change (<[Z.to_nat 0 := empty_row]> m)
        with (<[0%nat := empty_row]> (top_cleared m 0)).
      rewrite top_cleared_step by (rewrite Hlen; unfold grid_height; lia).
      done.
    - replace (62 + 4 * S r)%nat with (S (S (S (S (62 + 4 * r))))) by lia.
      specialize (IH ltac:(lia)).
      assert (Playfield_update_run shuffle (S (62 + 4 * r)) g
              = Done (Ok (at_row (S r) (EndAtFrameYield (Z.of_nat r) 2)))) as H1.
      { rewrite (Playfield_update_run_S _ _ g _ IH).
        unfold Playfield_update. rewrite Hover'.
        unfold game_over_generator_next, end_frames.
        unfold at_row; cbn [end_generator set_end_generator end_point]. done. }
      assert (Playfield_update_run shuffle (S (S (62 + 4 * r))) g
              = Done (Ok (at_row (S r) (EndAtFrameYield (Z.of_nat r) 1)))) as H2.
      { rewrite (Playfield_update_run_S _ _ g _ H1). by rewrite Hframe. }
      assert (Playfield_update_run shuffle (S (S (S (62 + 4 * r)))) g
              = Done (Ok (at_row (S r) (EndAtFrameYield (Z.of_nat r) 0)))) as H3.
      { rewrite (Playfield_update_run_S _ _ g _ H2). by rewrite Hframe. }
      rewrite (Playfield_update_run_S _ _ g _ H3).
      rewrite Hnext by (unfold grid_height; lia).
      replace (Z.of_nat r + 1) with (Z.of_nat (S r)) by lia. done. }
  split.
  { intros n Hn. rewrite (Hdelay (Z.to_nat n)) by lia.
    replace (Z.of_nat (Z.to_nat n)) with n by lia. done. }
  split.
  { intros r Hr.
    replace (Z.to_nat (62 + 4 * r)) with (62 + 4 * Z.to_nat r)%nat by lia.
    rewrite (Hrows (Z.to_nat r)) by (unfold grid_height in *; lia).
    unfold at_row. replace (Z.of_nat (Z.to_nat r)) with r by lia.
    replace (S (Z.to_nat r)) with (Z.to_nat (r + 1)) by lia. done. }
  (* the last row, its three frames, and the call of the model *)
  pose proof (Hrows 21%nat ltac:(lia)) as H146.
  assert (Playfield_update_run shuffle 149 g
          = Done (Ok (at_row 22%nat (EndAtFrameYield 21 0)))) as H149.
  { assert (Playfield_update_run shuffle (S (62 + 4 * 21)) g
            = Done (Ok (at_row 22%nat (EndAtFrameYield 21 2)))) as H147.
    { rewrite (Playfield_update_run_S _ _ g _ H146).
      unfold Playfield_update. rewrite Hover'.
      unfold game_over_generator_next, end_frames.
      unfold at_row; cbn [end_generator set_end_generator end_point]. done. }
    assert (Playfield_update_run shuffle (S (S (62 + 4 * 21))) g
            = Done (Ok (at_row 22%nat (EndAtFrameYield 21 1)))) as H148.
    { rewrite (Playfield_update_run_S _ _ g _ H147). by rewrite Hframe. }
    change 149%nat with (S (S (S (62 + 4 * 21)))).
    rewrite (Playfield_update_run_S _ _ g _ H148). by rewrite Hframe. }
  rewrite (Playfield_update_run_S _ 149 g _ H149).
  unfold Playfield_update. rewrite Hover'.
  unfold game_over_generator_next, end_frames, end_rows_from.
  unfold at_row; cbn [end_generator set_end_generator end_point].
  change (0 >? 0) with false. cbn iota.
  change (21 + 1 <? grid_height) with false. cbn iota.
  destruct (Model_game_over_keeps shuffle shuffle_perm (at_row 22%nat (EndAtFrameYield 21 0)))
    as (g' & stored & hs & Hg' & Hok' & Hst & Hsf & Hhs & Hh & Hpb & Hgv & Hsn
        & Hm & Hact & _); [done|].
  exists g', stored. split; [done|]. split; [done|]. split; [done|].
  split; [done|]. split.
  { destruct (update_scores_spec (score (model (grid g))) (scores_file g) Hscores)
      as (lo & hi & stored' & _ & Hhi & Hst' & _ & _ & _ & Hmax).
    cbn [grid at_row set_end_generator set_grid model set_matrix scores_file]
      in Hst.
    rewrite Hst in Hst'. injection Hst' as <-.
    rewrite Hhigh in Hhi. injection Hhi as <-.
    rewrite Hhs in Hmax. injection Hmax as <-. done. }
  split; [done|]. split; [done|]. split; [done|]. split; [done|].
  split; [done|].
  apply game_ok_iff in Hok' as (Hp' & _).
  apply playfield_ok_iff in Hp' as (_ & _ & Hpiece & _).
  by destruct (Hpiece Hact) as (_ & ? & _).
Qed.
End GameOver.

(** ** The pause and the auto-repeat *)

Lemma same_play_refl (g : Game) : same_play g g.
Proof. by repeat split. Qed.

Lemma same_play_trans (g1 g2 g3 : Game) :
  same_play g1 g2 → same_play g2 g3 → same_play g1 g3.
Proof.
  unfold same_play. intros (?&?&?&?&?&?&?&?&?) (?&?&?&?&?&?&?&?&?).
  repeat split; congruence.
Qed.

Lemma evaluate_event_paused (c : GameController) (event : Event) :
  is_paused (pause_button (controller_model c)) = true →
  keeps_pause event = true →
  ∃ c', evaluate_event c event = Ok c'
        ∧ same_play (controller_model c) (controller_model c').
Proof.
  intros Hpaused Hkeeps.
  assert (∀ f, unless_paused (controller_model c) f = Ok (controller_model c))
    as Hskip by (intros f; unfold unless_paused; by rewrite Hpaused).
  destruct event as [|key|key|button|button|]; cbn [evaluate_event].
  - eexists. split; [done|apply same_play_refl].
  - destruct key; try done;
      unfold Model_shift_tetromino_left, Model_shift_tetromino_right,
        Model_activate_soft_drop, Model_rotate_clockwise,
        Model_rotate_anticlockwise;
      rewrite ?Hskip, ?bind_Ok;
      (eexists; split; [done|apply same_play_refl]).
  - destruct key; try done; (eexists; split; [done|apply same_play_refl]).
  - destruct (button =? 1); (eexists; split; [done|]);
      [|apply same_play_refl].
    unfold mouse_down. cbn [controller_model set_controller_model].
    destruct (is_hovered _); [|apply same_play_refl]. by repeat split.
  - cbn in Hkeeps. destruct (button =? 1); [done|].
    eexists. split; [done|apply same_play_refl].
  - eexists. split; [done|apply same_play_refl].
Qed.

Lemma evaluate_input_paused (input_events : list Event) (c : GameController) :
  is_paused (pause_button (controller_model c)) = true →
  forallb keeps_pause input_events = true →
  ∃ c', evaluate_input c input_events = Ok c'
        ∧ same_play (controller_model c) (controller_model c').
Proof.
  revert c. induction input_events as [|event rest IH]; intros c Hpaused Hall.
  { exists c. split; [done|apply same_play_refl]. }
  cbn [forallb] in Hall. apply andb_prop in Hall as [Hevent Hrest].
  cbn [evaluate_input].
  destruct (evaluate_event_paused c event Hpaused Hevent) as (c1 & -> & Hsame1).
  rewrite bind_Ok.
  destruct (IH c1) as (c' & -> & Hsame'); [|done|].
  { destruct Hsame1 as (_&_&_&_&_&_&_&_&->). done. }
  exists c'. split; [done|]. by apply (same_play_trans _ (controller_model c1)).
Qed.

Section Pause.
Variable shuffle : nat → list Shape → list Shape.

(** X22.  While the game is paused nothing moves.  In a pass of the main loop
    that starts paused and whose events leave out the three that can end the
    pause or reach the playfield (escape down, down-arrow up, left mouse
    button up), the playfield, its counters and generators, the next piece
    and the bag stay exactly as they were, with or without keyboard focus;
    the game is still paused, the grid and the next piece are hidden, and
    the auto-repeat is reset. *)
Theorem while_paused_nothing_moves (c : GameController) (f : FrameInput) :
  is_paused (pause_button (controller_model c)) = true →
  forallb keeps_pause (events f) = true →
  ∃ c', main_loop_body shuffle c f = Done (Ok c')
        ∧ same_play (controller_model c) (controller_model c')
        ∧ is_paused (pause_button (controller_model c')) = true
        ∧ grid_visible (controller_model c') = false
        ∧ show_next_piece (controller_model c') = false
        ∧ left_key_held c' = false ∧ right_key_held c' = false
        ∧ autorepeat_counter c' = 0.
Proof.
  intros Hpaused Hevents. unfold main_loop_body. rewrite Hpaused.
  cbn [negb]. replace (if negb (focused f) then c else c) with c
    by (by destruct (negb (focused f))).
  destruct (evaluate_input_paused (events f) c Hpaused Hevents)
    as (c2 & -> & Hsame).
  cbn [mbind fueled_bind].
  assert (is_paused (pause_button (controller_model c2)) = true) as Hpaused2.
  { destruct Hsame as (_&_&_&_&_&_&_&_&->). done. }
  unfold autorepeat. rewrite Hpaused2. cbn [mbind fueled_bind].
  unfold Model_update. cbn [controller_model].
  assert (is_paused (update_status (pause_button (controller_model c2))
                       (hovering f)) = true) as Hpaused3.
  { unfold update_status. by destruct (hovering f). }
  cbn [pause_button set_pause_button]. rewrite Hpaused3.
  cbn [mbind fueled_bind mret fueled_ret].
  eexists. split; [done|].
  cbn [controller_model set_controller_model set_visible set_pause_button
       grid gravity_counter entry_counter end_generator next_tetromino
       random_generator high_score scores_file pause_button grid_visible
       show_next_piece left_key_held right_key_held autorepeat_counter].
  split; [|by rewrite Hpaused3].
  destruct Hsame as (?&?&?&?&?&?&?&?&?). unfold same_play.
  cbn [controller_model set_controller_model set_visible set_pause_button
       grid gravity_counter entry_counter end_generator next_tetromino
       random_generator high_score scores_file pause_button].
  rewrite Hpaused3. repeat split; congruence.
Qed.
End Pause.

Lemma autorepeat_counts (c : GameController) (held_left : bool) (k : nat) :
  is_paused (pause_button (controller_model c)) = false →
  left_key_held c = held_left → right_key_held c = negb held_left →
  autorepeat_counter c + Z.of_nat k ≤ AUTOREPEAT_FRAMES →
  autorepeat_run k c
  = Ok (mkController (controller_model c) (autorepeat_counter c + Z.of_nat k)
          (left_key_held c) (right_key_held c) (is_running c)).
Proof.
  revert c. induction k as [|k IH]; intros c Hpaused Hleft Hright Hk.
  { rewrite Z.add_0_r. by destruct c. }
  cbn [autorepeat_run]. unfold autorepeat. rewrite Hpaused.
  assert (left_key_held c || right_key_held c = true) as ->
    by (rewrite Hleft, Hright; by destruct held_left).
  rewrite gtb_false by lia. rewrite bind_Ok.
  rewrite IH; cbn; try done; [|lia].
  do 2 f_equal. lia.
Qed.

(** X23.  Delayed auto-shift.  While the left or the right key is held, the
    game is not paused and the auto-repeat counter stands at [v <= 15], the
    calls of [autorepeat] only count until the counter is 15; the call after
    that shifts the piece once in the direction held and sets the counter
    back to 13.  So the first automatic shift comes on the 16th call after
    the key went down (which set the counter to 0), and the following ones
    on every third call. *)
Theorem auto_shift_after_sixteen_then_every_third (c : GameController)
    (held_left : bool) :
  is_paused (pause_button (controller_model c)) = false →
  left_key_held c = held_left → right_key_held c = negb held_left →
  0 ≤ autorepeat_counter c ≤ 15 →
  let calls := Z.to_nat (15 - autorepeat_counter c) in
  autorepeat_run calls c
  = Ok (mkController (controller_model c) 15 held_left (negb held_left)
          (is_running c))
  ∧ autorepeat_run (S calls) c
    = (g ← (if held_left
            then Model_shift_tetromino_left (controller_model c)
            else Model_shift_tetromino_right (controller_model c));
       Ok (mkController g 13 held_left (negb held_left) (is_running c))).
Proof.
  intros Hpaused Hleft Hright Hv calls.
  assert (autorepeat_run calls c
          = Ok (mkController (controller_model c) 15 held_left (negb held_left)
                  (is_running c))) as Hcount.
  { rewrite (autorepeat_counts c held_left) by (done || unfold calls, AUTOREPEAT_FRAMES; lia).
    rewrite Hleft, Hright. do 2 f_equal. unfold calls. lia. }
  split; [done|].
  replace (S calls) with (calls + 1)%nat by lia.
  assert (∀ a b c0, autorepeat_run (a + b) c0
                    = (c1 ← autorepeat_run a c0; autorepeat_run b c1)) as Hadd.
  { intros a b. induction a as [|a IH]; intros c0; [done|].
    cbn [Nat.add autorepeat_run]. destruct (autorepeat c0); [|done].
    rewrite !bind_Ok. apply IH. }
  rewrite Hadd, Hcount, bind_Ok. cbn [autorepeat_run]. unfold autorepeat.
  cbn [controller_model left_key_held right_key_held autorepeat_counter
       is_running].
  rewrite Hpaused.
  replace (held_left || negb held_left) with true by (by destruct held_left).
  change (15 + 1 >? AUTOREPEAT_FRAMES) with true. cbn iota.
  destruct held_left; cbn [negb].
  - destruct (Model_shift_tetromino_left _); [|done].
    rewrite !bind_Ok. done.
  - rewrite bind_Ok. cbn beta iota.
    destruct (Model_shift_tetromino_right _); [|done].
    rewrite !bind_Ok. done.
Qed.

(** ** The theorems above at concrete games *)


Lemma a_free_piece_falls_every_gravity_plus_2_frames_witness :
  let g := first_game in
  let t := the_piece first_game in
  let waiting := set_grid g (set_in_lock_phase (grid g) false) in
  (∀ n, 1 ≤ n ≤ gravity (grid g) + 1 →
        Playfield_update_run identity_shuffle (Z.to_nat n) g
        = Done (Ok (set_gravity_counter waiting n)))
  ∧ ∃ m' t',
      shift_down (matrix (grid g)) t = Ok (m', t')
      ∧ y_coord t' = y_coord t + 1
      ∧ piece_on_grid m' t' = true
      ∧ Playfield_update_run identity_shuffle (Z.to_nat (gravity (grid g) + 2)) g
        = Done (Ok (set_gravity_counter
                      (set_grid g
                         (set_model
                            (set_lock_counter
                               (set_active (set_in_lock_phase (grid g) false)
                                  m' t') 0)
                            (if soft_drop_isactive (grid g)
                             then add_soft_drop_point (model (grid g))
                             else model (grid g))))
                      0)).
Proof.
  intros g t.
  apply (a_free_piece_falls_every_gravity_plus_2_frames identity_shuffle g t);
    vm_compute; (reflexivity || discriminate).
Defined.

Lemma a_landed_piece_locks_on_frame_gravity_plus_32_witness :
  let g := soft_drop_game_after 57 in
  let t := the_piece (soft_drop_game_after 57) in
  let locking k :=
    set_gravity_counter
      (set_grid g (set_lock_counter (set_in_lock_phase (grid g) true) k)) 0 in
  (∀ n, 1 ≤ n ≤ gravity (grid g) + 1 →
        Playfield_update_run identity_shuffle (Z.to_nat n) g
        = Done (Ok (set_gravity_counter g n)))
  ∧ (∀ k, 1 ≤ k ≤ 30 →
          Playfield_update_run identity_shuffle
            (Z.to_nat (gravity (grid g) + 1 + k)) g
          = Done (Ok (locking k)))
  ∧ ∃ p', lock_tetromino (grid (locking 31)) = Ok p'
          ∧ tetromino_isactive p' = false
          ∧ matrix p' = matrix (grid g)
          ∧ Playfield_update_run identity_shuffle
              (Z.to_nat (gravity (grid g) + 32)) g
            = Done (Ok (set_gravity_counter (set_grid g p') 0)).
Proof.
  intros g t.
  apply (a_landed_piece_locks_on_frame_gravity_plus_32 identity_shuffle g t);
    vm_compute; (reflexivity || discriminate).
Defined.

Lemma the_next_piece_enters_on_frame_27_witness :
  let g := waiting_game in
  (∀ n, 1 ≤ n ≤ 26 →
        Playfield_update_run identity_shuffle (Z.to_nat n) g
        = Done (Ok (set_entry_counter g n)))
  ∧ ∃ g' t0 t,
      Playfield_update_run identity_shuffle 27 g = Done (Ok g')
      ∧ game_ok g' = true
      ∧ entry_counter g' = 0
      ∧ next_tetromino g = Some t0
      ∧ active_tetromino (grid g') = Some t
      ∧ shape t = shape t0
      ∧ x_coord t = 3 ∧ (y_coord t = 2 ∨ y_coord t = 1)
      ∧ tetromino_isactive (grid g') = negb (game_over (grid g')).
Proof.
  intros g.
  apply (the_next_piece_enters_on_frame_27 identity_shuffle g);
    [intros k l; reflexivity|..]; vm_compute; reflexivity.
Defined.

Lemma the_game_over_animation_ends_in_a_new_game_witness :
  let g := over_game in
  (∀ n, 1 ≤ n ≤ 61 →
        Playfield_update_run identity_shuffle (Z.to_nat n) g
        = Done (Ok (set_end_generator g (mkEndGen n EndAtDelayYield))))
  ∧ (∀ r, 0 ≤ r < grid_height →
          Playfield_update_run identity_shuffle (Z.to_nat (62 + 4 * r)) g
          = Done (Ok (set_end_generator
                        (set_grid g
                           (set_matrix (grid g)
                              (top_cleared (matrix (grid g)) (Z.to_nat (r + 1)))))
                        (mkEndGen 61 (EndAtRowYield r)))))
  ∧ ∃ g' stored,
      Playfield_update_run identity_shuffle 150 g = Done (Ok g')
      ∧ game_ok g' = true
      ∧ update_scores (score (model (grid g))) (scores_file g) = Ok stored
      ∧ scores_file g' = stored
      ∧ high_score g' = Z.max (score (model (grid g))) 100
      ∧ pause_button g' = new_pause_button
      ∧ grid_visible g' = false ∧ show_next_piece g' = false
      ∧ model (grid g') = initial_model
      ∧ tetromino_isactive (grid g') = true
      ∧ game_over (grid g') = false.
Proof.
  intros g.
  apply (the_game_over_animation_ends_in_a_new_game identity_shuffle
           ltac:(intros k l; reflexivity) g 100);
    vm_compute; reflexivity.
Defined.

Lemma while_paused_nothing_moves_witness :
  let c := mkController first_game 7 true false true in
  let f := mkFrameInput true
             [KEYDOWN K_LEFT; KEYDOWN K_x; KEYUP K_RIGHT; MOUSEBUTTONDOWN 1]
             true in
  ∃ c', main_loop_body identity_shuffle c f = Done (Ok c')
        ∧ same_play (controller_model c) (controller_model c')
        ∧ is_paused (pause_button (controller_model c')) = true
        ∧ grid_visible (controller_model c') = false
        ∧ show_next_piece (controller_model c') = false
        ∧ left_key_held c' = false ∧ right_key_held c' = false
        ∧ autorepeat_counter c' = 0.
Proof.
  intros c f.
  apply (while_paused_nothing_moves identity_shuffle c f); vm_compute; reflexivity.
Defined.

Lemma auto_shift_after_sixteen_then_every_third_witness :
  let c := mkController (switch_pause first_game) 0 true false true in
  let calls := Z.to_nat (15 - autorepeat_counter c) in
  autorepeat_run calls c
  = Ok (mkController (controller_model c) 15 true (negb true) (is_running c))
  ∧ autorepeat_run (S calls) c
    = (g ← (if true
            then Model_shift_tetromino_left (controller_model c)
            else Model_shift_tetromino_right (controller_model c));
       Ok (mkController g 13 true (negb true) (is_running c))).
Proof.
  intros c.
  apply (auto_shift_after_sixteen_then_every_third c true);
    vm_compute; (reflexivity || (split; discriminate)).
Defined.

(** ** The pause button and the keyboard focus *)

(** X24.  A click on the pause button.  With the pointer over the button (as the
    last [update_status] saw it), pressing the left mouse button and
    releasing it, in the same frame or in later ones, switches between
    playing and paused, provided the pointer stays over the button in every
    frame in between; once the pointer has been seen off the button, the
    release does nothing, even if the pointer is back.  A release with no
    press before it does nothing either.  None of this touches anything but
    the pause button. *)
Theorem a_click_needs_the_pointer_to_stay (g : Game) (between : list bool) :
  is_hovered (pause_button g) = true →
  let pressed := mouse_down g in
  let later := hover_frames pressed between in
  let released := mouse_up later in
  same_play g (set_pause_button released (pause_button g))
  ∧ grid_visible released = grid_visible g
  ∧ (forallb id between = true →
     is_paused (pause_button released) = negb (is_paused (pause_button g))
     ∧ clicked_down (pause_button released) = false)
  ∧ (forallb id between = false → pause_button released = pause_button later
     ∧ is_paused (pause_button released) = is_paused (pause_button g))
  ∧ (clicked_down (pause_button g) = false → mouse_up g = g).
Proof.
  intros Hhover pressed later released.
  assert (∀ (l : list bool) (g0 : Game),
            let g1 := hover_frames g0 l in
            grid g1 = grid g0 ∧ gravity_counter g1 = gravity_counter g0
            ∧ entry_counter g1 = entry_counter g0
            ∧ end_generator g1 = end_generator g0
            ∧ next_tetromino g1 = next_tetromino g0
            ∧ random_generator g1 = random_generator g0
            ∧ high_score g1 = high_score g0
            ∧ scores_file g1 = scores_file g0
            ∧ grid_visible g1 = grid_visible g0
            ∧ is_paused (pause_button g1) = is_paused (pause_button g0)
            ∧ (forallb id l = true →
               is_hovered (pause_button g0) = true →
               is_hovered (pause_button g1) = true
               ∧ clicked_down (pause_button g1) = clicked_down (pause_button g0))
            ∧ (forallb id l = false →
               clicked_down (pause_button g1) = false)) as Hfold.
  { induction l as [|h l IH]; intros g0 g1.
    { subst g1. cbn. repeat split; done. }
    subst g1. unfold hover_frames. cbn [foldl].
    set (g1 := set_pause_button g0 (update_status (pause_button g0) h)).
    fold (hover_frames g1 l).
    specialize (IH g1). cbn zeta in IH.
    destruct IH as (H1&H2&H3&H4&H5&H6&H7&H8&H9&H10&H11&H12).
    rewrite H1, H2, H3, H4, H5, H6, H7, H8, H9, H10.
    assert (is_paused (pause_button g1) = is_paused (pause_button g0)) as Hp.
    { subst g1. unfold update_status. by destruct h. }
    do 9 (split; [by destruct g0|]). split; [done|]. split.
    - cbn [forallb]. intros [Hh Hl]%andb_prop Hhov. unfold id in Hh. subst h.
      destruct (H11 Hl) as [-> ->]; [by destruct g0|].
      split; [done|]. by destruct g0.
    - cbn [forallb]. intros Hall.
      destruct h; cbn [id andb] in Hall.
      + by apply H12.
      + clear H11 H12 Hall.
        (* the pointer off the button drops the press; nothing sets it again *)
        assert (∀ (l' : list bool) (g2 : Game),
                  clicked_down (pause_button g2) = false →
                  clicked_down (pause_button (hover_frames g2 l')) = false)
          as Hstay.
        { unfold hover_frames.
          induction l' as [|h' l' IH']; intros g2 Hc; [done|].
          cbn [foldl]. apply IH'. unfold update_status.
          destruct h'; by destruct g2. }
        apply Hstay. by destruct g0. }
  destruct (Hfold between pressed) as (H1&H2&H3&H4&H5&H6&H7&H8&H9&H10&H11&H12).
  fold later in H1, H2, H3, H4, H5, H6, H7, H8, H9, H10, H11, H12.
  assert (grid pressed = grid g ∧ gravity_counter pressed = gravity_counter g
          ∧ entry_counter pressed = entry_counter g
          ∧ end_generator pressed = end_generator g
          ∧ next_tetromino pressed = next_tetromino g
          ∧ random_generator pressed = random_generator g
          ∧ high_score pressed = high_score g
          ∧ scores_file pressed = scores_file g
          ∧ grid_visible pressed = grid_visible g
          ∧ is_paused (pause_button pressed) = is_paused (pause_button g)
          ∧ is_hovered (pause_button pressed) = true
          ∧ clicked_down (pause_button pressed) = true)
    as (P1&P2&P3&P4&P5&P6&P7&P8&P9&P10&P11&P12).
  { subst pressed. unfold mouse_down. rewrite Hhover. by destruct g. }
  assert (grid released = grid later
          ∧ gravity_counter released = gravity_counter later
          ∧ entry_counter released = entry_counter later
          ∧ end_generator released = end_generator later
          ∧ next_tetromino released = next_tetromino later
          ∧ random_generator released = random_generator later
          ∧ high_score released = high_score later
          ∧ scores_file released = scores_file later
          ∧ grid_visible released = grid_visible later)
    as (R1&R2&R3&R4&R5&R6&R7&R8&R9).
  { subst released. unfold mouse_up, switch_pause.
    destruct (_ && _); by destruct later. }
  split.
  { unfold same_play.
    cbn [set_pause_button grid gravity_counter entry_counter end_generator
         next_tetromino random_generator high_score scores_file pause_button].
    repeat split; congruence. }
  split; [congruence|]. split; [|split].
  - intros Hall. destruct (H11 Hall P11) as [Hh Hc].
    subst released. unfold mouse_up. rewrite Hh, Hc, P12. cbn [andb].
    unfold switch_pause. cbn [pause_button set_pause_button is_paused
                              clicked_down].
    split; [|done]. congruence.
  - intros Hall. pose proof (H12 Hall) as Hc.
    subst released. unfold mouse_up. rewrite Hc, andb_false_r.
    split; [done|]. congruence.
  - intros Hc. unfold mouse_up. by rewrite Hc, andb_false_r.
Qed.

Lemma a_click_needs_the_pointer_to_stay_witness :
  let g := set_pause_button first_game (mkPauseButton true false true) in
  let pressed := mouse_down g in
  let later := hover_frames pressed [true; true] in
  let released := mouse_up later in
  same_play g (set_pause_button released (pause_button g))
  ∧ grid_visible released = grid_visible g
  ∧ (forallb id [true; true] = true →
     is_paused (pause_button released) = negb (is_paused (pause_button g))
     ∧ clicked_down (pause_button released) = false)
  ∧ (forallb id [true; true] = false → pause_button released = pause_button later
     ∧ is_paused (pause_button released) = is_paused (pause_button g))
  ∧ (clicked_down (pause_button g) = false → mouse_up g = g).
Proof.
  intros g.
  apply (a_click_needs_the_pointer_to_stay g [true; true]). reflexivity.
Defined.

Section Focus.
Variable shuffle : nat → list Shape → list Shape.

(** X25.  Losing the keyboard focus pauses the game.  A pass of the main loop
    without keyboard focus, started while the game is playing and with no
    event that ends a pause (escape down, left mouse button up) or reaches a
    paused playfield (down-arrow up), pauses the game before anything else:
    no key of that pass moves the piece, the playfield is not updated, the
    grid and the next piece are hidden, and the auto-repeat is reset. *)
Theorem losing_focus_pauses (c : GameController) (f : FrameInput) :
  is_paused (pause_button (controller_model c)) = false →
  focused f = false →
  forallb keeps_pause (events f) = true →
  ∃ c', main_loop_body shuffle c f = Done (Ok c')
        ∧ same_play (switch_pause (controller_model c)) (controller_model c')
        ∧ grid (controller_model c') = grid (controller_model c)
        ∧ is_paused (pause_button (controller_model c')) = true
        ∧ grid_visible (controller_model c') = false
        ∧ show_next_piece (controller_model c') = false
        ∧ left_key_held c' = false ∧ right_key_held c' = false
        ∧ autorepeat_counter c' = 0.
Proof.
  intros Hplaying Hfocus Hevents. unfold main_loop_body.
  rewrite Hplaying, Hfocus. cbn [negb].
  set (c1 := set_controller_model c (switch_pause (controller_model c))).
  assert (is_paused (pause_button (controller_model c1)) = true) as Hpaused1.
  { subst c1. unfold switch_pause.
    cbn [controller_model set_controller_model pause_button set_pause_button
         is_paused]. by rewrite Hplaying. }
  destruct (evaluate_input_paused (events f) c1 Hpaused1 Hevents)
    as (c2 & -> & Hsame).
  cbn [mbind fueled_bind].
  assert (is_paused (pause_button (controller_model c2)) = true) as Hpaused2.
  { destruct Hsame as (_&_&_&_&_&_&_&_&->). done. }
  unfold autorepeat. rewrite Hpaused2. cbn [mbind fueled_bind].
  unfold Model_update. cbn [controller_model].
  assert (is_paused (update_status (pause_button (controller_model c2))
                       (hovering f)) = true) as Hpaused3.
  { unfold update_status. by destruct (hovering f). }
  cbn [pause_button set_pause_button]. rewrite Hpaused3.
  cbn [mbind fueled_bind mret fueled_ret].
  eexists. split; [done|].
  cbn [controller_model set_controller_model set_visible set_pause_button
       grid gravity_counter entry_counter end_generator next_tetromino
       random_generator high_score scores_file pause_button grid_visible
       show_next_piece left_key_held right_key_held autorepeat_counter].
  destruct Hsame as (S1&S2&S3&S4&S5&S6&S7&S8&S9).
  assert (controller_model c1 = switch_pause (controller_model c)) as Hc1
    by (subst c1; by destruct c).
  rewrite Hc1 in S1, S2, S3, S4, S5, S6, S7, S8, S9, Hpaused1.
  split.
  { unfold same_play.
    cbn [controller_model set_controller_model set_visible set_pause_button
         grid gravity_counter entry_counter end_generator next_tetromino
         random_generator high_score scores_file pause_button].
    rewrite Hpaused3. repeat split; congruence. }
  split.
  { rewrite S1. unfold switch_pause. by destruct (controller_model c). }
  by rewrite Hpaused3.
Qed.
End Focus.

Lemma losing_focus_pauses_witness :
  let c := mkController (switch_pause first_game) 7 true false true in
  let f := mkFrameInput false [KEYDOWN K_LEFT; KEYDOWN K_x; KEYDOWN K_DOWN]
             false in
  ∃ c', main_loop_body identity_shuffle c f = Done (Ok c')
        ∧ same_play (switch_pause (controller_model c)) (controller_model c')
        ∧ grid (controller_model c') = grid (controller_model c)
        ∧ is_paused (pause_button (controller_model c')) = true
        ∧ grid_visible (controller_model c') = false
        ∧ show_next_piece (controller_model c') = false
        ∧ left_key_held c' = false ∧ right_key_held c' = false
        ∧ autorepeat_counter c' = 0.
Proof.
  intros c f.
  apply (losing_focus_pauses identity_shuffle c f); vm_compute; reflexivity.
Defined.
